(** * Neural Thompson Sampling agent (NeuralThompsonSampling/agent.py)

    A shallow embedding of [NeuralNetwork], [NeuralAgent] and the two
    baseline agents [BestAgent] and [UniformAgent].

    Conventions of the embedding.
    - NumPy / PyTorch float64 values are idealised as real numbers [R];
      a tensor or array of rank 1 is a [list R], of rank 2 a list of rows.
      Arrays with a zero-sized axis are outside the model (a list of rows
      does not record the width of a matrix without rows).
    - A Python call either returns or raises: [result].  Agent methods
      mutate [self] before they may raise, so they return the state reached
      together with the outcome.
    - The random generators and [np.linalg.inv] are library code: they are
      taken as a [Runtime] record.
    - [print] calls are not modelled. *)

From Stdlib Require Import Reals Lra Lia Psatz List Arith ZArith Bool.
Import ListNotations.
Local Open Scope R_scope.

(** ** Outcomes *)

Inductive exn : Set :=
| ValueError | IndexError | AssertionError | ZeroDivisionError
| TypeError | LinAlgError.

Inductive result (A : Type) : Type :=
| Ok (a : A)
| Raise (e : exn).
Arguments Ok {A} a.
Arguments Raise {A} e.

Definition bind {A B : Type} (r : result A) (f : A -> result B) : result B :=
  match r with Ok a => f a | Raise e => Raise e end.

Notation "x <- c ;; k" := (bind c (fun x => k))
  (at level 61, c at next level, right associativity).
Notation "' pat <- c ;; k" := (bind c (fun x => match x with pat => k end))
  (at level 61, pat pattern, c at next level, right associativity).

(** ** Arrays *)

Abbreviation vector := (list R).
Abbreviation matrix := (list (list R)).

Fixpoint zipWith {A B C : Type} (f : A -> B -> C) (u : list A) (v : list B)
  : list C :=
  match u, v with
  | a :: u', b :: v' => f a b :: zipWith f u' v'
  | _, _ => []
  end.

Definition vadd (u v : vector) : vector := zipWith Rplus u v.
Definition vscale (a : R) (v : vector) : vector := map (Rmult a) v.
Definition madd (A B : matrix) : matrix := zipWith vadd A B.
Definition mscale (a : R) (A : matrix) : matrix := map (vscale a) A.
Definition msub (A B : matrix) : matrix := zipWith (zipWith Rminus) A B.

Fixpoint dot (u v : vector) : R :=
  match u, v with
  | a :: u', b :: v' => a * b + dot u' v'
  | _, _ => 0
  end.


(** [A + s] for a scalar [s]: NumPy adds [s] to every entry *)
Definition add_scalar (s : R) (A : matrix) : matrix :=
  map (map (fun u => u + s)) A.

Definition np_zeros (r c : nat) : matrix := repeat (repeat 0 c) r.

Fixpoint np_eye (n : nat) : matrix :=
  match n with
  | O => []
  | S n' => (1 :: repeat 0 n') :: map (cons 0) (np_eye n')
  end.

Definition ncols (A : matrix) : nat := length (hd [] A).
Definition zeros_like (A : matrix) : matrix := map (map (fun _ => 0)) A.

(** [x @ B] for a row vector [x]; [n] is the number of columns of [B]. *)
Fixpoint vecmat (n : nat) (x : vector) (B : matrix) : vector :=
  match x, B with
  | a :: x', b :: B' => vadd (vscale a b) (vecmat n x' B')
  | _, _ => repeat 0 n
  end.

(** [torch.matmul(A, B)] on rank-2 operands whose inner sizes agree. *)
Definition matmul (A B : matrix) : matrix := map (fun x => vecmat (ncols B) x B) A.

(** [A @ B.T] *)
Definition matmul_nt (A B : matrix) : matrix := map (fun x => map (dot x) B) A.

(** the outer product of two vectors *)
Definition outer (u v : vector) : matrix := map (fun a => vscale a v) u.

(** [X.T @ D], accumulated on a zero matrix shaped like [W]. *)
Fixpoint matmul_tn (W : matrix) (X D : matrix) : matrix :=
  match X, D with
  | x :: X', d :: D' => madd (outer x d) (matmul_tn W X' D')
  | _, _ => zeros_like W
  end.

Definition trace (A : matrix) : R :=
  fold_right Rplus 0 (map (fun i => nth i (nth i A []) 0) (seq 0 (length A))).

(** NumPy broadcasting along one axis: a source of the target's length is
    taken as it is, a source of length one is repeated. *)
Definition fits {A : Type} (n : nat) (src : list A) : bool :=
  (length src =? n)%nat || (length src =? 1)%nat.

Definition stretch {A : Type} (n : nat) (src : list A) : list A :=
  match src with
  | [a] => repeat a n
  | _ => src
  end.

Definition broadcast_to (nr nc : nat) (B : matrix) : result matrix :=
  if fits nr B && forallb (fits nc) B
  then Ok (map (stretch nc) (stretch nr B))
  else Raise ValueError.

Definition paste_row (c0 : nat) (row src : vector) : vector :=
  firstn c0 row ++ src ++ skipn (c0 + length src) row.

(** overwrite the block of [W] whose top-left corner is [(r0, c0)] *)
Definition paste (W : matrix) (r0 c0 : nat) (B : matrix) : matrix :=
  firstn r0 W
  ++ zipWith (paste_row c0) (firstn (length B) (skipn r0 W)) B
  ++ skipn (r0 + length B) W.

(** [W[r0:r1, c0:c1] = B] for slices inside [W] *)
Definition setitem (W : matrix) (r0 r1 c0 c1 : nat) (B : matrix)
  : result matrix :=
  B' <- broadcast_to (r1 - r0) (c1 - c0) B ;;
  Ok (paste W r0 c0 B').

(** [W[r0:r1, 0] = v] for a rank-1 source *)
Definition setitem_col0 (W : matrix) (r0 r1 : nat) (v : vector)
  : result matrix :=
  if fits (r1 - r0) v
  then Ok (paste W r0 0 (map (fun c => [c]) (stretch (r1 - r0) v)))
  else Raise ValueError.

(** a call of one of the two methods of the agent *)
Inductive call : Type :=
| CallAction (context_list : matrix)
| CallUpdate (reward : R).

(** ** Library code the agent calls *)

Record Runtime : Type := {
  (** the process-wide NumPy generator *)
  np_state : Type;
  np_seed : Z -> np_state;
  np_normal : np_state -> R * np_state;
  (** [random_interval(i)]: a draw from [0..i], used by [np.random.shuffle] *)
  np_interval : np_state -> nat -> nat * np_state;
  (** an instance of [random.Random] *)
  py_state : Type;
  py_seed : Z -> py_state;
  (** the standard normal deviate [z] that [normalvariate] draws before it
      returns [mu + z * sigma] *)
  py_normal : py_state -> R * py_state;
  (** [np.linalg.inv] *)
  linalg_inv : matrix -> result matrix
}.

Section Agent.

Variable rt : Runtime.

Local Abbreviation np_state := (np_state rt).
Local Abbreviation py_state := (py_state rt).

(** *** [np.random] *)

Fixpoint randn1 (n : nat) (g : np_state) : vector * np_state :=
  match n with
  | O => ([], g)
  | S n' =>
      let (z, g1) := np_normal rt g in
      let (zs, g2) := randn1 n' g1 in
      (z :: zs, g2)
  end.

(** [np.random.randn(r, c)]: [r * c] draws, row by row *)
Fixpoint randn2 (r c : nat) (g : np_state) : matrix * np_state :=
  match r with
  | O => ([], g)
  | S r' =>
      let (row, g1) := randn1 c g in
      let (rows, g2) := randn2 r' c g1 in
      (row :: rows, g2)
  end.

Definition swap {A : Type} (i j : nat) (l : list A) : list A :=
  match nth_error l i, nth_error l j with
  | Some a, Some b =>
      map (fun k => if (k =? i)%nat then b
                    else if (k =? j)%nat then a
                    else nth k l a)
          (seq 0 (length l))
  | _, _ => l
  end.

(** [np.random.shuffle]: for [i = n-1 .. 1], swap slot [i] with a slot drawn
    from [0..i] *)
Fixpoint shuffle_from {A : Type} (i : nat) (l : list A) (g : np_state)
  : list A * np_state :=
  match i with
  | O => (l, g)
  | S i' =>
      let (j, g1) := np_interval rt g i in
      shuffle_from i' (swap i (Nat.min j i) l) g1
  end.

Definition np_shuffle {A : Type} (l : list A) (g : np_state)
  : list A * np_state :=
  shuffle_from (length l - 1) l g.

(** [np.random.seed(seed)] replaces the state of the generator *)
Definition np_random_seed (seed : Z) (g : np_state) : np_state :=
  np_seed rt seed.

(** ** class NeuralNetwork *)

Record NeuralNetwork : Type := {
  nn_d : nat;
  nn_L : nat;
  nn_m : nat;
  nn_random_seed : Z;
  (** [self.W]: the parameters ["W1"] .. ["WL"], in insertion order *)
  nn_W : list matrix;
  (** [self.W0]: the deep copies taken at construction *)
  nn_W0 : list matrix;
  (** the [.grad] accumulator of each parameter (a parameter without a
      gradient yet accumulates from zero) *)
  nn_grad : list matrix
}.

Definition relu (z : R) : R := Rmax 0 z.
Definition relu' (z : R) : R := if Rlt_dec 0 z then 1 else 0.

Definition layer1 (d m : nat) (w : matrix) : result matrix :=
  W <- setitem (np_zeros d m) 0 (d / 2) 0 (m / 2) w ;;
  setitem W (d / 2) d (m / 2) m w.

Definition layerL (m : nat) (w : vector) : result matrix :=
  W <- setitem_col0 (np_zeros m 1) 0 (m / 2) w ;;
  setitem_col0 W (m / 2) m (map Ropp w).

Definition layer_mid (m : nat) (w : matrix) : result matrix :=
  W <- setitem (np_zeros m m) 0 (m / 2) 0 (m / 2) w ;;
  setitem W (m / 2) m (m / 2) m w.

(** the body of [for layer_index in range(1, L + 1)] *)
Definition build_layer (d L m : nat) (w1 wmid : matrix) (wL : vector)
  (layer_index : nat) : result matrix :=
  if (layer_index =? 1)%nat then layer1 d m w1
  else if (layer_index =? L)%nat then layerL m wL
  else layer_mid m wmid.

Fixpoint mapM {A B : Type} (f : A -> result B) (l : list A)
  : result (list B) :=
  match l with
  | [] => Ok []
  | a :: l' => b <- f a ;; bs <- mapM f l' ;; Ok (b :: bs)
  end.

(** [NeuralNetwork.__init__], from the state [g] of the NumPy generator;
    returns the network and the state in which it leaves the generator. *)
Definition NeuralNetwork_init (d L m : nat) (random_seed : Z)
  (g : np_state) : result (NeuralNetwork * np_state) :=
  (* np.random.seed takes a seed between 0 and 2**32 - 1 *)
  if (random_seed <? 0)%Z || (2 ^ 32 <=? random_seed)%Z
  then Raise ValueError else
  let g0 := np_random_seed random_seed g in
  if (m =? 0)%nat then Raise ZeroDivisionError else
  let (r1, g1) := randn2 (d / 2) (m / 2) g0 in
  let w_for_1 := mscale (sqrt (4 / INR m)) r1 in
  let (r2, g2) := randn2 (m / 2) (m / 2) g1 in
  let w_for_1_to_Lminus1 := mscale (sqrt (4 / INR m)) r2 in
  let (r3, g3) := randn1 (m / 2) g2 in
  let w_for_L := vscale (sqrt (2 / INR m)) r3 in
  W <- mapM (build_layer d L m w_for_1 w_for_1_to_Lminus1 w_for_L)
            (seq 1 L) ;;
  Ok ({| nn_d := d; nn_L := L; nn_m := m; nn_random_seed := random_seed;
         nn_W := W; nn_W0 := W; nn_grad := map zeros_like W |}, g3).

(** A tensor argument of rank 1 or 2. *)
Inductive tensor : Type :=
| Rank1 (v : vector)
| Rank2 (M : matrix).

(** the loop of [forward] over the layers *)
Fixpoint layers (Ws : list matrix) (x : matrix) : matrix :=
  match Ws with
  | [] => x
  | [WL] => matmul x WL
  | Wl :: rest => layers rest (map (map relu) (matmul x Wl))
  end.

Definition forward (nn : NeuralNetwork) (x : tensor) : result matrix :=
  let x := match x with Rank1 v => [v] | Rank2 M => M end in
  if forallb (fun row => (length row =? nn_d nn)%nat) x
  then Ok (mscale (sqrt (INR (nn_m nn))) (layers (nn_W nn) x))
  else Raise AssertionError.

(** Reverse-mode differentiation of [layers Ws x], as autograd performs it:
    given [dY], the derivative of the differentiated scalar with respect to
    the output of [layers], the derivative with respect to each weight (in the
    order of [Ws]) and with respect to [x]. *)
Fixpoint backward (Ws : list matrix) (x dY : matrix) : list matrix * matrix :=
  match Ws with
  | [] => ([], dY)
  | [WL] => ([matmul_tn WL x dY], matmul_nt dY WL)
  | Wl :: rest =>
      let z := matmul x Wl in
      let (gs, dh) := backward rest (map (map relu) z) dY in
      let dz := zipWith (zipWith Rmult) dh (map (map relu') z) in
      (matmul_tn Wl x dz :: gs, matmul_nt dz Wl)
  end.

Definition set_grad (nn : NeuralNetwork) (g : list matrix) : NeuralNetwork :=
  {| nn_d := nn_d nn; nn_L := nn_L nn; nn_m := nn_m nn;
     nn_random_seed := nn_random_seed nn;
     nn_W := nn_W nn; nn_W0 := nn_W0 nn; nn_grad := g |}.

Definition set_W (nn : NeuralNetwork) (W : list matrix) : NeuralNetwork :=
  {| nn_d := nn_d nn; nn_L := nn_L nn; nn_m := nn_m nn;
     nn_random_seed := nn_random_seed nn;
     nn_W := W; nn_W0 := nn_W0 nn; nn_grad := nn_grad nn |}.

(** the derivative of [output[0, 0]] with respect to [output] *)
Definition onehot00 (Y : matrix) : matrix :=
  match Y with
  | (_ :: ys) :: rows => (1 :: map (fun _ => 0) ys) :: zeros_like rows
  | _ => zeros_like Y
  end.

Definition flatten (gs : list matrix) : vector := concat (map (@concat R) gs).

(** [GetGrad]: [output.backward()] adds the gradient to the [.grad] of every
    parameter, and the method returns the accumulators, flattened in the
    order of [self.parameters()].  No call of [GetGrad] clears them. *)
Definition GetGrad (nn : NeuralNetwork) (x : vector)
  : result (vector * NeuralNetwork) :=
  out <- forward nn (Rank2 [x]) ;;
  match out with
  | (_ :: _) :: _ =>
      let dY := mscale (sqrt (INR (nn_m nn))) (onehot00 out) in
      let (gs, _) := backward (nn_W nn) [x] dY in
      let acc := zipWith madd (nn_grad nn) gs in
      Ok (flatten acc, set_grad nn acc)
  | _ => Raise IndexError
  end.

(** ** class NeuralAgent *)

Record NeuralAgent : Type := {
  random_generator : py_state;
  random_seed : Z;
  K : nat;
  T : nat;
  L : nat;
  m : nat;
  d : nat;
  p : Z;
  mynn : NeuralNetwork;
  nu : R;
  lambda_ : R;
  eta : R;
  frequency : Z;
  batchsize : option Z;
  U : matrix;
  t : nat;
  history_reward : vector;
  history_action : vector;
  predicted_reward : vector;
  history_context : matrix
}.

(** [NeuralAgent.__init__].  The network is built with its default seed
    12345: the constructor does not pass [random_seed] on.  [batchsize] is
    [None] when the argument is omitted. *)
Definition NeuralAgent_init (K T d L m : nat) (nu lambda_ eta : R)
  (frequency : Z) (batchsize : option Z) (random_seed : Z) (g : np_state)
  : result (NeuralAgent * np_state) :=
  let gen := py_seed rt random_seed in
  let p := (Z.of_nat m + Z.of_nat m * Z.of_nat d
            + Z.of_nat m * Z.of_nat m * (Z.of_nat L - 2))%Z in
  '(nn, g) <- NeuralNetwork_init d L m 12345 g ;;
  (* torch.optim.SGD refuses an empty parameter list *)
  if (length (nn_W nn) =? 0)%nat then Raise ValueError else
  (* np.eye refuses a negative size *)
  if (p <? 0)%Z then Raise ValueError else
  Ok ({| random_generator := gen; random_seed := random_seed;
         K := K; T := T; L := L; m := m; d := d; p := p; mynn := nn;
         nu := nu; lambda_ := lambda_; eta := eta;
         frequency := frequency; batchsize := batchsize;
         U := mscale lambda_ (np_eye (Z.to_nat p));
         t := 0;
         history_reward := repeat 0 T;
         history_action := repeat 0 T;
         predicted_reward := repeat 0 T;
         history_context := np_zeros T d |}, g).

Definition set_mynn (a : NeuralAgent) (nn : NeuralNetwork) : NeuralAgent :=
  {| random_generator := random_generator a; random_seed := random_seed a;
     K := K a; T := T a; L := L a; m := m a; d := d a; p := p a; mynn := nn;
     nu := nu a; lambda_ := lambda_ a; eta := eta a;
     frequency := frequency a; batchsize := batchsize a; U := U a; t := t a;
     history_reward := history_reward a;
     history_action := history_action a;
     predicted_reward := predicted_reward a;
     history_context := history_context a |}.

Definition set_random_generator (a : NeuralAgent) (g : py_state)
  : NeuralAgent :=
  {| random_generator := g; random_seed := random_seed a;
     K := K a; T := T a; L := L a; m := m a; d := d a; p := p a;
     mynn := mynn a;
     nu := nu a; lambda_ := lambda_ a; eta := eta a;
     frequency := frequency a; batchsize := batchsize a; U := U a; t := t a;
     history_reward := history_reward a;
     history_action := history_action a;
     predicted_reward := predicted_reward a;
     history_context := history_context a |}.

Definition set_U (a : NeuralAgent) (U' : matrix) : NeuralAgent :=
  {| random_generator := random_generator a; random_seed := random_seed a;
     K := K a; T := T a; L := L a; m := m a; d := d a; p := p a;
     mynn := mynn a;
     nu := nu a; lambda_ := lambda_ a; eta := eta a;
     frequency := frequency a; batchsize := batchsize a; U := U'; t := t a;
     history_reward := history_reward a;
     history_action := history_action a;
     predicted_reward := predicted_reward a;
     history_context := history_context a |}.

Definition set_t (a : NeuralAgent) (t' : nat) : NeuralAgent :=
  {| random_generator := random_generator a; random_seed := random_seed a;
     K := K a; T := T a; L := L a; m := m a; d := d a; p := p a;
     mynn := mynn a;
     nu := nu a; lambda_ := lambda_ a; eta := eta a;
     frequency := frequency a; batchsize := batchsize a; U := U a; t := t';
     history_reward := history_reward a;
     history_action := history_action a;
     predicted_reward := predicted_reward a;
     history_context := history_context a |}.

Definition set_history_reward (a : NeuralAgent) (h : vector) : NeuralAgent :=
  {| random_generator := random_generator a; random_seed := random_seed a;
     K := K a; T := T a; L := L a; m := m a; d := d a; p := p a;
     mynn := mynn a;
     nu := nu a; lambda_ := lambda_ a; eta := eta a;
     frequency := frequency a; batchsize := batchsize a; U := U a; t := t a;
     history_reward := h;
     history_action := history_action a;
     predicted_reward := predicted_reward a;
     history_context := history_context a |}.

Definition set_history_action (a : NeuralAgent) (h : vector) : NeuralAgent :=
  {| random_generator := random_generator a; random_seed := random_seed a;
     K := K a; T := T a; L := L a; m := m a; d := d a; p := p a;
     mynn := mynn a;
     nu := nu a; lambda_ := lambda_ a; eta := eta a;
     frequency := frequency a; batchsize := batchsize a; U := U a; t := t a;
     history_reward := history_reward a;
     history_action := h;
     predicted_reward := predicted_reward a;
     history_context := history_context a |}.

Definition set_predicted_reward (a : NeuralAgent) (h : vector)
  : NeuralAgent :=
  {| random_generator := random_generator a; random_seed := random_seed a;
     K := K a; T := T a; L := L a; m := m a; d := d a; p := p a;
     mynn := mynn a;
     nu := nu a; lambda_ := lambda_ a; eta := eta a;
     frequency := frequency a; batchsize := batchsize a; U := U a; t := t a;
     history_reward := history_reward a;
     history_action := history_action a;
     predicted_reward := h;
     history_context := history_context a |}.

Definition set_history_context (a : NeuralAgent) (h : matrix) : NeuralAgent :=
  {| random_generator := random_generator a; random_seed := random_seed a;
     K := K a; T := T a; L := L a; m := m a; d := d a; p := p a;
     mynn := mynn a;
     nu := nu a; lambda_ := lambda_ a; eta := eta a;
     frequency := frequency a; batchsize := batchsize a; U := U a; t := t a;
     history_reward := history_reward a;
     history_action := history_action a;
     predicted_reward := predicted_reward a;
     history_context := h |}.

(** *** State and exceptions

    A method body is a function from the state before to the outcome and
    the state after: an exception keeps every assignment made before it. *)

Definition Eff (S A : Type) : Type := S -> result A * S.

Definition ret {S A : Type} (a : A) : Eff S A := fun s => (Ok a, s).

Definition bindE {S A B : Type} (c : Eff S A) (k : A -> Eff S B) : Eff S B :=
  fun s =>
    match c s with
    | (Ok a, s') => k a s'
    | (Raise e, s') => (Raise e, s')
    end.

Definition gets {S A : Type} (f : S -> A) : Eff S A := fun s => (Ok (f s), s).
Definition modify {S : Type} (f : S -> S) : Eff S unit :=
  fun s => (Ok tt, f s).
Definition lift {S A : Type} (r : result A) : Eff S A := fun s => (r, s).

Notation "x <~ c ;; k" := (bindE c (fun x => k))
  (at level 61, c at next level, right associativity).
Notation "' pat <~ c ;; k" :=
  (bindE c (fun x => match x with pat => k end))
  (at level 61, pat pattern, c at next level, right associativity).
Notation "c ;;; k" := (bindE c (fun _ => k))
  (at level 61, right associativity).

(** [for x in l: body(x)], collecting what the bodies return *)
Fixpoint mapE {S A B : Type} (body : A -> Eff S B) (l : list A)
  : Eff S (list B) :=
  match l with
  | [] => ret []
  | a :: l' => b <~ body a ;; bs <~ mapE body l' ;; ret (b :: bs)
  end.

(** [for x in l: body(x)] *)
Fixpoint forE {S A : Type} (l : list A) (body : A -> Eff S unit)
  : Eff S unit :=
  match l with
  | [] => ret tt
  | a :: l' => body a ;;; forE l' body
  end.

(** indexing and item assignment with a non-negative index *)
Definition getitem {A : Type} (l : list A) (i : nat) : result A :=
  match nth_error l i with
  | Some a => Ok a
  | None => Raise IndexError
  end.

Definition setitem1 {A : Type} (l : list A) (i : nat) (a : A)
  : result (list A) :=
  if (i <? length l)%nat
  then Ok (firstn i l ++ a :: skipn (S i) l)
  else Raise IndexError.

(** [v.dot(M)] and [u.dot(v)] *)
Definition dot_vm (v : vector) (M : matrix) : result vector :=
  if (length v =? length M)%nat
  then Ok (vecmat (ncols M) v M)
  else Raise ValueError.

Definition dot_vv (u v : vector) : result R :=
  if (length u =? length v)%nat then Ok (dot u v) else Raise ValueError.

(** [np.argmax]: the first index holding the maximum *)
Fixpoint argmax_from (best : R) (besti i : nat) (l : vector) : nat :=
  match l with
  | [] => besti
  | x :: l' =>
      if Rlt_dec best x
      then argmax_from x i (S i) l'
      else argmax_from best besti (S i) l'
  end.

Definition np_argmax (l : vector) : result nat :=
  match l with
  | [] => Raise ValueError
  | x :: l' => Ok (argmax_from x 0 1 l')
  end.

(** [random.Random.normalvariate] *)
Definition normalvariate (mu sigma : R) : Eff NeuralAgent R :=
  fun self =>
    let (z, g) := py_normal rt (random_generator self) in
    (Ok (mu + z * sigma), set_random_generator self g).

(** the body of [for arm in range(1, K + 1)]: the pair
    [(predict_reward_[arm - 1], sample_reward_[arm - 1])] *)
Definition score_arm (U_inverse context_list : matrix) (arm : nat)
  : Eff NeuralAgent (R * R) :=
  x <~ lift (getitem context_list (arm - 1)) ;;
  nn <~ gets mynn ;;
  '(grad_arm, nn') <~ lift (GetGrad nn x) ;;
  modify (fun self => set_mynn self nn') ;;;
  gU <~ lift (dot_vm grad_arm U_inverse) ;;
  gUg <~ lift (dot_vv gU grad_arm) ;;
  lam <~ gets lambda_ ;;
  width <~ gets m ;;
  let sigma_t_k2 := lam * gUg / INR width in
  out <~ lift (forward nn' (Rank1 x)) ;;
  match out with
  | [[mu]] =>
      nu_ <~ gets nu ;;
      s <~ normalvariate mu (sqrt (nu_ ^ 2 * sigma_t_k2)) ;;
      ret (mu, s)
  | _ => lift (Raise ValueError)
  end.

(** the first half of [Action]: the inverse of [U] and the loop over the
    arms *)
Definition score_arms (context_list : matrix)
  : Eff NeuralAgent (list (R * R)) :=
  U_ <~ gets U ;;
  U_inverse <~ lift (linalg_inv rt U_) ;;
  k <~ gets K ;;
  mapE (score_arm U_inverse context_list) (seq 1 k).

(** [NeuralAgent.Action] *)
Definition Action (context_list : matrix) : Eff NeuralAgent nat :=
  scores <~ score_arms context_list ;;
  let predict_reward_ := map fst scores in
  let sample_reward_ := map snd scores in
  ind <~ lift (np_argmax sample_reward_) ;;
  (* save the history *)
  ha <~ (fun self =>
           (setitem1 (history_action self) (t self) (INR ind), self)) ;;
  modify (fun self => set_history_action self ha) ;;;
  row <~ lift (getitem context_list ind) ;;
  hc <~ (fun self => (setitem1 (history_context self) (t self) row, self)) ;;
  modify (fun self => set_history_context self hc) ;;;
  mu <~ lift (getitem predict_reward_ ind) ;;
  pr <~ (fun self => (setitem1 (predicted_reward self) (t self) mu, self)) ;;
  modify (fun self => set_predicted_reward self pr) ;;;
  ret ind.

(** *** Training *)

(** the derivative of [MSELoss(output[:, 0], y)] with respect to [output] *)
Definition mse_grad (output : matrix) (y : vector) : matrix :=
  zipWith (fun row yi =>
             match row with
             | o :: rest =>
                 (2 * (o - yi) / INR (length y)) :: map (fun _ => 0) rest
             | [] => []
             end) output y.

(** One minibatch: [zero_grad], [forward], the loss, [backward], [step].
    The loss adds [lambda_ * sum((W - W0) ** 2) / 2 / p] for every key. *)
Definition train_batch (lam eta : R) (p : Z) (nn : NeuralNetwork)
  (X : matrix) (y : vector) : result NeuralNetwork :=
  output <- forward nn (Rank2 X) ;;
  let dY := mscale (sqrt (INR (nn_m nn))) (mse_grad output y) in
  let (gs, _) := backward (nn_W nn) X dY in
  let reg := zipWith (fun W W0 => mscale (lam / IZR p) (msub W W0))
                     (nn_W nn) (nn_W0 nn) in
  let grad := zipWith madd gs reg in
  let W' := zipWith (fun W g => msub W (mscale eta g)) (nn_W nn) grad in
  Ok (set_W (set_grad nn grad) W').

(** [a // b] for an [int] and an [int] or [None] *)
Definition floordiv (a : Z) (b : option Z) : result Z :=
  match b with
  | None => Raise TypeError
  | Some b' => if (b' =? 0)%Z then Raise ZeroDivisionError else Ok (a / b')%Z
  end.

(** [a % b] *)
Definition pymod (a b : Z) : result Z :=
  if (b =? 0)%Z then Raise ZeroDivisionError else Ok (a mod b)%Z.

Definition on_self {G A : Type} (c : Eff NeuralAgent A)
  : Eff (NeuralAgent * G) A :=
  fun '(self, g) => let (r, self') := c self in (r, (self', g)).

(** the body of [for batch_index in range(0, t // batchsize + 1)] *)
Definition train_step (temp_history_context : matrix)
  (temp_history_reward : vector) (batch_index : nat)
  : Eff NeuralAgent unit :=
  fun self =>
    (q <~ lift (floordiv (Z.of_nat (t self)) (batchsize self)) ;;
     let bs := match batchsize self with Some b => b | None => 0%Z end in
     let lo := Z.to_nat (Z.of_nat batch_index * bs) in
     let hi := Z.to_nat ((Z.of_nat batch_index + 1) * bs) in
     let X_temp :=
       if (Z.of_nat batch_index <? q)%Z
       then firstn (hi - lo) (skipn lo temp_history_context)
       else skipn lo temp_history_context in
     let y_temp :=
       if (Z.of_nat batch_index <? q)%Z
       then firstn (hi - lo) (skipn lo temp_history_reward)
       else skipn lo temp_history_reward in
     nn <~ gets mynn ;;
     nn' <~ lift (train_batch (lambda_ self) (eta self) (p self) nn
                              X_temp y_temp) ;;
     modify (fun self => set_mynn self nn')) self.

(** the body of [for jj in range(np.minimum(self.t, 100))] *)
Definition epoch (jj : nat) : Eff (NeuralAgent * np_state) unit :=
  fun '(self, g) =>
    let (history_index, g') := np_shuffle (seq 0 (t self + 1)) g in
    let temp_history_context :=
      map (fun i => nth i (history_context self) []) history_index in
    let temp_history_reward :=
      map (fun i => nth i (history_reward self) 0) history_index in
    on_self
      (q <~ (fun self =>
               (floordiv (Z.of_nat (t self)) (batchsize self), self)) ;;
       forE (seq 0 (Z.to_nat (q + 1)))
            (train_step temp_history_context temp_history_reward))
      (self, g').

(** the branch [if (self.t + 1) % self.frequency == 0] *)
Definition retrain : Eff (NeuralAgent * np_state) unit :=
  on_self (modify (fun self =>
             set_mynn self (set_W (mynn self) (nn_W0 (mynn self))))) ;;;
  n <~ on_self (gets (fun self => Nat.min (t self) 100)) ;;
  forE (seq 0 n) epoch.

(** the first half of [Update]: the reward is recorded and [U] is updated.
    [grad_parameter] has rank 1, so [grad_parameter.transpose()] is
    [grad_parameter] and [dot] is the inner product: a scalar, which [+]
    broadcasts over [U]. *)
Definition observe (reward : R) : Eff NeuralAgent unit :=
  hr <~ (fun self =>
           (setitem1 (history_reward self) (t self) reward, self)) ;;
  modify (fun self => set_history_reward self hr) ;;;
  (* [ind = self.history_action[self.t]] is read and not used *)
  context <~ (fun self =>
                (getitem (history_context self) (t self), self)) ;;
  (* update U *)
  nn <~ gets mynn ;;
  '(grad_parameter, nn') <~ lift (GetGrad nn context) ;;
  modify (fun self => set_mynn self nn') ;;;
  gg <~ lift (dot_vv grad_parameter grad_parameter) ;;
  modify (fun self => set_U self (add_scalar (gg / INR (m self)) (U self))).

Definition advance : Eff (NeuralAgent * np_state) unit :=
  on_self (modify (fun self => set_t self (t self + 1))).

(** the second half of [Update]: train the network when the round calls
    for it, then [self.t += 1] *)
Definition train_and_advance : Eff (NeuralAgent * np_state) unit :=
  r <~ on_self (fun self =>
                  (pymod (Z.of_nat (t self) + 1) (frequency self), self)) ;;
  (if (r =? 0)%Z then retrain else ret tt) ;;;
  advance.

(** [NeuralAgent.Update] *)
Definition Update (reward : R) : Eff (NeuralAgent * np_state) unit :=
  on_self (observe reward) ;;; train_and_advance.

(** *** Call sequences *)

Definition step (c : call) (st : NeuralAgent * np_state)
  : NeuralAgent * np_state :=
  match c with
  | CallAction context_list =>
      (snd (Action context_list (fst st)), snd st)
  | CallUpdate reward => snd (Update reward st)
  end.

(** the state after a sequence of calls, whatever their outcomes *)
Definition run (calls : list call) (st : NeuralAgent * np_state)
  : NeuralAgent * np_state :=
  fold_left (fun st c => step c st) calls st.

(** One experiment: rounds of [Action] then [Update], until the rounds are
    used up or a call raises.  It yields the actions taken and the final
    state. *)
Fixpoint play (rounds : list (matrix * R)) (st : NeuralAgent * np_state)
  : list nat * (NeuralAgent * np_state) :=
  match rounds with
  | [] => ([], st)
  | (context_list, reward) :: rest =>
      match Action context_list (fst st) with
      | (Ok ind, self1) =>
          match Update reward (self1, snd st) with
          | (Ok _, st2) =>
              let (acts, st3) := play rest st2 in (ind :: acts, st3)
          | (Raise _, st2) => ([ind], st2)
          end
      | (Raise _, self1) => ([], (self1, snd st))
      end
  end.


(** *** The retraining rule, as the specification words it *)

Fixpoint iterE {S : Type} (n : nat) (c : Eff S unit) : Eff S unit :=
  match n with
  | O => ret tt
  | S n' => c ;;; iterE n' c
  end.

Definition reset_weights (st : NeuralAgent * np_state)
  : NeuralAgent * np_state :=
  (set_mynn (fst st) (set_W (mynn (fst st)) (nn_W0 (mynn (fst st)))),
   snd st).

Definition retrain_spec (st1 : NeuralAgent * np_state)
  : result unit * (NeuralAgent * np_state) :=
  iterE (Nat.min (t (fst st1)) 100) (epoch 0) (reset_weights st1).

(** the fields of the agent that only the constructor writes *)
Definition settings (self : NeuralAgent)
  : nat * nat * nat * nat * nat * Z * R * R * R * Z * option Z :=
  (K self, T self, L self, m self, d self, p self, nu self, lambda_ self,
   eta self, frequency self, batchsize self).

(** what [Action] does not write: the settings, [U], [t] and the rewards *)
Definition untouched_by_Action (self : NeuralAgent) :=
  (settings self, U self, t self, history_reward self).

(** what the training loop does not write *)
Definition untouched_by_training (self : NeuralAgent) :=
  (settings self, U self, t self, history_reward self, history_action self,
   history_context self, predicted_reward self, random_generator self).

End Agent.

Arguments NeuralNetwork_init rt d L m random_seed g : simpl never.
Arguments random_generator {rt}.
Arguments random_seed {rt}.
Arguments K {rt}.
Arguments T {rt}.
Arguments L {rt}.
Arguments m {rt}.
Arguments d {rt}.
Arguments p {rt}.
Arguments mynn {rt}.
Arguments nu {rt}.
Arguments lambda_ {rt}.
Arguments eta {rt}.
Arguments frequency {rt}.
Arguments batchsize {rt}.
Arguments U {rt}.
Arguments t {rt}.
Arguments history_reward {rt}.
Arguments history_action {rt}.
Arguments predicted_reward {rt}.
Arguments history_context {rt}.
Arguments set_mynn {rt}.
Arguments set_random_generator {rt}.
Arguments set_U {rt}.
Arguments set_t {rt}.
Arguments set_history_reward {rt}.
Arguments set_history_action {rt}.
Arguments set_predicted_reward {rt}.
Arguments set_history_context {rt}.
Arguments settings {rt}.
Arguments untouched_by_Action {rt}.
Arguments untouched_by_training {rt}.
Arguments reset_weights {rt}.
Arguments on_self {rt G A} c.

(** ** Properties stated about the agent *)

Definition has_shape (r c : nat) (A : matrix) : Prop :=
  length A = r /\ Forall (fun row => length row = c) A.

Definition entry (A : matrix) (i j : nat) : R := nth j (nth i A []) 0.


Definition matvec (A : matrix) (x : vector) : vector :=
  map (fun row => dot row x) A.






(** the two halves of a context are the same vector *)
Definition mirrored (x : vector) : Prop :=
  firstn (length x / 2) x = skipn (length x / 2) x.

(** [d] and [m] positive and even, at least two layers *)
Definition valid_config (d L m : nat) : Prop :=
  (0 < d)%nat /\ Nat.even d = true /\ (0 < m)%nat /\ Nat.even m = true
  /\ (2 <= L)%nat.

(** every row of [A] has [c] entries *)
Definition width (c : nat) (A : matrix) : Prop :=
  Forall (fun row => length row = c) A.

(** [G] has the shape of [W] *)
Definition like (W G : matrix) : Prop := has_shape (length W) (ncols W) G.

(** the weight matrices fit one another: the first takes [din] inputs, each
    one feeds the next, the last gives [dout] outputs *)
Fixpoint chained (din : nat) (Ws : list matrix) (dout : nat) : Prop :=
  match Ws with
  | [] => din = dout
  | W :: rest =>
      (0 < din)%nat /\ exists c, has_shape din c W /\ chained c rest dout
  end.

(** the number of scalar parameters *)
Definition size_of (Ws : list matrix) : nat :=
  fold_right (fun W n => (length W * ncols W + n)%nat) O Ws.

(** what the network keeps true: the weights fit one another and end in
    one output, and the gradients and the snapshot have their shapes *)
Definition net_ok (nn : NeuralNetwork) : Prop :=
  chained (nn_d nn) (nn_W nn) 1
  /\ nn_W nn <> []
  /\ Forall2 like (nn_W nn) (nn_grad nn)
  /\ Forall2 like (nn_W nn) (nn_W0 nn).

(** what every agent keeps true from its construction on *)
Definition well_formed {rt : Runtime} (self : NeuralAgent rt) : Prop :=
  net_ok (mynn self)
  /\ nn_d (mynn self) = d self
  /\ has_shape (size_of (nn_W (mynn self))) (size_of (nn_W (mynn self)))
               (U self)
  /\ length (history_reward self) = T self
  /\ length (history_action self) = T self
  /\ length (predicted_reward self) = T self
  /\ has_shape (T self) (d self) (history_context self).

(** [ind] is the lowest index at which [l] takes its maximum *)
Definition first_max (l : vector) (ind : nat) : Prop :=
  (ind < length l)%nat
  /\ (forall j, (j < length l)%nat -> nth j l 0 <= nth ind l 0)
  /\ (forall j, (j < ind)%nat -> nth j l 0 < nth ind l 0).

(** [c] leaves the observation [f] of the state as it is, whatever the
    outcome *)
Definition keeps {S A X : Type} (f : S -> X) (c : Eff S A) : Prop :=
  forall s, f (snd (c s)) = f s.

(** ** A runtime to evaluate the agent on

    Every normal deviate of the NumPy generator is 1, every deviate of
    [random.Random] is 0 and [random_interval] answers 0.  The inverse is
    computed by Gauss-Jordan elimination on [A | I] without pivoting: it is
    the inverse of [A] whenever no pivot vanishes, which is the case of
    every symmetric positive-definite matrix. *)

(** row [k] divided by its pivot *)
Definition pivot_row (k : nat) (M : matrix) : vector :=
  let row := nth k M [] in vscale (/ nth k row 0) row.

(** clear column [k] outside row [k] *)
Definition eliminate (M : matrix) (k : nat) : matrix :=
  let prow := pivot_row k M in
  map (fun ir : nat * vector =>
         if (fst ir =? k)%nat then prow
         else zipWith Rminus (snd ir) (vscale (nth k (snd ir) 0) prow))
      (combine (seq 0 (length M)) M).

Definition gauss_jordan (A : matrix) : matrix :=
  let n := length A in
  map (skipn n)
      (fold_left eliminate (seq 0 n) (zipWith (@app R) A (np_eye n))).

Definition unit_runtime : Runtime :=
  {| np_state := nat;
     np_seed := fun _ => O;
     np_normal := fun g => (1, S g);
     np_interval := fun g _ => (O, S g);
     py_state := nat;
     py_seed := fun _ => O;
     py_normal := fun g => (0, S g);
     linalg_inv := fun A => Ok (gauss_jordan A) |}.

(** the two layouts [NeuralNetwork.__init__] builds: a block on both
    diagonal blocks, and a column over its negation *)
Definition block_diag2 (c : nat) (A : matrix) : matrix :=
  map (fun a => a ++ repeat 0 c) A ++ map (fun a => repeat 0 c ++ a) A.

Definition antisym_col (w : vector) : matrix :=
  map (fun c => [c]) (w ++ map Ropp w).

(** ** The baseline agents

    [BestAgent] knows the matrix [A] of the reward [x^T A^T A x] and plays
    the arm with the largest one; [UniformAgent] draws its arm.  Both keep
    their contexts as the columns of a [d] by [T] array. *)

(** [A.transpose()] of a rank-2 array *)
Definition transpose (A : matrix) : matrix :=
  fold_right (zipWith cons) (repeat [] (ncols A)) A.

(** [A.dot(B)] on rank-2 operands *)
Definition dot_mm (A B : matrix) : result matrix :=
  if (ncols A =? length B)%nat then Ok (matmul A B) else Raise ValueError.

(** [W[:, j] = v] for a rank-1 source: the index is checked, then [v] is
    broadcast along the rows *)
Definition setitem_col (W : matrix) (j : nat) (v : vector) : result matrix :=
  if (ncols W <=? j)%nat then Raise IndexError
  else if fits (length W) v
  then Ok (zipWith (fun row a => firstn j row ++ a :: skipn (S j) row)
                   W (stretch (length W) v))
  else Raise ValueError.

(** [W[:, j]] *)
Definition column (W : matrix) (j : nat) : vector :=
  map (fun row => nth j row 0) W.

Notation "x <~ c ;; k" := (bindE c (fun x => k))
  (at level 61, c at next level, right associativity).
Notation "c ;;; k" := (bindE c (fun _ => k))
  (at level 61, right associativity).

Module Best.

Record BestAgent : Type := {
  K : nat;
  T : nat;
  d : nat;
  t : nat;
  A : matrix;
  history_reward : vector;
  history_action : vector;
  history_context : matrix
}.

(** [BestAgent.__init__] *)
Definition init (K T d : nat) (A : matrix) : BestAgent :=
  {| K := K; T := T; d := d; t := 0; A := A;
     history_reward := repeat 0 T;
     history_action := repeat 0 T;
     history_context := np_zeros d T |}.

Definition set_t (a : BestAgent) (t' : nat) : BestAgent :=
  {| K := K a; T := T a; d := d a; t := t'; A := A a;
     history_reward := history_reward a;
     history_action := history_action a;
     history_context := history_context a |}.

Definition set_history_reward (a : BestAgent) (h : vector) : BestAgent :=
  {| K := K a; T := T a; d := d a; t := t a; A := A a;
     history_reward := h;
     history_action := history_action a;
     history_context := history_context a |}.

Definition set_history_action (a : BestAgent) (h : vector) : BestAgent :=
  {| K := K a; T := T a; d := d a; t := t a; A := A a;
     history_reward := history_reward a;
     history_action := h;
     history_context := history_context a |}.

Definition set_history_context (a : BestAgent) (h : matrix) : BestAgent :=
  {| K := K a; T := T a; d := d a; t := t a; A := A a;
     history_reward := history_reward a;
     history_action := history_action a;
     history_context := h |}.

(** the body of [for kk in range(0, self.K)]: [expected_reward[kk]] *)
Definition expected (A context_list : matrix) (kk : nat) : result R :=
  context <- getitem context_list kk ;;
  G <- dot_mm (transpose A) A ;;
  cG <- dot_vm context G ;;
  dot_vv cG context.

(** [BestAgent.Action] *)
Definition Action (context_list : matrix) : Eff BestAgent nat :=
  fun self =>
    (expected_reward <~ lift (mapM (expected (A self) context_list)
                                   (seq 0 (K self))) ;;
     ind <~ lift (np_argmax expected_reward) ;;
     row <~ lift (getitem context_list ind) ;;
     hc <~ lift (setitem_col (history_context self) (t self) row) ;;
     modify (fun self => set_history_context self hc) ;;;
     ha <~ lift (setitem1 (history_action self) (t self) (INR ind)) ;;
     modify (fun self => set_history_action self ha) ;;;
     ret ind) self.

(** [BestAgent.Update] *)
Definition Update (reward : R) : Eff BestAgent unit :=
  fun self =>
    (hr <~ lift (setitem1 (history_reward self) (t self) reward) ;;
     modify (fun self => set_t (set_history_reward self hr) (t self + 1)))
      self.

Definition GetHistoryReward (self : BestAgent) : vector :=
  history_reward self.

Definition GetHistoryAction (self : BestAgent) : vector :=
  history_action self.

Definition GetHistoryContext (self : BestAgent) : matrix :=
  history_context self.

Definition step (c : call) (self : BestAgent) : BestAgent :=
  match c with
  | CallAction context_list => snd (Action context_list self)
  | CallUpdate reward => snd (Update reward self)
  end.

(** the agent after a sequence of calls, whatever their outcomes *)
Definition run (calls : list call) (self : BestAgent) : BestAgent :=
  fold_left (fun self c => step c self) calls self.

End Best.

Module Uniform.

Record UniformAgent : Type := {
  K : nat;
  T : nat;
  d : nat;
  t : nat;
  history_reward : vector;
  history_action : vector;
  history_context : matrix
}.

(** [UniformAgent.__init__] *)
Definition init (K T d : nat) : UniformAgent :=
  {| K := K; T := T; d := d; t := 0;
     history_reward := repeat 0 T;
     history_action := repeat 0 T;
     history_context := np_zeros d T |}.

Definition set_t (a : UniformAgent) (t' : nat) : UniformAgent :=
  {| K := K a; T := T a; d := d a; t := t';
     history_reward := history_reward a;
     history_action := history_action a;
     history_context := history_context a |}.

Definition set_history_reward (a : UniformAgent) (h : vector)
  : UniformAgent :=
  {| K := K a; T := T a; d := d a; t := t a;
     history_reward := h;
     history_action := history_action a;
     history_context := history_context a |}.

Definition set_history_context (a : UniformAgent) (h : matrix)
  : UniformAgent :=
  {| K := K a; T := T a; d := d a; t := t a;
     history_reward := history_reward a;
     history_action := history_action a;
     history_context := h |}.

Section Draws.

Variable rt : Runtime.

(** the draw of [np.random.randint(0, high)] for [0 < high <= 2**63] and
    the state it leaves the generator in *)
Variable np_randint : np_state rt -> nat -> nat * np_state rt.

(** [np.random.randint(0, high=high)] *)
Definition randint (high : nat) (g : np_state rt)
  : result (nat * np_state rt) :=
  if (high =? 0)%nat || (2 ^ 63 <? Z.of_nat high)%Z
  then Raise ValueError
  else Ok (np_randint g high).

(** [UniformAgent.Action] *)
Definition Action (context_list : matrix)
  : Eff (UniformAgent * np_state rt) nat :=
  fun '(self, g) =>
    match randint (K self) g with
    | Raise e => (Raise e, (self, g))
    | Ok (ind, g') =>
        match bind (getitem context_list ind)
                   (setitem_col (history_context self) (t self)) with
        | Ok hc => (Ok ind, (set_history_context self hc, g'))
        | Raise e => (Raise e, (self, g'))
        end
    end.

(** [UniformAgent.Update] *)
Definition Update (reward : R) : Eff (UniformAgent * np_state rt) unit :=
  fun '(self, g) =>
    match setitem1 (history_reward self) (t self) reward with
    | Ok hr => (Ok tt, (set_t (set_history_reward self hr) (t self + 1), g))
    | Raise e => (Raise e, (self, g))
    end.

Definition step (c : call) (st : UniformAgent * np_state rt)
  : UniformAgent * np_state rt :=
  match c with
  | CallAction context_list => snd (Action context_list st)
  | CallUpdate reward => snd (Update reward st)
  end.

(** the agent after a sequence of calls, whatever their outcomes *)
Definition run (calls : list call) (st : UniformAgent * np_state rt)
  : UniformAgent * np_state rt :=
  fold_left (fun st c => step c st) calls st.

End Draws.

Definition GetHistoryReward (self : UniformAgent) : vector :=
  history_reward self.

Definition GetHistoryAction (self : UniformAgent) : vector :=
  history_action self.

Definition GetHistoryContext (self : UniformAgent) : matrix :=
  history_context self.

End Uniform.

(** ** Notions used to state what the training loop does *)

(** the rows that minibatch [batch_index] takes from the shuffled history
    [l], for a batch size [bs] and [q = t // bs] *)
Definition batch {X : Type} (bs q : Z) (batch_index : nat) (l : list X)
  : list X :=
  let lo := Z.to_nat (Z.of_nat batch_index * bs) in
  let hi := Z.to_nat ((Z.of_nat batch_index + 1) * bs) in
  if (Z.of_nat batch_index <? q)%Z
  then firstn (hi - lo) (skipn lo l)
  else skipn lo l.

(** [c] keeps the invariant [I], whatever its outcome *)
Definition preserves {S X : Type} (I : S -> Prop) (c : Eff S X) : Prop :=
  forall s, I s -> I (snd (c s)).

(** the invariant of the agent: it is well formed and its snapshot is
    [W0] *)
Definition agent_inv {rt : Runtime} (W0 : list matrix)
  (self : NeuralAgent rt) : Prop :=
  well_formed self /\ nn_W0 (mynn self) = W0.

(** the state of a training loop: the agent is in shape and only its
    network has changed since the loop was entered from [s0] *)
Definition training {rt : Runtime} (W0 : list matrix)
  (s0 s : NeuralAgent rt) : Prop :=
  agent_inv W0 s /\ untouched_by_training s = untouched_by_training s0.

(** slot [j] of the four history arrays *)
Definition log_at {rt : Runtime} (s : NeuralAgent rt) (j : nat) :=
  (nth_error (history_reward s) j, nth_error (history_action s) j,
   nth_error (history_context s) j, nth_error (predicted_reward s) j).

(** * Facts about arrays *)

Section Arrays.

Lemma zipWith_length {A B C : Type} (f : A -> B -> C) (u : list A)
  (v : list B) : length (zipWith f u v) = Nat.min (length u) (length v).
Proof.
  revert v; induction u as [|a u IH]; intros [|b v]; simpl; auto.
Qed.

Lemma zipWith_app {A B C : Type} (f : A -> B -> C) (u1 u2 : list A)
  (v1 v2 : list B) :
  length u1 = length v1 ->
  zipWith f (u1 ++ u2) (v1 ++ v2) = zipWith f u1 v1 ++ zipWith f u2 v2.
Proof.
  revert v1; induction u1 as [|a u1 IH]; intros [|b v1] H; simpl in *;
    try discriminate; auto.
  f_equal; apply IH; lia.
Qed.

Lemma zipWith_repeat_l {A B C : Type} (f : A -> B -> C) (a : A) (v : list B) :
  zipWith f (repeat a (length v)) v = map (f a) v.
Proof. induction v; simpl; congruence. Qed.

Lemma vadd_zeros_l (v : vector) (n : nat) :
  length v = n -> vadd (repeat 0 n) v = v.
Proof.
  intros <-. unfold vadd. rewrite zipWith_repeat_l.
  induction v; simpl; f_equal; auto; lra.
Qed.

Lemma vadd_zeros_r (v : vector) (n : nat) :
  length v = n -> vadd v (repeat 0 n) = v.
Proof.
  intros <-. unfold vadd. induction v; simpl; f_equal; auto; lra.
Qed.

Lemma vscale_zeros (a : R) (k : nat) : vscale a (repeat 0 k) = repeat 0 k.
Proof.
  unfold vscale. induction k; simpl; f_equal; auto; lra.
Qed.

Lemma vscale_length (a : R) (v : vector) : length (vscale a v) = length v.
Proof. apply length_map. Qed.

Lemma vecmat_length (n : nat) (x : vector) (B : matrix) :
  Forall (fun row => length row = n) B -> length (vecmat n x B) = n.
Proof.
  revert B; induction x as [|a x IH]; intros [|b B] H; simpl;
    try apply repeat_length.
  inversion H; subst. unfold vadd. rewrite zipWith_length, vscale_length.
  rewrite IH by assumption. lia.
Qed.

Lemma vecmat_pad_right (c k : nat) (x : vector) (A : matrix) :
  Forall (fun row => length row = c) A ->
  vecmat (c + k) x (map (fun a => a ++ repeat 0 k) A)
  = vecmat c x A ++ repeat 0 k.
Proof.
  revert A; induction x as [|a x IH]; intros [|b A] H; simpl;
    try apply repeat_app.
  inversion H; subst. rewrite IH by assumption.
  unfold vscale at 1. rewrite map_app. fold (vscale a b).
  fold (vscale a (repeat 0 k)). rewrite vscale_zeros.
  unfold vadd. rewrite zipWith_app.
  - f_equal. apply (vadd_zeros_l (repeat 0 k)), repeat_length.
  - rewrite vscale_length, vecmat_length; auto.
Qed.

Lemma vecmat_pad_left (c k : nat) (x : vector) (A : matrix) :
  Forall (fun row => length row = c) A ->
  vecmat (k + c) x (map (fun a => repeat 0 k ++ a) A)
  = repeat 0 k ++ vecmat c x A.
Proof.
  revert A; induction x as [|a x IH]; intros [|b A] H; simpl;
    try apply repeat_app.
  inversion H; subst. rewrite IH by assumption.
  unfold vscale at 1. rewrite map_app. fold (vscale a b).
  fold (vscale a (repeat 0 k)). rewrite vscale_zeros.
  unfold vadd. rewrite zipWith_app by reflexivity.
  f_equal. apply (vadd_zeros_l (repeat 0 k)), repeat_length.
Qed.

Lemma vadd_assoc (u v w : vector) : vadd (vadd u v) w = vadd u (vadd v w).
Proof.
  unfold vadd. revert v w; induction u as [|a u IH]; intros [|b v] [|c w];
    simpl; auto.
  f_equal; auto; lra.
Qed.

Lemma vecmat_app (n : nat) (x1 x2 : vector) (B1 B2 : matrix) :
  length x1 = length B1 ->
  Forall (fun row => length row = n) B2 ->
  vecmat n (x1 ++ x2) (B1 ++ B2) = vadd (vecmat n x1 B1) (vecmat n x2 B2).
Proof.
  revert B1; induction x1 as [|a x1 IH]; intros [|b B1] H H2; simpl in *;
    try discriminate.
  - symmetry. apply vadd_zeros_l, vecmat_length, H2.
  - rewrite IH by (auto; lia). symmetry. apply vadd_assoc.
Qed.

Lemma vecmat_col (w v : vector) :
  vecmat 1 w (map (fun c => [c]) v) = [dot w v].
Proof.
  revert v; induction w as [|a w IH]; intros [|b v]; simpl; auto.
  rewrite IH. reflexivity.
Qed.

Lemma dot_opp_r (w v : vector) : dot w (map Ropp v) = - dot w v.
Proof.
  revert v; induction w as [|a w IH]; intros [|b v]; simpl; try lra.
  rewrite IH. lra.
Qed.

End Arrays.

(** * The network built by the constructor *)

Lemma half_double (r : nat) : ((r + r) / 2 = r)%nat.
Proof. 
  replace (r + r)%nat with (r * 2)%nat by lia. apply Nat.div_mul. discriminate.
Qed.

Lemma even_double (n : nat) : Nat.even n = true -> (n = n / 2 + n / 2)%nat.
Proof.
  intros H. apply Nat.even_spec in H. destruct H as [k ->].
  replace (2 * k)%nat with (k + k)%nat by lia. now rewrite half_double.
Qed.

Lemma firstn_exact {A : Type} (n : nat) (l1 l2 : list A) :
  length l1 = n -> firstn n (l1 ++ l2) = l1.
Proof.
  intros <-. rewrite <- (Nat.add_0_r (length l1)), firstn_app_2.
  simpl. apply app_nil_r.
Qed.

Lemma skipn_exact {A : Type} (n : nat) (l1 l2 : list A) :
  length l1 = n -> skipn n (l1 ++ l2) = l2.
Proof.
  intros <-. rewrite skipn_app, skipn_all, Nat.sub_diag. reflexivity.
Qed.

Lemma stretch_exact {A : Type} (n : nat) (src : list A) :
  length src = n -> stretch n src = src.
Proof. destruct src as [|a [|b src]]; simpl; intros <-; reflexivity. Qed.

Lemma broadcast_exact (r c : nat) (A : matrix) :
  has_shape r c A -> broadcast_to r c A = Ok A.
Proof.
  intros [Hr Hc]. unfold broadcast_to.
  assert (fits r A = true) as ->
    by (unfold fits; rewrite Hr, Nat.eqb_refl; reflexivity).
  assert (forallb (fits c) A = true) as ->.
  { apply forallb_forall. intros row Hin. rewrite Forall_forall in Hc.
    unfold fits. rewrite (Hc row Hin), Nat.eqb_refl. reflexivity. }
  simpl.
  rewrite (stretch_exact r A Hr). f_equal.
  clear Hr. induction Hc as [|row A Hrow _ IH]; simpl; auto.
  rewrite (stretch_exact c row Hrow). f_equal. exact IH.
Qed.

Lemma paste_top (r r' c k : nat) (A : matrix) :
  has_shape r c A ->
  paste (np_zeros (r + r') (c + k)) 0 0 A
  = map (fun a => a ++ repeat 0 k) A ++ np_zeros r' (c + k).
Proof.
  intros [Hr Hc]. unfold paste, np_zeros. simpl firstn. simpl skipn.
  rewrite Hr, repeat_app, firstn_exact, skipn_exact by apply repeat_length.
  simpl. f_equal.
  rewrite <- Hr at 1. rewrite zipWith_repeat_l.
  clear Hr. induction Hc as [|row A Hrow _ IH]; simpl; auto.
  f_equal; auto. unfold paste_row. simpl.
  rewrite Hrow, repeat_app, skipn_exact by apply repeat_length. reflexivity.
Qed.

Lemma paste_bottom (r r' c k : nat) (A : matrix) (top : matrix) :
  has_shape r c A -> length top = r' ->
  paste (top ++ np_zeros r (k + c)) r' k A
  = top ++ map (fun a => repeat 0 k ++ a) A.
Proof.
  intros [Hr Hc] Ht. unfold paste, np_zeros.
  rewrite firstn_exact by assumption. f_equal.
  rewrite Hr, skipn_exact by assumption.
  rewrite skipn_all2 by (rewrite length_app, repeat_length; lia).
  rewrite app_nil_r.
  rewrite firstn_all2 by (rewrite repeat_length; lia).
  rewrite <- Hr at 1. rewrite zipWith_repeat_l.
  clear Hr Ht. induction Hc as [|row A Hrow _ IH]; simpl; auto.
  f_equal; auto. unfold paste_row.
  rewrite Hrow, skipn_all2 by (rewrite repeat_length; lia).
  rewrite repeat_app, firstn_exact by apply repeat_length.
  now rewrite app_nil_r.
Qed.

Lemma block_layer (r c : nat) (A : matrix) :
  has_shape r c A ->
  (W' <- setitem (np_zeros (r + r) (c + c)) 0 r 0 c A ;;
   setitem W' r (r + r) c (c + c) A) = Ok (block_diag2 c A).
Proof.
  intros H. unfold setitem.
  rewrite !Nat.sub_0_r, (broadcast_exact r c A H). simpl.
  replace (r + r - r)%nat with r by lia. replace (c + c - c)%nat with c by lia.
  rewrite (broadcast_exact r c A H). simpl.
  rewrite paste_top by assumption.
  rewrite paste_bottom; auto.
  rewrite length_map. apply H.
Qed.

Lemma column_shape (w : vector) :
  has_shape (length w) 1 (map (fun x : R => [x]) w).
Proof.
  split; [now rewrite length_map|]. apply Forall_forall.
  intros row Hin. apply in_map_iff in Hin. now destruct Hin as [x [<- _]].
Qed.

Lemma col_layer (c : nat) (w : vector) :
  length w = c ->
  (W' <- setitem_col0 (np_zeros (c + c) 1) 0 c w ;;
   setitem_col0 W' c (c + c) (map Ropp w)) = Ok (antisym_col w).
Proof.
  intros Hw.
  pose proof (column_shape w) as Hs.
  pose proof (column_shape (map Ropp w)) as Hs'.
  rewrite length_map in Hs'. rewrite Hw in Hs, Hs'.
  unfold setitem_col0. rewrite Nat.sub_0_r.
  assert (fits c w = true) as ->
    by (unfold fits; rewrite Hw, Nat.eqb_refl; reflexivity).
  simpl. replace (c + c - c)%nat with c by lia.
  assert (fits c (map Ropp w) = true) as ->
    by (unfold fits; rewrite length_map, Hw, Nat.eqb_refl; reflexivity).
  rewrite (stretch_exact c w Hw).
  rewrite (stretch_exact c (map Ropp w)) by (now rewrite length_map).
  f_equal.
  change (np_zeros (c + c) 1) with (np_zeros (c + c) (1 + 0)).
  rewrite (paste_top c c 1 0 _ Hs).
  change (np_zeros c (1 + 0)) with (np_zeros c (0 + 1)).
  rewrite (paste_bottom c c 1 0 _ _ Hs') by (now rewrite !length_map).
  unfold antisym_col. rewrite map_app, !map_map. f_equal.
Qed.

Section Init.
Variable rt : Runtime.

Lemma randn1_length (n : nat) (g : np_state rt) :
  length (fst (randn1 rt n g)) = n.
Proof.
  revert g; induction n as [|n IH]; intros g; simpl; auto.
  destruct (np_normal rt g) as [z g1]. specialize (IH g1).
  destruct (randn1 rt n g1) as [zs g2]. simpl in *. congruence.
Qed.

Lemma randn2_shape (r c : nat) (g : np_state rt) :
  has_shape r c (fst (randn2 rt r c g)).
Proof.
  revert g; induction r as [|r IH]; intros g; simpl.
  - split; auto.
  - pose proof (randn1_length c g) as H1.
    destruct (randn1 rt c g) as [row g1]. specialize (IH g1).
    destruct (randn2 rt r c g1) as [rows g2]. simpl in *.
    destruct IH as [IH1 IH2]. split; simpl; auto.
Qed.

Lemma mscale_shape (a : R) (r c : nat) (A : matrix) :
  has_shape r c A -> has_shape r c (mscale a A).
Proof.
  intros [Hr Hc]. split; unfold mscale.
  - now rewrite length_map.
  - apply Forall_map. eapply Forall_impl; [|exact Hc].
    intros row Hrow. simpl. now rewrite vscale_length.
Qed.

Lemma mapM_ok {A B : Type} (f : A -> result B) (h : A -> B) (l : list A) :
  (forall a, In a l -> f a = Ok (h a)) -> mapM f l = Ok (map h l).
Proof.
  induction l as [|a l IH]; intros H; simpl; auto.
  rewrite (H a) by (now left). simpl. rewrite IH; auto.
  intros b Hb. apply H. now right.
Qed.

(** the weights of a network built for a valid configuration *)
Lemma NeuralNetwork_init_valid (d L m : nat) (seed : Z) (g : np_state rt) :
  valid_config d L m -> (0 <= seed < 2 ^ 32)%Z ->
  exists (w1 wmid : matrix) (wL : vector) (g' : np_state rt)
         (nn : NeuralNetwork),
    NeuralNetwork_init rt d L m seed g = Ok (nn, g')
    /\ has_shape (d / 2) (m / 2) w1
    /\ has_shape (m / 2) (m / 2) wmid
    /\ length wL = (m / 2)%nat
    /\ nn_d nn = d /\ nn_m nn = m /\ nn_L nn = L
    /\ nn_W nn = block_diag2 (m / 2) w1
                 :: repeat (block_diag2 (m / 2) wmid) (L - 2)
                 ++ [antisym_col wL]
    /\ nn_W0 nn = nn_W nn
    /\ nn_grad nn = map zeros_like (nn_W nn).
Proof.
  intros (Hd & Hde & Hm & Hme & HL) Hseed.
  pose proof (even_double d Hde) as Ed. pose proof (even_double m Hme) as Em.
  revert Ed Em. generalize (d / 2)%nat as r, (m / 2)%nat as c.
  intros r c -> ->. clear Hde Hme.
  unfold NeuralNetwork_init. rewrite !half_double.
  destruct (Z.ltb_spec seed 0) as [?|_]; [lia|].
  destruct (Z.leb_spec (2 ^ 32) seed) as [?|_]; [lia|]. cbn [orb].
  destruct (Nat.eqb_spec (c + c) 0) as [E|_]; [lia|].
  pose proof (randn2_shape r c (np_random_seed rt seed g)) as S1.
  destruct (randn2 rt r c (np_random_seed rt seed g)) as [r1 g1].
  pose proof (randn2_shape c c g1) as S2.
  destruct (randn2 rt c c g1) as [r2 g2].
  pose proof (randn1_length c g2) as S3.
  destruct (randn1 rt c g2) as [r3 g3].
  simpl in S1, S2, S3.
  set (w1 := mscale (sqrt (4 / INR (c + c))) r1).
  set (wmid := mscale (sqrt (4 / INR (c + c))) r2).
  set (wL := vscale (sqrt (2 / INR (c + c))) r3).
  assert (H1 : has_shape r c w1) by now apply mscale_shape.
  assert (H2 : has_shape c c wmid) by now apply mscale_shape.
  assert (H3 : length wL = c) by (unfold wL; now rewrite vscale_length).
  destruct L as [|[|k]]; try lia.
  set (build := build_layer (r + r) (S (S k)) (c + c) w1 wmid wL).
  assert (E1 : build 1%nat = Ok (block_diag2 c w1)).
  { unfold build, build_layer, layer1. simpl Nat.eqb.
    rewrite !half_double. now apply block_layer. }
  assert (EL : build (S (S k)) = Ok (antisym_col wL)).
  { unfold build, build_layer. simpl Nat.eqb. rewrite Nat.eqb_refl.
    unfold layerL. rewrite !half_double. now apply col_layer. }
  assert (Emid : forall i, (2 <= i < 2 + k)%nat ->
                 build i = Ok (block_diag2 c wmid)).
  { intros i Hi. unfold build, build_layer.
    destruct (Nat.eqb_spec i 1); [lia|].
    destruct (Nat.eqb_spec i (S (S k))); [lia|].
    unfold layer_mid. rewrite !half_double. now apply block_layer. }
  assert (HW : mapM build (seq 1 (S (S k)))
               = Ok (block_diag2 c w1
                     :: repeat (block_diag2 c wmid) k ++ [antisym_col wL])).
  { change (seq 1 (S (S k))) with (1%nat :: seq 2 (S k)).
    rewrite seq_S. cbn [mapM Nat.add]. rewrite E1. simpl bind.
    assert (Happ : forall l, (forall i, In i l -> (2 <= i < 2 + k)%nat) ->
              mapM build (l ++ [S (S k)])
              = Ok (map (fun _ => block_diag2 c wmid) l ++ [antisym_col wL])).
    { induction l as [|i l IH]; intros Hl.
      - cbn [app mapM map]. rewrite EL. reflexivity.
      - cbn [app mapM map]. rewrite Emid by (apply Hl; now left).
        simpl bind. rewrite IH; auto. intros j Hj. apply Hl. now right. }
    rewrite Happ.
    - simpl bind. rewrite map_const, length_seq. reflexivity.
    - intros i Hi. apply in_seq in Hi. lia. }
  rewrite HW. simpl bind.
  eexists w1, wmid, wL, g3, _. split; [reflexivity|].
  simpl. replace (k - 0)%nat with k by lia.
  repeat split; auto; apply H1 || apply H2.
Qed.

End Init.

Section Forward.

Lemma dot_app (u1 u2 v1 v2 : vector) :
  length u1 = length v1 ->
  dot (u1 ++ u2) (v1 ++ v2) = dot u1 v1 + dot u2 v2.
Proof.
  revert v1; induction u1 as [|a u1 IH]; intros [|b v1] H; simpl in *;
    try discriminate; try lra.
  rewrite IH by lia. lra.
Qed.

Lemma layers_cons (W : matrix) (rest : list matrix) (x : matrix) :
  rest <> [] ->
  layers (W :: rest) x = layers rest (map (map relu) (matmul x W)).
Proof. intros H. destruct rest; [now elim H | reflexivity]. Qed.

Lemma ncols_block_diag2 (r c : nat) (A : matrix) :
  has_shape r c A -> (0 < r)%nat -> ncols (block_diag2 c A) = (c + c)%nat.
Proof.
  intros [Hr Hc] Hpos. destruct A as [|a A]; simpl in *; [lia|].
  inversion Hc; subst. unfold ncols. simpl.
  now rewrite length_app, repeat_length.
Qed.

Lemma vecmat_block_diag2 (r c : nat) (A : matrix) (u : vector) :
  has_shape r c A -> length u = r ->
  vecmat (c + c) (u ++ u) (block_diag2 c A) = vecmat c u A ++ vecmat c u A.
Proof.
  intros [Hr Hc] Hu. unfold block_diag2.
  rewrite vecmat_app.
  - rewrite vecmat_pad_right, vecmat_pad_left by assumption.
    unfold vadd. rewrite zipWith_app
      by (rewrite vecmat_length, repeat_length; auto).
    f_equal.
    + apply vadd_zeros_r, vecmat_length, Hc.
    + apply vadd_zeros_l, vecmat_length, Hc.
  - rewrite length_map. exact (eq_trans Hu (eq_sym Hr)).
  - apply Forall_map. eapply Forall_impl; [|exact Hc].
    intros a Ha. simpl in *. rewrite length_app, repeat_length. lia.
Qed.

Lemma matmul_block_diag2 (r c : nat) (A : matrix) (u : vector) :
  has_shape r c A -> (0 < r)%nat -> length u = r ->
  matmul [u ++ u] (block_diag2 c A) = [vecmat c u A ++ vecmat c u A].
Proof.
  intros H Hpos Hu. unfold matmul. simpl.
  rewrite (ncols_block_diag2 r c A H Hpos).
  now rewrite (vecmat_block_diag2 r c A u H Hu).
Qed.

Lemma matmul_antisym_col (w u : vector) :
  length u = length w -> (0 < length w)%nat ->
  matmul [u ++ u] (antisym_col w) = [[0]].
Proof.
  intros Hu Hpos. unfold matmul, antisym_col. simpl.
  assert (ncols (map (fun c : R => [c]) (w ++ map Ropp w)) = 1%nat) as ->
    by (destruct w; simpl in *; [lia | reflexivity]).
  rewrite vecmat_col, dot_app, dot_opp_r by assumption.
  do 2 f_equal. lra.
Qed.

(** A row with two equal halves keeps two equal halves through the middle
    layers, and the last layer subtracts one half from the other. *)
Lemma layers_tail_mirrored (c k : nat) (wmid : matrix) (wL u : vector) :
  has_shape c c wmid -> length wL = c -> (0 < c)%nat -> length u = c ->
  layers (repeat (block_diag2 c wmid) k ++ [antisym_col wL]) [u ++ u]
  = [[0]].
Proof.
  intros Hmid HL Hpos. revert u. induction k as [|k IH]; intros u Hu.
  - simpl. apply matmul_antisym_col; lia.
  - cbn [repeat app]. rewrite layers_cons by (now destruct (repeat _ k)).
    rewrite (matmul_block_diag2 c c wmid u Hmid Hpos Hu).
    cbn [map]. rewrite map_app. apply IH.
    rewrite length_map. apply vecmat_length, Hmid.
Qed.

Lemma mirrored_split (x : vector) (r : nat) :
  length x = (r + r)%nat -> mirrored x ->
  exists u, x = u ++ u /\ length u = r.
Proof.
  unfold mirrored. intros Hx Hm. rewrite Hx, half_double in Hm.
  exists (firstn r x). split.
  - rewrite Hm at 2. symmetry. apply firstn_skipn.
  - rewrite length_firstn. lia.
Qed.

End Forward.

Section InitialFunction.
Variable rt : Runtime.

(** C1, as the code has it: at the parameters built by the constructor, the
    network maps to 0 every context whose two halves are equal. *)
Theorem forward_initial_mirrored :
  forall (d L m : nat) (seed : Z) (g : np_state rt) (x : vector),
    valid_config d L m -> (0 <= seed < 2 ^ 32)%Z ->
    length x = d -> mirrored x ->
    exists nn g',
      NeuralNetwork_init rt d L m seed g = Ok (nn, g')
      /\ forward nn (Rank1 x) = Ok [[0]].
Proof.
  intros d L m seed g x Hv Hseed Hx Hmir.
  destruct (NeuralNetwork_init_valid rt d L m seed g Hv Hseed)
    as (w1 & wmid & wL & g' & nn & Hinit & H1 & H2 & H3 & Hd & Hm & _ & HW & _).
  exists nn, g'. split; [exact Hinit|].
  destruct Hv as (Hdpos & Hde & Hmpos & Hme & HL).
  pose proof (even_double d Hde) as Ed. pose proof (even_double m Hme) as Em.
  destruct (mirrored_split x (d / 2)) as (u & -> & Hu); [congruence | assumption |].
  unfold forward. rewrite Hd, HW. cbn [forallb].
  rewrite Hx, Nat.eqb_refl. cbn [andb]. f_equal.
  rewrite layers_cons by (now destruct (repeat _ _)).
  rewrite (matmul_block_diag2 (d / 2) (m / 2) w1 u H1) by (assumption || lia).
  cbn [map]. rewrite map_app.
  rewrite layers_tail_mirrored; auto; try lia.
  - simpl. do 2 f_equal. lra.
  - rewrite length_map. apply vecmat_length, H1.
Qed.

End InitialFunction.

Lemma forward_initial_mirrored_witness :
  exists nn g',
    NeuralNetwork_init unit_runtime 4 3 2 12345 O = Ok (nn, g')
    /\ forward nn (Rank1 [1; -2; 1; -2]) = Ok [[0]].
Proof.
  apply (forward_initial_mirrored unit_runtime 4 3 2 12345 O [1; -2; 1; -2]).
  - unfold valid_config. simpl. repeat split; lia.
  - lia.
  - reflexivity.
  - reflexivity.
Defined.

(** C1 as stated fails: with the deviates of [unit_runtime], d = m = L = 2
    and x = (1, 0) the initial network returns a positive number. *)
Lemma forward_initial_not_zero :
  ~ (forall (rt : Runtime) (d L m : nat) (seed : Z) (g : np_state rt)
            (x : vector) nn g',
        valid_config d L m -> length x = d ->
        NeuralNetwork_init rt d L m seed g = Ok (nn, g') ->
        forward nn (Rank1 x) = Ok [[0]]).
Proof.
  intros H.
  assert (E : exists nn g',
             NeuralNetwork_init unit_runtime 2 2 2 12345 O = Ok (nn, g')
             /\ forward nn (Rank1 [1; 0]) <> Ok [[0]]).
  { eexists _, _. split.
    - lazy -[Rmult Rplus Rinv Rdiv sqrt INR Ropp IZR]. reflexivity.
    - lazy -[Rmult Rplus Rinv Rdiv sqrt INR Ropp IZR Rmax].
      intros E. injection E as E.
      assert (Ha : 0 < sqrt (4 / INR 2)) by (apply sqrt_lt_R0; simpl; lra).
      assert (Hc : 0 < sqrt (2 / INR 2)) by (apply sqrt_lt_R0; simpl; lra).
      assert (Hs : 0 < sqrt (INR 2)) by (apply sqrt_lt_R0; simpl; lra).
      unfold Rmax in E.
      repeat match type of E with
             | context [Rle_dec ?a ?b] => destruct (Rle_dec a b)
             end; cbn [INR] in *;
        set (a := sqrt (4 / (1 + 1))) in *;
        set (c := sqrt (2 / (1 + 1))) in *;
        set (s := sqrt (1 + 1)) in *; clearbody a c s;
        assert (P : 0 < s * (a * c))
          by (apply Rmult_lt_0_compat; [|apply Rmult_lt_0_compat]; assumption);
        nra. }
  destruct E as (nn & g' & Hinit & Hne).
  apply Hne. apply (H unit_runtime 2%nat 2%nat 2%nat 12345%Z O [1; 0] nn g').
  - unfold valid_config. simpl. repeat split; lia.
  - reflexivity.
  - exact Hinit.
Qed.

(** * The confidence matrix *)

Section Confidence.




Lemma add_scalar_shape (r c : nat) (s : R) (A : matrix) :
  has_shape r c A -> has_shape r c (add_scalar s A).
Proof.
  intros [Hr Hc]. split; unfold add_scalar.
  - now rewrite length_map.
  - apply Forall_map. eapply Forall_impl; [|exact Hc].
    intros row Hrow. simpl in *. now rewrite length_map.
Qed.


Lemma entry_out_of_range (n : nat) (A : matrix) (i j : nat) :
  has_shape n n A -> (i <? n)%nat && (j <? n)%nat = false -> entry A i j = 0.
Proof.
  intros [Hr Hc] H. unfold entry.
  destruct (Nat.ltb_spec i n) as [Hi|Hi]; simpl in H.
  - destruct (Nat.ltb_spec j n) as [Hj|Hj]; [discriminate|].
    apply nth_overflow. rewrite Forall_forall in Hc.
    rewrite (Hc (nth i A [])) by (apply nth_In; lia). lia.
  - rewrite (nth_overflow A) by lia. now destruct j.
Qed.



Lemma dot_self_nonneg (v : vector) : 0 <= dot v v.
Proof. induction v as [|a v IH]; simpl; nra. Qed.




Lemma np_eye_shape (n : nat) : has_shape n n (np_eye n).
Proof.
  induction n as [|n [IH1 IH2]]; split; simpl; auto.
  - now rewrite length_map, IH1.
  - constructor; [simpl; now rewrite repeat_length|].
    apply Forall_map. eapply Forall_impl; [|exact IH2].
    intros row Hrow. simpl in *. lia.
Qed.

Lemma dot_zeros_l (n : nat) (x : vector) : dot (repeat 0 n) x = 0.
Proof.
  revert x; induction n as [|n IH]; intros [|a x]; simpl; try lra.
  rewrite IH. lra.
Qed.


Lemma nth_map_in {A B : Type} (f : A -> B) (l : list A) (i : nat)
  (dA : A) (dB : B) :
  (i < length l)%nat -> nth i (map f l) dB = f (nth i l dA).
Proof.
  intros Hi. rewrite (nth_indep _ dB (f dA)) by (now rewrite length_map).
  apply map_nth.
Qed.




Lemma fold_sum_le (f g : nat -> R) (l : list nat) :
  (forall i, f i <= g i) ->
  fold_right Rplus 0 (map f l) <= fold_right Rplus 0 (map g l).
Proof.
  intros H. induction l as [|i l IH]; simpl; [lra|].
  specialize (H i). lra.
Qed.

(** adding a non-negative scalar to every entry does not lower the trace *)
Lemma trace_add_scalar (s : R) (A : matrix) :
  0 <= s -> trace A <= trace (add_scalar s A).
Proof.
  intros Hs. unfold trace, add_scalar. rewrite length_map.
  apply fold_sum_le. intros i.
  destruct (Nat.lt_ge_cases i (length A)) as [Hi|Hi].
  - rewrite (nth_map_in _ _ _ []) by assumption.
    set (row := nth i A []).
    destruct (Nat.lt_ge_cases i (length row)) as [Hj|Hj].
    + rewrite (nth_map_in _ _ _ 0) by assumption. lra.
    + rewrite (nth_overflow (map _ row)) by (now rewrite length_map).
      rewrite (nth_overflow row) by assumption. lra.
  - rewrite (nth_overflow (map _ A)) by (now rewrite length_map).
    rewrite (nth_overflow A) by assumption. destruct i; simpl; lra.
Qed.

End Confidence.

(** * What the methods leave unchanged *)

Section Frames.

Context {S : Type}.

Lemma keeps_ret {A X : Type} (f : S -> X) (a : A) : keeps f (ret a).
Proof. intros s. reflexivity. Qed.

Lemma keeps_lift {A X : Type} (f : S -> X) (r : result A) :
  keeps f (lift r).
Proof. intros s. reflexivity. Qed.

Lemma keeps_gets {A X : Type} (f : S -> X) (h : S -> A) : keeps f (gets h).
Proof. intros s. reflexivity. Qed.

Lemma keeps_read {A X : Type} (f : S -> X) (h : S -> result A) :
  keeps f (fun s => (h s, s)).
Proof. intros s. reflexivity. Qed.

Lemma keeps_modify {X : Type} (f : S -> X) (h : S -> S) :
  (forall s, f (h s) = f s) -> keeps f (modify h).
Proof. intros H s. apply H. Qed.

Lemma keeps_bind {A B X : Type} (f : S -> X) (c : Eff S A)
  (k : A -> Eff S B) :
  keeps f c -> (forall a, keeps f (k a)) -> keeps f (bindE c k).
Proof.
  intros Hc Hk s. unfold bindE. specialize (Hc s).
  destruct (c s) as [[a|e] s']; simpl in *.
  - now rewrite Hk.
  - exact Hc.
Qed.

Lemma keeps_mapE {A B X : Type} (f : S -> X) (body : A -> Eff S B)
  (l : list A) :
  (forall a, keeps f (body a)) -> keeps f (mapE body l).
Proof.
  intros H. induction l as [|a l IH]; simpl.
  - apply keeps_ret.
  - apply keeps_bind; [apply H|]. intros b.
    apply keeps_bind; [apply IH|]. intros bs. apply keeps_ret.
Qed.

Lemma keeps_forE {A X : Type} (f : S -> X) (l : list A)
  (body : A -> Eff S unit) :
  (forall a, keeps f (body a)) -> keeps f (forE l body).
Proof.
  intros H. induction l as [|a l IH]; simpl.
  - apply keeps_ret.
  - apply keeps_bind; [apply H|]. intros _. apply IH.
Qed.

Lemma keeps_iterE {X : Type} (f : S -> X) (n : nat) (c : Eff S unit) :
  keeps f c -> keeps f (iterE n c).
Proof.
  intros H. induction n as [|n IH]; simpl.
  - apply keeps_ret.
  - apply keeps_bind; [apply H|]. intros _. apply IH.
Qed.

End Frames.

Lemma keeps_on_self {rt : Runtime} {G A X : Type} (f : NeuralAgent rt -> X)
  (c : Eff (NeuralAgent rt) A) :
  keeps f c -> keeps (fun st : NeuralAgent rt * G => f (fst st)) (on_self c).
Proof.
  intros H [self g]. unfold on_self. specialize (H self).
  destruct (c self) as [r self']. exact H.
Qed.

Lemma on_self_generator {rt : Runtime} {G A : Type}
  (c : Eff (NeuralAgent rt) A) :
  keeps (fun st : NeuralAgent rt * G => snd st) (on_self c).
Proof.
  intros [self g]. unfold on_self. now destruct (c self).
Qed.

Ltac frame :=
  repeat first
    [ apply keeps_ret | apply keeps_lift | apply keeps_gets
    | apply keeps_read
    | apply keeps_modify; intro; reflexivity
    | apply keeps_mapE; intro
    | apply keeps_forE; intro
    | apply keeps_bind; [|intro]
    | match goal with
      | |- keeps _ (match ?x with _ => _ end) => destruct x
      end ].

Section AgentFrames.

Variable rt : Runtime.

Lemma normalvariate_keeps (mu sigma : R) :
  keeps untouched_by_Action (normalvariate rt mu sigma).
Proof.
  intros s. unfold normalvariate.
  now destruct (py_normal rt (random_generator s)).
Qed.

Lemma score_arm_keeps (U_inverse context_list : matrix) (arm : nat) :
  keeps untouched_by_Action (score_arm rt U_inverse context_list arm).
Proof.
  unfold score_arm. frame. apply normalvariate_keeps.
Qed.

Lemma Action_keeps (context_list : matrix) :
  keeps untouched_by_Action (Action rt context_list).
Proof.
  unfold Action, score_arms. frame. apply normalvariate_keeps.
Qed.

End AgentFrames.

Section UpdateFacts.

Variable rt : Runtime.

Lemma train_step_keeps (xs : matrix) (ys : vector) (batch_index : nat) :
  keeps untouched_by_training (train_step rt xs ys batch_index).
Proof.
  intros s. unfold train_step.
  match goal with |- _ (snd (?c s)) = _ => set (body := c) end.
  assert (H : keeps untouched_by_training body) by (unfold body; frame).
  apply H.
Qed.

Lemma epoch_keeps (jj : nat) :
  keeps (fun st => untouched_by_training (fst st)) (epoch rt jj).
Proof.
  intros [self g]. unfold epoch.
  destruct (np_shuffle rt (seq 0 (t self + 1)) g) as [history_index g'].
  match goal with |- _ (fst (snd (on_self ?c _))) = _ => set (body := c) end.
  assert (H : keeps untouched_by_training body).
  { unfold body. frame. apply train_step_keeps. }
  apply (keeps_on_self untouched_by_training body H (self, g')).
Qed.

Lemma retrain_keeps :
  keeps (fun st => untouched_by_training (fst st)) (retrain rt).
Proof.
  unfold retrain. apply keeps_bind.
  - apply (keeps_on_self untouched_by_training). frame.
  - intros _. apply keeps_bind.
    + apply (keeps_on_self untouched_by_training). frame.
    + intros n. apply keeps_forE. intros jj. apply epoch_keeps.
Qed.

(** what [Update] does once the reward is recorded and [U] updated *)
Lemma train_and_advance_keeps :
  keeps (fun st : NeuralAgent rt * np_state rt =>
           (settings (fst st), U (fst st), history_reward (fst st)))
    (train_and_advance rt).
Proof.
  unfold train_and_advance. apply keeps_bind.
  - apply (keeps_on_self (fun s => (settings s, U s, history_reward s))).
    frame.
  - intros r. apply keeps_bind.
    + destruct (r =? 0)%Z; [|apply keeps_ret].
      intros st. pose proof (retrain_keeps st) as H.
      unfold untouched_by_training in H. congruence.
    + intros _. unfold advance.
      apply (keeps_on_self (fun s => (settings s, U s, history_reward s))).
      frame.
Qed.

Lemma Update_unfold (reward : R) (self : NeuralAgent rt) (g : np_state rt) :
  Update rt reward (self, g)
  = match observe rt reward self with
    | (Ok _, self1) => train_and_advance rt (self1, g)
    | (Raise e, self1) => (Raise e, (self1, g))
    end.
Proof.
  unfold Update, bindE, on_self.
  now destruct (observe rt reward self) as [[[]|e] self1].
Qed.


(** the outcome of the first half of [Update] *)
Lemma observe_outcome (reward : R) (self : NeuralAgent rt) :
  settings (snd (observe rt reward self)) = settings self
  /\ t (snd (observe rt reward self)) = t self
  /\ match fst (observe rt reward self) with
     | Ok _ =>
         exists hr context g nn',
           setitem1 (history_reward self) (t self) reward = Ok hr
           /\ getitem (history_context self) (t self) = Ok context
           /\ GetGrad (mynn self) context = Ok (g, nn')
           /\ snd (observe rt reward self)
              = set_U (set_mynn (set_history_reward self hr) nn')
                      (add_scalar (dot g g / INR (m self)) (U self))
     | Raise _ => U (snd (observe rt reward self)) = U self
     end.
Proof.
  unfold observe, bindE, modify, gets, lift.
  destruct (setitem1 (history_reward self) (t self) reward) as [hr|e] eqn:E1;
    cbn; [|repeat split].
  destruct (getitem (history_context self) (t self)) as [context|e] eqn:E2;
    cbn; [|repeat split].
  destruct (GetGrad (mynn self) context) as [[g nn']|e] eqn:E3; cbn;
    [|repeat split].
  unfold dot_vv. rewrite Nat.eqb_refl. cbn.
  repeat split. exists hr, context, g, nn'. repeat split; assumption.
Qed.

(** [Update] leaves [U] alone or adds one non-negative scalar to each of
    its entries *)
Lemma Update_U (reward : R) (st : NeuralAgent rt * np_state rt) :
  (0 < m (fst st))%nat ->
  settings (fst (snd (Update rt reward st))) = settings (fst st)
  /\ exists s, 0 <= s
       /\ (U (fst (snd (Update rt reward st))) = U (fst st)
           \/ U (fst (snd (Update rt reward st)))
              = add_scalar s (U (fst st))).
Proof.
  intros Hm. destruct st as [self g]. cbn [fst] in *.
  rewrite Update_unfold.
  pose proof (observe_outcome reward self) as (Hset & _ & Hobs).
  destruct (observe rt reward self) as [[[]|e] self1]; cbn [fst snd] in *.
  - pose proof (train_and_advance_keeps (self1, g)) as Ht.
    pose proof (f_equal (fun x => fst (fst x)) Ht) as H1.
    pose proof (f_equal (fun x => snd (fst x)) Ht) as H2.
    cbn [fst snd] in H1, H2. clear Ht.
    split; [now rewrite H1|].
    destruct Hobs as (hr & context & gr & nn' & _ & _ & _ & Hs1).
    exists (dot gr gr / INR (m self)). split.
    + apply Rmult_le_pos; [apply dot_self_nonneg|].
      left. apply Rinv_0_lt_compat, lt_0_INR, Hm.
    + right. rewrite H2, Hs1. reflexivity.
  - split; [exact Hset|]. exists 0. split; [lra|]. now left.
Qed.

End UpdateFacts.

(** * Invariants of the confidence matrix *)

Section Invariants.

Variable rt : Runtime.

Lemma settings_m (a b : NeuralAgent rt) :
  settings a = settings b -> m a = m b.
Proof. unfold settings. intros H. now injection H. Qed.

Lemma NeuralNetwork_init_width (d L m : nat) (seed : Z) (g g' : np_state rt)
  (nn : NeuralNetwork) :
  NeuralNetwork_init rt d L m seed g = Ok (nn, g') -> (0 < m)%nat.
Proof.
  unfold NeuralNetwork_init. destruct (_ || _); [discriminate|].
  destruct (Nat.eqb_spec m 0); [discriminate|].
  intros _. lia.
Qed.

(** the agent the constructor returns *)
Lemma NeuralAgent_init_Ok (K T d L m : nat) (nu lam eta : R) (freq : Z)
  (bs : option Z) (seed : Z) (g : np_state rt)
  (st0 : NeuralAgent rt * np_state rt) :
  NeuralAgent_init rt K T d L m nu lam eta freq bs seed g = Ok st0 ->
  (0 < m)%nat
  /\ settings (fst st0)
     = (K, T, L, m, d,
        (Z.of_nat m + Z.of_nat m * Z.of_nat d
         + Z.of_nat m * Z.of_nat m * (Z.of_nat L - 2))%Z,
        nu, lam, eta, freq, bs)
  /\ U (fst st0) = mscale lam (np_eye (Z.to_nat (p (fst st0))))
  /\ t (fst st0) = O
  /\ history_reward (fst st0) = repeat 0 T
  /\ history_context (fst st0) = np_zeros T d
  /\ NeuralNetwork_init rt d L m 12345 g = Ok (mynn (fst st0), snd st0).
Proof.
  unfold NeuralAgent_init.
  destruct (NeuralNetwork_init rt d L m 12345 g) as [[nn g1]|e] eqn:E;
    cbn [bind]; [|discriminate].
  destruct (length (nn_W nn) =? 0)%nat; [discriminate|].
  destruct (_ <? 0)%Z; [discriminate|].
  intros H. inversion H; subst; clear H. cbn.
  repeat split. eapply NeuralNetwork_init_width, E.
Qed.


Lemma run_app (calls1 calls2 : list call)
  (st : NeuralAgent rt * np_state rt) :
  run rt (calls1 ++ calls2) st = run rt calls2 (run rt calls1 st).
Proof. unfold run. apply fold_left_app. Qed.


Lemma step_keeps_width (c : call) (st : NeuralAgent rt * np_state rt) :
  (0 < m (fst st))%nat -> (0 < m (fst (step rt c st)))%nat.
Proof.
  intros Hm. destruct c as [context_list|reward]; cbn [step fst].
  - pose proof (Action_keeps rt context_list (fst st)) as H.
    pose proof (f_equal (fun x => fst (fst (fst x))) H) as H1.
    cbn [fst snd] in H1. now rewrite (settings_m _ _ H1).
  - destruct (Update_U rt reward st Hm) as (Hs & _).
    now rewrite (settings_m _ _ Hs).
Qed.

Lemma run_keeps_width (calls : list call)
  (st : NeuralAgent rt * np_state rt) :
  (0 < m (fst st))%nat -> (0 < m (fst (run rt calls st)))%nat.
Proof.
  revert st. induction calls as [|c calls IH]; intros st Hm; [assumption|].
  cbn [run fold_left]. now apply IH, step_keeps_width.
Qed.

Lemma NeuralAgent_init_width (K0 T0 d0 L0 m0 : nat) (nu0 lam eta0 : R)
  (freq : Z) (bs : option Z) (seed : Z) (g : np_state rt)
  (st0 : NeuralAgent rt * np_state rt) :
  NeuralAgent_init rt K0 T0 d0 L0 m0 nu0 lam eta0 freq bs seed g = Ok st0 ->
  (0 < m (fst st0))%nat.
Proof.
  intros Hinit.
  destruct (NeuralAgent_init_Ok _ _ _ _ _ _ _ _ _ _ _ _ _ Hinit)
    as (Hm & Hs & _).
  pose proof (f_equal (fun x => snd (fst (fst (fst (fst (fst (fst (fst x))))))))
                      Hs) as E.
  cbn in E. now rewrite E.
Qed.


(** C9: no [Update] lowers the trace of [U]. *)
Theorem trace_U_nondecreasing :
  forall (K T d L m : nat) (nu lam eta : R) (freq : Z) (bs : option Z)
         (seed : Z) (g : np_state rt) (st0 : NeuralAgent rt * np_state rt)
         (calls : list call) (reward : R),
    NeuralAgent_init rt K T d L m nu lam eta freq bs seed g = Ok st0 ->
    trace (U (fst (run rt calls st0)))
    <= trace (U (fst (run rt (calls ++ [CallUpdate reward]) st0))).
Proof.
  intros K T d L m nu lam eta freq bs seed g st0 calls reward Hinit.
  pose proof (run_keeps_width calls st0 (NeuralAgent_init_width _ _ _ _ _ _ _
                _ _ _ _ _ _ Hinit)) as Hmr.
  rewrite run_app. cbn [run fold_left step].
  destruct (Update_U rt reward _ Hmr) as (_ & s & Hpos & [->| ->]).
  - lra.
  - now apply trace_add_scalar.
Qed.

End Invariants.


Lemma trace_U_nondecreasing_witness :
  exists st0,
    NeuralAgent_init unit_runtime 2 5 2 2 2 (1 / 10) 1 (1 / 100) 2
                     (Some 1%Z) 12345 O = Ok st0
    /\ trace (U (fst (run unit_runtime [CallAction [[1; 0]; [0; 1]]] st0)))
       <= trace (U (fst (run unit_runtime
                           ([CallAction [[1; 0]; [0; 1]]] ++ [CallUpdate 1])
                           st0))).
Proof.
  eexists. split.
  - lazy -[Rmult Rplus Rinv Rdiv sqrt INR Ropp IZR]. reflexivity.
  - eapply (trace_U_nondecreasing unit_runtime 2 5 2 2 2 (1 / 10) 1
              (1 / 100) 2 (Some 1%Z) 12345 O).
    lazy -[Rmult Rplus Rinv Rdiv sqrt INR Ropp IZR]. reflexivity.
Defined.

(** * The shape of what [forward] returns *)

Section ForwardShape.

Lemma layers_last (Ws : list matrix) (WL x : matrix) :
  exists h, length h = length x /\ layers (Ws ++ [WL]) x = matmul h WL.
Proof.
  revert x. induction Ws as [|W Ws IH]; intros x.
  - exists x. split; reflexivity.
  - cbn [app]. rewrite layers_cons by (now destruct Ws).
    destruct (IH (map (map relu) (matmul x W))) as (h & Hh & ->).
    exists h. split; [|reflexivity].
    rewrite Hh. unfold matmul. now rewrite !length_map.
Qed.

(** a network whose last weight matrix is a column returns one number per
    row of the batch *)
Lemma forward_one_row (nn : NeuralNetwork) (Ws : list matrix) (WL : matrix)
  (r : nat) (x : vector) :
  nn_W nn = Ws ++ [WL] -> has_shape r 1 WL -> (0 < r)%nat ->
  length x = nn_d nn ->
  exists y, forward nn (Rank2 [x]) = Ok [[y]].
Proof.
  intros HW [Hr Hc] Hpos Hx. unfold forward. cbn [forallb].
  rewrite Hx, Nat.eqb_refl. cbn [andb]. rewrite HW.
  destruct (layers_last Ws WL [x]) as (h & Hh & ->).
  destruct h as [|row [|row' h]]; try discriminate.
  unfold matmul. cbn [map].
  assert (Hn : ncols WL = 1%nat).
  { destruct WL as [|w WL]; [simpl in Hr; lia|].
    inversion Hc; subst. assumption. }
  rewrite Hn.
  pose proof (vecmat_length 1 row WL Hc) as Hlen.
  destruct (vecmat 1 row WL) as [|y [|y' v]]; try discriminate.
  eexists. reflexivity.
Qed.

End ForwardShape.

Section ForwardRank1.

Variable rt : Runtime.

(** C10: [forward] takes a vector of length [d] as the batch of that one
    row, and on a constructed network the result has shape (1, 1). *)
Theorem forward_promotes_vector :
  forall (d L m : nat) (seed : Z) (g g' : np_state rt) (nn : NeuralNetwork)
         (x : vector),
    valid_config d L m ->
    NeuralNetwork_init rt d L m seed g = Ok (nn, g') ->
    length x = d ->
    forward nn (Rank1 x) = forward nn (Rank2 [x])
    /\ exists y, forward nn (Rank1 x) = Ok [[y]].
Proof.
  intros d L m seed g g' nn x Hv Hinit Hx. split; [reflexivity|].
  assert (Hseed : (0 <= seed < 2 ^ 32)%Z).
  { unfold NeuralNetwork_init in Hinit.
    destruct (Z.ltb_spec seed 0); [discriminate|].
    destruct (Z.leb_spec (2 ^ 32) seed); [discriminate|]. lia. }
  destruct (NeuralNetwork_init_valid rt d L m seed g Hv Hseed)
    as (w1 & wmid & wL & g1 & nn1 & Hinit1 & _ & _ & H3 & Hd & _ & _ & HW & _).
  rewrite Hinit in Hinit1. inversion Hinit1; subst nn1 g1; clear Hinit1.
  change (forward nn (Rank1 x)) with (forward nn (Rank2 [x])).
  destruct Hv as (_ & _ & Hm & Hme & _).
  apply (forward_one_row nn
           (block_diag2 (m / 2) w1 :: repeat (block_diag2 (m / 2) wmid) (L - 2))
           (antisym_col wL) (m / 2 + m / 2)).
  - exact HW.
  - unfold antisym_col.
    pose proof (column_shape (wL ++ map Ropp wL)) as Hs.
    rewrite length_app, length_map, H3 in Hs. exact Hs.
  - pose proof (even_double m Hme). lia.
  - congruence.
Qed.

End ForwardRank1.

Lemma forward_promotes_vector_witness :
  exists nn g',
    NeuralNetwork_init unit_runtime 2 2 2 12345 O = Ok (nn, g')
    /\ forward nn (Rank1 [1; 0]) = forward nn (Rank2 [[1; 0]])
    /\ exists y, forward nn (Rank1 [1; 0]) = Ok [[y]].
Proof.
  eexists _, _. split.
  - lazy -[Rmult Rplus Rinv Rdiv sqrt INR Ropp IZR]. reflexivity.
  - eapply (forward_promotes_vector unit_runtime 2 2 2 12345 O).
    + unfold valid_config. simpl. repeat split; lia.
    + lazy -[Rmult Rplus Rinv Rdiv sqrt INR Ropp IZR]. reflexivity.
    + reflexivity.
Defined.

(** * Construction *)

Section Construction.

Variable rt : Runtime.


End Construction.



(** * Action selection *)

Section Argmax.

Lemma argmax_from_first_max (l pre : vector) (best : R) (besti : nat) :
  (besti < length pre)%nat ->
  nth besti pre 0 = best ->
  (forall j, (j < length pre)%nat -> nth j pre 0 <= best) ->
  (forall j, (j < besti)%nat -> nth j pre 0 < best) ->
  first_max (pre ++ l) (argmax_from best besti (length pre) l).
Proof.
  revert pre best besti.
  induction l as [|x l IH]; intros pre best besti Hi Hb Hle Hlt.
  - rewrite app_nil_r. cbn [argmax_from]. unfold first_max.
    rewrite Hb. auto.
  - cbn [argmax_from].
    replace (pre ++ x :: l) with ((pre ++ [x]) ++ l)
      by (now rewrite <- app_assoc).
    replace (S (length pre)) with (length (pre ++ [x]))
      by (rewrite length_app; simpl; lia).
    destruct (Rlt_dec best x) as [Hx|Hx].
    + apply IH.
      * rewrite length_app. simpl. lia.
      * rewrite app_nth2, Nat.sub_diag by lia. reflexivity.
      * intros j Hj. rewrite length_app in Hj. simpl in Hj.
        destruct (Nat.lt_ge_cases j (length pre)) as [Hj'|Hj'].
        -- rewrite app_nth1 by assumption. specialize (Hle j Hj'). lra.
        -- replace j with (length pre) by lia.
           rewrite app_nth2, Nat.sub_diag by lia. simpl. lra.
      * intros j Hj. rewrite app_nth1 by assumption.
        specialize (Hle j Hj). lra.
    + apply IH.
      * rewrite length_app. simpl. lia.
      * rewrite app_nth1 by assumption. exact Hb.
      * intros j Hj. rewrite length_app in Hj. simpl in Hj.
        destruct (Nat.lt_ge_cases j (length pre)) as [Hj'|Hj'].
        -- rewrite app_nth1 by assumption. now apply Hle.
        -- replace j with (length pre) by lia.
           rewrite app_nth2, Nat.sub_diag by lia. simpl. lra.
      * intros j Hj. rewrite app_nth1 by lia. now apply Hlt.
Qed.

(** [np.argmax] returns the lowest index at which the array takes its
    maximum *)
Lemma np_argmax_first_max (l : vector) (ind : nat) :
  np_argmax l = Ok ind -> first_max l ind.
Proof.
  destruct l as [|x l]; [discriminate|]. cbn [np_argmax].
  intros H. injection H as <-.
  apply (argmax_from_first_max l [x] x 0).
  - simpl. lia.
  - reflexivity.
  - intros [|j] Hj; simpl in *; [lra | lia].
  - intros j Hj. lia.
Qed.

Lemma mapE_length {S A B : Type} (body : A -> Eff S B) (l : list A)
  (s s' : S) (bs : list B) :
  mapE body l s = (Ok bs, s') -> length bs = length l.
Proof.
  revert s s' bs. induction l as [|a l IH]; intros s s' bs H.
  - cbn in H. now inversion H.
  - cbn [mapE] in H. unfold bindE at 1 in H.
    destruct (body a s) as [[b|e] s1]; [|discriminate].
    unfold bindE at 1 in H.
    destruct (mapE body l s1) as [[bs'|e] s2] eqn:E; [|discriminate].
    cbn in H. inversion H; subst. simpl. f_equal. eapply IH, E.
Qed.

End Argmax.

Section ActionChoice.

Variable rt : Runtime.

Lemma score_arms_length (context_list : matrix) (self self1 : NeuralAgent rt)
  (scores : list (R * R)) :
  score_arms rt context_list self = (Ok scores, self1) ->
  length scores = K self.
Proof.
  unfold score_arms, bindE, gets, lift.
  destruct (linalg_inv rt (U self)) as [U_inverse|e]; [|discriminate].
  intros H. apply mapE_length in H. now rewrite length_seq in H.
Qed.

(** when [Action] returns, its result is the first maximum of the sampled
    rewards *)
Lemma Action_Ok_first_max :
  forall (context_list : matrix) (self self' : NeuralAgent rt) (ind : nat),
    Action rt context_list self = (Ok ind, self') ->
    exists scores self1,
      score_arms rt context_list self = (Ok scores, self1)
      /\ length scores = K self
      /\ first_max (map snd scores) ind
      /\ (ind < K self)%nat.
Proof.
  intros context_list self self' ind H.
  unfold Action in H. unfold bindE at 1 in H.
  destruct (score_arms rt context_list self) as [[scores|e] self1] eqn:E;
    [|discriminate].
  pose proof (score_arms_length _ _ _ _ E) as Hlen.
  exists scores, self1. split; [reflexivity|]. split; [exact Hlen|].
  unfold bindE at 1 in H. unfold lift at 1 in H.
  destruct (np_argmax (map snd scores)) as [a|e] eqn:Ea; [|discriminate].
  assert (a = ind) as ->.
  { unfold bindE, modify, lift, ret in H.
    destruct (setitem1 (history_action self1) (t self1) (INR a));
      [|discriminate].
    cbn in H. destruct (getitem context_list a) as [row|]; [|discriminate].
    cbn in H.
    destruct (setitem1 (history_context self1) (t self1) row);
      [|discriminate].
    cbn in H. destruct (getitem (map fst scores) a) as [mu|];
      [|discriminate].
    cbn in H. destruct (setitem1 (predicted_reward self1) (t self1) mu);
      [|discriminate].
    cbn in H. now inversion H. }
  pose proof (np_argmax_first_max _ _ Ea) as Hfm.
  split; [exact Hfm|].
  destruct Hfm as [Hlt _]. rewrite length_map in Hlt. lia.
Qed.

End ActionChoice.

(** * Determinism *)

Section Determinism.

Variable rt : Runtime.


End Determinism.

(** * Retraining *)

Section Retraining.

Variable rt : Runtime.

Lemma forE_iterE {S A : Type} (l : list A) (body : A -> Eff S unit)
  (c : Eff S unit) :
  (forall a, body a = c) -> forE l body = iterE (length l) c.
Proof.
  intros H. induction l as [|a l IH]; simpl; [reflexivity|].
  now rewrite H, IH.
Qed.

(** the loop [for jj in range(np.minimum(self.t, 100))], after the reset,
    is the rule of the specification *)
Lemma retrain_is_spec (st1 : NeuralAgent rt * np_state rt) :
  retrain rt st1 = retrain_spec rt st1.
Proof.
  destruct st1 as [self1 g]. unfold retrain, retrain_spec, reset_weights.
  unfold bindE, on_self, modify, gets. cbn [fst snd].
  rewrite (forE_iterE _ _ (epoch rt 0)) by reflexivity.
  now rewrite length_seq.
Qed.

Lemma train_and_advance_unfold (self1 : NeuralAgent rt) (g : np_state rt) :
  train_and_advance rt (self1, g)
  = if (frequency self1 =? 0)%Z
    then (Raise ZeroDivisionError, (self1, g))
    else if ((Z.of_nat (t self1) + 1) mod frequency self1 =? 0)%Z
         then bindE (retrain rt) (fun _ => advance rt) (self1, g)
         else advance rt (self1, g).
Proof.
  unfold train_and_advance, bindE, on_self, pymod.
  destruct (frequency self1 =? 0)%Z; [reflexivity|].
  destruct (_ =? 0)%Z; reflexivity.
Qed.


End Retraining.


(** * What [Update] does to the agent *)

Ltac eval_agent :=
  lazy -[Rmult Rplus Rminus Rinv Rdiv sqrt INR Ropp IZR Rmax Rlt_dec pow].

Section UpdateOutcome.

Variable rt : Runtime.

(** when [Update] returns, [U] has received the inner product of the
    gradient with itself, divided by [m], on every entry *)
Lemma Update_adds_inner_product (reward : R) (self : NeuralAgent rt)
  (g : np_state rt) (st' : NeuralAgent rt * np_state rt) :
  Update rt reward (self, g) = (Ok tt, st') ->
  exists context grad_parameter nn',
    getitem (history_context self) (t self) = Ok context
    /\ GetGrad (mynn self) context = Ok (grad_parameter, nn')
    /\ U (fst st')
       = add_scalar (dot grad_parameter grad_parameter / INR (m self))
                    (U self).
Proof.
  rewrite Update_unfold. intros H.
  pose proof (observe_outcome rt reward self) as (_ & _ & Hout).
  destruct (observe rt reward self) as [[[]|e] self1]; [|discriminate].
  cbn [fst snd] in Hout.
  destruct Hout as (hr & context & gr & nn' & _ & Hc & HG & Hs1).
  exists context, gr, nn'. repeat split; try assumption.
  pose proof (train_and_advance_keeps rt (self1, g)) as Hk.
  rewrite H in Hk. cbn [fst snd] in Hk.
  pose proof (f_equal (fun x => snd (fst x)) Hk) as HU. cbn [fst snd] in HU.
  rewrite HU, Hs1. reflexivity.
Qed.

Lemma setitem1_Ok {A : Type} (l : list A) (i : nat) (a : A) :
  (i < length l)%nat ->
  exists l', setitem1 l i a = Ok l'
             /\ length l' = length l /\ nth_error l' i = Some a
             /\ forall j, j <> i -> nth_error l' j = nth_error l j.
Proof.
  intros Hi. unfold setitem1. destruct (Nat.ltb_spec i (length l)); [|lia].
  eexists. split; [reflexivity|]. split; [|split].
  - rewrite length_app. cbn [length]. rewrite length_firstn, length_skipn.
    lia.
  - rewrite nth_error_app2 by (rewrite length_firstn; lia).
    rewrite length_firstn. replace (i - Nat.min i (length l))%nat with O by lia.
    reflexivity.
  - intros j Hj. destruct (Nat.lt_ge_cases j i) as [Hlt|Hge].
    + rewrite nth_error_app1 by (rewrite length_firstn; lia).
      rewrite nth_error_firstn.
      destruct (Nat.ltb_spec j i); [reflexivity | lia].
    + rewrite nth_error_app2 by (rewrite length_firstn; lia).
      rewrite length_firstn. replace (Nat.min i (length l)) with i by lia.
      destruct (j - i)%nat as [|k] eqn:E; [lia|]. cbn [nth_error].
      rewrite nth_error_skipn. f_equal. lia.
Qed.

(** [Update] outside a retraining round, on an agent with room in its
    history and a network that ends in a column *)
Lemma Update_returns (reward : R) (self : NeuralAgent rt) (g : np_state rt)
  (Ws : list matrix) (WL : matrix) (r : nat) (context : vector) :
  (t self < length (history_reward self))%nat ->
  nth_error (history_context self) (t self) = Some context ->
  length context = nn_d (mynn self) ->
  nn_W (mynn self) = Ws ++ [WL] -> has_shape r 1 WL -> (0 < r)%nat ->
  frequency self <> 0%Z ->
  ((Z.of_nat (t self) + 1) mod frequency self <> 0)%Z ->
  exists hr acc U',
    Update rt reward (self, g)
    = (Ok tt,
       (set_t (set_U (set_mynn (set_history_reward self hr)
                               (set_grad (mynn self) acc)) U')
              (t self + 1), g))
    /\ length hr = length (history_reward self)
    /\ nth_error hr (t self) = Some reward
    /\ forall j, j <> t self ->
                 nth_error hr j = nth_error (history_reward self) j.
Proof.
  intros Ht Hctx Hlen HW HWL Hr Hf Hmod.
  destruct (setitem1_Ok (history_reward self) (t self) reward Ht)
    as (hr & Ehr & Hlhr & Hnth & Hother).
  destruct (forward_one_row (mynn self) Ws WL r context HW HWL Hr Hlen)
    as (y & Hy).
  assert (HG : exists acc,
             GetGrad (mynn self) context
             = Ok (flatten acc, set_grad (mynn self) acc)).
  { unfold GetGrad. rewrite Hy. cbn [bind].
    destruct (backward _ _ _) as [gs dx]. eexists. reflexivity. }
  destruct HG as (acc & HG).
  assert (Hobs : observe rt reward self
                 = (Ok tt,
                    set_U (set_mynn (set_history_reward self hr)
                                    (set_grad (mynn self) acc))
                          (add_scalar (dot (flatten acc) (flatten acc)
                                       / INR (m self)) (U self)))).
  { unfold observe, bindE, modify, gets, lift. rewrite Ehr. cbn.
    unfold getitem. rewrite Hctx. cbn. rewrite HG. cbn.
    unfold dot_vv. rewrite Nat.eqb_refl. reflexivity. }
  exists hr, acc, (add_scalar (dot (flatten acc) (flatten acc) / INR (m self))
                     (U self)).
  split; [|repeat split; assumption].
  rewrite Update_unfold, Hobs, train_and_advance_unfold. cbn.
  destruct (Z.eqb_spec (frequency self) 0); [contradiction|].
  destruct (Z.eqb_spec ((Z.of_nat (t self) + 1) mod frequency self) 0);
    [contradiction|].
  reflexivity.
Qed.

(** C4, as the code has it: [Update] does not look at what was called
    before it.  Two calls in a row, outside retraining rounds and with two
    free slots in the history, both return: the second one records its
    reward in the next slot and the round counter has advanced twice. *)
Theorem Update_twice_returns :
  forall (reward1 reward2 : R) (self : NeuralAgent rt) (g : np_state rt)
         (Ws : list matrix) (WL : matrix) (r : nat),
    (t self + 1 < length (history_reward self))%nat ->
    (t self + 1 < length (history_context self))%nat ->
    Forall (fun row => length row = nn_d (mynn self))
           (history_context self) ->
    nn_W (mynn self) = Ws ++ [WL] -> has_shape r 1 WL -> (0 < r)%nat ->
    frequency self <> 0%Z ->
    ((Z.of_nat (t self) + 1) mod frequency self <> 0)%Z ->
    ((Z.of_nat (t self) + 2) mod frequency self <> 0)%Z ->
    exists st1 st2,
      Update rt reward1 (self, g) = (Ok tt, st1)
      /\ Update rt reward2 st1 = (Ok tt, st2)
      /\ t (fst st2) = (t self + 2)%nat
      /\ nth_error (history_reward (fst st2)) (t self) = Some reward1
      /\ nth_error (history_reward (fst st2)) (t self + 1) = Some reward2.
Proof.
  intros reward1 reward2 self g Ws WL r Ht Htc Hw HW HWL Hr Hf Hm1 Hm2.
  assert (Hrow : forall i, (i < length (history_context self))%nat ->
            exists context, nth_error (history_context self) i = Some context
                            /\ length context = nn_d (mynn self)).
  { intros i Hi.
    destruct (nth_error (history_context self) i) as [context|] eqn:E.
    - exists context. split; [reflexivity|].
      rewrite Forall_forall in Hw. eapply Hw, nth_error_In, E.
    - apply nth_error_None in E. lia. }
  destruct (Hrow (t self)) as (c1 & Hc1 & Hl1); [lia|].
  destruct (Hrow (t self + 1)%nat) as (c2 & Hc2 & Hl2); [lia|].
  destruct (Update_returns reward1 self g Ws WL r c1)
    as (hr1 & acc1 & U1 & E1 & Hlen1 & Hn1 & Ho1); auto; try lia.
  set (self1 := set_t (set_U (set_mynn (set_history_reward self hr1)
                                       (set_grad (mynn self) acc1)) U1)
                      (t self + 1)) in *.
  destruct (Update_returns reward2 self1 g Ws WL r c2)
    as (hr2 & acc2 & U2 & E2 & Hlen2 & Hn2 & Ho2); cbn; auto; try lia.
  { replace (Z.of_nat (t self + 1) + 1)%Z with (Z.of_nat (t self) + 2)%Z
      by lia. exact Hm2. }
  eexists _, _. split; [exact E1|]. split; [exact E2|].
  cbn in *. split; [lia|]. split; [|exact Hn2].
  (* the second call writes slot t + 1 only *)
  rewrite Ho2 by lia. exact Hn1.
Qed.

End UpdateOutcome.

Lemma Update_twice_returns_witness :
  exists st0,
    NeuralAgent_init unit_runtime 1 5 2 2 2 (1 / 10) 1 (1 / 100) 50
                     (Some 1%Z) 12345 O = Ok st0
    /\ exists st1 st2,
         Update unit_runtime 1 (fst st0, snd st0) = (Ok tt, st1)
         /\ Update unit_runtime 0 st1 = (Ok tt, st2)
         /\ t (fst st2) = (t (fst st0) + 2)%nat
         /\ nth_error (history_reward (fst st2)) (t (fst st0)) = Some 1
         /\ nth_error (history_reward (fst st2)) (t (fst st0) + 1) = Some 0.
Proof.
  eexists. split; [eval_agent; reflexivity|].
  apply (Update_twice_returns unit_runtime 1 0 _ _
           [[[sqrt (4 / INR 2) * 1; 0]; [0; sqrt (4 / INR 2) * 1]]]
           [[sqrt (2 / INR 2) * 1]; [- (sqrt (2 / INR 2) * 1)]] 2).
  - cbn. lia.
  - cbn. lia.
  - cbn. repeat constructor.
  - reflexivity.
  - split; [reflexivity | repeat constructor].
  - lia.
  - cbn. discriminate.
  - cbn. discriminate.
  - cbn. discriminate.
Defined.

(** C4 as stated fails: after a round of [Action] and [Update], a second
    [Update] returns and the round counter has moved. *)
Lemma second_Update_returns :
  exists st0 ind self1 st2 st3,
    NeuralAgent_init unit_runtime 1 5 2 2 2 (1 / 10) 1 (1 / 100) 50
                     (Some 1%Z) 12345 O = Ok st0
    /\ Action unit_runtime [[1; 1]] (fst st0) = (Ok ind, self1)
    /\ Update unit_runtime 1 (self1, snd st0) = (Ok tt, st2)
    /\ Update unit_runtime 0 st2 = (Ok tt, st3)
    /\ t (fst st2) = 1%nat /\ t (fst st3) = 2%nat
    /\ nth_error (history_reward (fst st3)) 1 = Some 0.
Proof.
  eexists _, _, _, _, _.
  split; [eval_agent; reflexivity|].
  split; [eval_agent; reflexivity|].
  split; [eval_agent; reflexivity|].
  split; [eval_agent; reflexivity|].
  repeat split.
Qed.


(** * The inverse of the evaluation runtime *)

Section GaussJordan.

Lemma eliminate_shape (r c k : nat) (M : matrix) :
  has_shape r c M -> (k < r)%nat -> has_shape r c (eliminate M k).
Proof.
  intros [Hr Hc] Hk. unfold eliminate.
  assert (Hp : length (pivot_row k M) = c).
  { unfold pivot_row. rewrite vscale_length.
    rewrite Forall_forall in Hc. apply Hc, nth_In. lia. }
  split.
  - rewrite length_map, length_combine, length_seq. lia.
  - apply Forall_map, Forall_forall. intros [i row] Hin. cbn [fst snd].
    apply in_combine_r in Hin. rewrite Forall_forall in Hc.
    specialize (Hc row Hin).
    destruct (i =? k)%nat; [exact Hp|].
    rewrite zipWith_length, vscale_length. lia.
Qed.

Lemma fold_eliminate_shape (r c : nat) (ks : list nat) :
  forall M, (forall k, In k ks -> (k < r)%nat) -> has_shape r c M ->
            has_shape r c (fold_left eliminate ks M).
Proof.
  induction ks as [|k ks IH]; intros M Hks HM; [exact HM|].
  cbn [fold_left]. apply IH.
  - intros k' Hk'. apply Hks. now right.
  - apply eliminate_shape; [exact HM|]. apply Hks. now left.
Qed.

Lemma augment_shape (n : nat) (A B : matrix) :
  has_shape n n A -> has_shape n n B ->
  has_shape n (n + n) (zipWith (@app R) A B).
Proof.
  intros [HrA HcA] [HrB HcB]. split.
  - rewrite zipWith_length. lia.
  - clear HrA HrB. revert B HcB.
    induction HcA as [|a A Ha _ IH]; intros B HcB; [constructor|].
    destruct HcB as [|b B Hb HcB]; [constructor|]. cbn [zipWith].
    constructor; [|now apply IH]. rewrite length_app. lia.
Qed.

(** the inverse has the shape of the matrix *)
Lemma gauss_jordan_shape (n : nat) (A : matrix) :
  has_shape n n A -> has_shape n n (gauss_jordan A).
Proof.
  intros HA. unfold gauss_jordan. destruct HA as [Hn Hc].
  rewrite Hn.
  assert (HM : has_shape n (n + n)
                 (fold_left eliminate (seq 0 n)
                    (zipWith (@app R) A (np_eye n)))).
  { apply fold_eliminate_shape.
    - intros k Hk. apply in_seq in Hk. lia.
    - apply augment_shape; [now split | apply np_eye_shape]. }
  destruct HM as [Hr Hw]. split.
  - now rewrite length_map.
  - apply Forall_map. eapply Forall_impl; [|exact Hw].
    intros row Hrow. simpl in *. rewrite length_skipn. lia.
Qed.

End GaussJordan.

(** the elimination on a matrix that is not diagonal *)
Example gauss_jordan_2x2 :
  gauss_jordan [[2; 1]; [1; 2]] = [[2 / 3; - (1 / 3)]; [- (1 / 3); 2 / 3]].
Proof.
  lazy -[Rmult Rplus Rminus Rinv Rdiv Ropp IZR].
  repeat (f_equal; try field).
Qed.

(** * Shapes *)

Section Shapes.

Lemma has_shape_ncols (r c : nat) (W : matrix) :
  has_shape r c W -> (0 < r)%nat -> ncols W = c.
Proof.
  intros [Hr Hc] Hpos. destruct W as [|w W]; [simpl in Hr; lia|].
  inversion Hc; subst. reflexivity.
Qed.

Lemma matmul_width (din c : nat) (x W : matrix) :
  has_shape din c W -> (0 < din)%nat -> width c (matmul x W).
Proof.
  intros HW Hpos. unfold width, matmul. apply Forall_map, Forall_forall.
  intros row _. rewrite (has_shape_ncols din c W HW Hpos).
  apply vecmat_length, HW.
Qed.

Lemma map_map_width {c : nat} (f : R -> R) (A : matrix) :
  width c A -> width c (map (map f) A).
Proof.
  intros H. apply Forall_map. eapply Forall_impl; [|exact H].
  intros row Hrow. simpl in *. now rewrite length_map.
Qed.

Lemma hadamard_width (c : nat) (A B : matrix) :
  width c A -> width c B -> width c (zipWith (zipWith Rmult) A B).
Proof.
  intros HA. revert B. induction HA as [|a A Ha _ IH]; intros B HB.
  - constructor.
  - destruct HB as [|b B Hb HB]; [constructor|]. cbn [zipWith].
    constructor; [|now apply IH].
    rewrite zipWith_length. lia.
Qed.

Lemma matmul_nt_width (D W : matrix) : width (length W) (matmul_nt D W).
Proof.
  unfold width, matmul_nt. apply Forall_map, Forall_forall.
  intros row _. apply length_map.
Qed.

Lemma madd_shape (r c : nat) (A B : matrix) :
  has_shape r c A -> has_shape r c B -> has_shape r c (madd A B).
Proof.
  intros [HrA HcA] [HrB HcB]. split.
  - unfold madd. rewrite zipWith_length. lia.
  - clear HrA HrB. revert B HcB.
    induction HcA as [|a A Ha _ IH]; intros B HcB; [constructor|].
    destruct HcB as [|b B Hb HcB]; [constructor|]. cbn [madd zipWith].
    constructor; [|now apply IH].
    unfold vadd. rewrite zipWith_length. lia.
Qed.

Lemma zeros_like_shape (r c : nat) (W : matrix) :
  has_shape r c W -> has_shape r c (zeros_like W).
Proof.
  intros [Hr Hc]. split; unfold zeros_like.
  - now rewrite length_map.
  - now apply (map_map_width (fun _ => 0)).
Qed.

Lemma outer_shape (u v : vector) : has_shape (length u) (length v) (outer u v).
Proof.
  split; unfold outer.
  - apply length_map.
  - apply Forall_map, Forall_forall. intros a _. apply vscale_length.
Qed.

Lemma matmul_tn_shape (din c : nat) (W X D : matrix) :
  has_shape din c W -> width din X -> width c D ->
  has_shape din c (matmul_tn W X D).
Proof.
  intros HW HX. revert D. induction HX as [|x X Hx _ IH]; intros D HD.
  - cbn. now apply zeros_like_shape.
  - destruct HD as [|d D Hd HD]; [now apply zeros_like_shape|].
    cbn [matmul_tn]. apply madd_shape; [|now apply IH].
    rewrite <- Hx, <- Hd. apply outer_shape.
Qed.

Lemma chained_cons (din dout : nat) (W : matrix) (rest : list matrix) :
  chained din (W :: rest) dout ->
  (0 < din)%nat /\ exists c, has_shape din c W /\ chained c rest dout.
Proof. exact (fun H => H). Qed.

Lemma like_of_shape (r c : nat) (W G : matrix) :
  has_shape r c W -> (0 < r)%nat -> has_shape r c G -> like W G.
Proof.
  intros HW Hpos HG. unfold like.
  rewrite (has_shape_ncols r c W HW Hpos). destruct HW as [-> _]. exact HG.
Qed.

(** the gradients have the shapes of the weights *)
Lemma backward_like (Ws : list matrix) :
  forall (din dout : nat) (x dY : matrix),
    chained din Ws dout -> width din x -> width dout dY ->
    Forall2 like Ws (fst (backward Ws x dY))
    /\ width din (snd (backward Ws x dY)).
Proof.
  induction Ws as [|W rest IH]; intros din dout x dY Hch Hx HdY.
  - cbn in *. subst. split; [constructor | assumption].
  - destruct Hch as (Hpos & c & HW & Hrest).
    destruct rest as [|W' rest'].
    + cbn in Hrest. subst c. cbn [backward fst snd]. split.
      * constructor; [|constructor].
        apply (like_of_shape din dout); auto.
        now apply matmul_tn_shape.
      * destruct HW as [<- _]. apply matmul_nt_width.
    + set (rest := W' :: rest') in *.
      change (backward (W :: rest) x dY)
        with (let z := matmul x W in
              let (gs, dh) := backward rest (map (map relu) z) dY in
              let dz := zipWith (zipWith Rmult) dh (map (map relu') z) in
              (matmul_tn W x dz :: gs, matmul_nt dz W)).
      cbv zeta.
      assert (Hz : width c (matmul x W)) by now apply (matmul_width din).
      destruct (IH c dout (map (map relu) (matmul x W)) dY Hrest
                  (map_map_width relu _ Hz) HdY) as [Hgs Hdh].
      destruct (backward rest (map (map relu) (matmul x W)) dY) as [gs dh].
      cbn [fst snd] in *. split.
      * constructor; [|exact Hgs].
        apply (like_of_shape din c); auto.
        apply matmul_tn_shape; auto.
        apply hadamard_width; auto. now apply map_map_width.
      * destruct HW as [<- _]. apply matmul_nt_width.
Qed.

Lemma layers_width (Ws : list matrix) :
  forall (din dout : nat) (x : matrix),
    chained din Ws dout -> width din x ->
    width dout (layers Ws x) /\ length (layers Ws x) = length x.
Proof.
  induction Ws as [|W rest IH]; intros din dout x Hch Hx.
  - cbn in *. subst. auto.
  - destruct Hch as (Hpos & c & HW & Hrest).
    assert (Hz : width c (matmul x W)) by now apply (matmul_width din).
    destruct rest as [|W' rest'].
    + cbn in Hrest. subst c. cbn [layers]. split; [exact Hz|].
      unfold matmul. apply length_map.
    + rewrite layers_cons by discriminate.
      destruct (IH c dout (map (map relu) (matmul x W)) Hrest
                  (map_map_width relu _ Hz)) as [H1 H2].
      split; [exact H1|]. rewrite H2. unfold matmul.
      now rewrite !length_map.
Qed.

Lemma concat_length_shape (r c : nat) (G : matrix) :
  has_shape r c G -> length (concat G) = (r * c)%nat.
Proof.
  intros [Hr Hc]. subst r. induction Hc as [|row G Hrow _ IH]; [reflexivity|].
  cbn. rewrite length_app, IH, Hrow. reflexivity.
Qed.

Lemma flatten_length (Ws Gs : list matrix) :
  Forall2 like Ws Gs -> length (flatten Gs) = size_of Ws.
Proof.
  unfold flatten. induction 1 as [|W G Ws Gs HG _ IH]; [reflexivity|].
  cbn. rewrite length_app, IH.
  now rewrite (concat_length_shape _ _ G HG).
Qed.

Lemma accumulate_like (Ws G1 G2 : list matrix) :
  Forall2 like Ws G1 -> Forall2 like Ws G2 ->
  Forall2 like Ws (zipWith madd G1 G2).
Proof.
  intros H1. revert G2. induction H1 as [|W A Ws G1 HA _ IH]; intros G2 H2.
  - inversion H2; subst. constructor.
  - inversion H2 as [|W' B Ws' G2' HB H2']; subst. cbn [zipWith].
    constructor; [|now apply IH]. now apply madd_shape.
Qed.

End Shapes.

Section NetworkReturns.

Lemma forward_returns (nn : NeuralNetwork) (x : vector) :
  chained (nn_d nn) (nn_W nn) 1 -> length x = nn_d nn ->
  exists y, forward nn (Rank2 [x]) = Ok [[y]]
            /\ forward nn (Rank1 x) = Ok [[y]].
Proof.
  intros Hch Hx. unfold forward. cbn [forallb].
  rewrite Hx, Nat.eqb_refl. cbn [andb].
  destruct (layers_width (nn_W nn) (nn_d nn) 1 [x] Hch) as [Hw Hl].
  { constructor; [exact Hx | constructor]. }
  destruct (layers (nn_W nn) [x]) as [|row [|row' out]]; try discriminate.
  inversion Hw as [|? ? Hrow _]; subst.
  destruct row as [|y [|y' row]]; try discriminate.
  eexists. split; reflexivity.
Qed.

Lemma forward_Ok_length (nn : NeuralNetwork) (x : vector) (out : matrix) :
  forward nn (Rank2 [x]) = Ok out -> length x = nn_d nn.
Proof.
  unfold forward. cbn [forallb].
  destruct (Nat.eqb_spec (length x) (nn_d nn)); [auto | discriminate].
Qed.

Lemma set_grad_ok (nn : NeuralNetwork) (acc : list matrix) :
  net_ok nn -> Forall2 like (nn_W nn) acc -> net_ok (set_grad nn acc).
Proof. intros (H1 & H2 & _ & H4) H. repeat split; assumption. Qed.

(** [GetGrad] on a context of length [d] returns as many numbers as the
    network has parameters *)
Lemma GetGrad_returns (nn : NeuralNetwork) (x : vector) :
  net_ok nn -> length x = nn_d nn ->
  exists acc,
    GetGrad nn x = Ok (flatten acc, set_grad nn acc)
    /\ Forall2 like (nn_W nn) acc
    /\ length (flatten acc) = size_of (nn_W nn).
Proof.
  intros (Hch & Hne & Hg & _) Hx.
  destruct (forward_returns nn x Hch Hx) as (y & Hy & _).
  unfold GetGrad. rewrite Hy. cbn [bind onehot00 map zeros_like].
  destruct (backward_like (nn_W nn) (nn_d nn) 1 [x]
              (mscale (sqrt (INR (nn_m nn))) [[1]]) Hch) as [Hgs _].
  { constructor; [exact Hx | constructor]. }
  { constructor; [reflexivity | constructor]. }
  destruct (backward (nn_W nn) [x] _) as [gs dx]. cbn [fst] in Hgs.
  pose proof (accumulate_like _ _ _ Hg Hgs) as Hacc.
  eexists. split; [reflexivity|]. split; [exact Hacc|].
  now apply flatten_length.
Qed.

End NetworkReturns.

Section Returns.

Context {S : Type}.

(** a loop whose bodies return and keep [I] returns and keeps [I] *)
Lemma mapE_returns {A B : Type} (I : S -> Prop) (body : A -> Eff S B)
  (l : list A) :
  (forall a s, In a l -> I s ->
     exists b s', body a s = (Ok b, s') /\ I s') ->
  forall s, I s ->
    exists bs s', mapE body l s = (Ok bs, s') /\ I s'
                  /\ length bs = length l.
Proof.
  induction l as [|a l IH]; intros Hbody s Hs.
  - exists [], s. repeat split; assumption.
  - destruct (Hbody a s (or_introl eq_refl) Hs) as (b & s1 & E1 & H1).
    destruct (IH (fun a' s' Hin => Hbody a' s' (or_intror Hin)) s1 H1)
      as (bs & s2 & E2 & H2 & Hlen).
    exists (b :: bs), s2. cbn [mapE]. unfold bindE at 1. rewrite E1.
    unfold bindE at 1. rewrite E2. repeat split; [assumption|].
    simpl. now rewrite Hlen.
Qed.

End Returns.

(** * [Action] returns *)

Section ActionReturns.

Variable rt : Runtime.

Lemma score_arm_returns (U_inverse context_list : matrix) (arm n : nat)
  (self : NeuralAgent rt) (x : vector) :
  net_ok (mynn self) ->
  nth_error context_list (arm - 1) = Some x ->
  length x = nn_d (mynn self) ->
  size_of (nn_W (mynn self)) = n -> (0 < n)%nat ->
  has_shape n n U_inverse ->
  exists mu s acc g',
    score_arm rt U_inverse context_list arm self
    = (Ok (mu, s),
       set_random_generator (set_mynn self (set_grad (mynn self) acc)) g')
    /\ Forall2 like (nn_W (mynn self)) acc.
Proof.
  intros Hok Hnth Hx Hn Hpos HU.
  destruct (GetGrad_returns (mynn self) x Hok Hx) as (acc & HG & Hacc & Hlen).
  assert (Hok' : net_ok (set_grad (mynn self) acc)) by now apply set_grad_ok.
  destruct (forward_returns (set_grad (mynn self) acc) x) as (y & _ & Hy).
  { apply Hok'. }
  { exact Hx. }
  destruct (py_normal rt (random_generator self)) as [z g'] eqn:Ez.
  exists y, (y + z * sqrt (nu self ^ 2
                           * (lambda_ self
                              * dot (vecmat (ncols U_inverse) (flatten acc)
                                            U_inverse) (flatten acc)
                              / INR (m self)))), acc, g'.
  split; [|exact Hacc].
  unfold score_arm, bindE at 1, lift at 1, getitem. rewrite Hnth.
  unfold bindE at 1, gets at 1.
  unfold bindE at 1, lift at 1. rewrite HG.
  unfold bindE at 1, modify at 1.
  unfold bindE at 1, lift at 1, dot_vm.
  assert (E1 : (length (flatten acc) =? length U_inverse)%nat = true).
  { apply Nat.eqb_eq. destruct HU as [-> _]. congruence. }
  rewrite E1.
  unfold bindE at 1, lift at 1, dot_vv.
  assert (E2 : (length (vecmat (ncols U_inverse) (flatten acc) U_inverse)
                =? length (flatten acc))%nat = true).
  { apply Nat.eqb_eq. rewrite (has_shape_ncols n n U_inverse HU Hpos).
    rewrite vecmat_length by apply HU. congruence. }
  rewrite E2.
  unfold bindE at 1, gets at 1. unfold bindE at 1, gets at 1.
  unfold bindE at 1, lift at 1. cbn [mynn set_mynn]. rewrite Hy.
  unfold bindE at 1, gets at 1. unfold bindE at 1, normalvariate.
  cbn [random_generator set_mynn]. rewrite Ez. reflexivity.
Qed.

(** [Action] returns an arm when the agent has a free slot, the inverse of
    [U] is a [p] by [p] matrix and the [K] contexts have length [d] *)
Lemma Action_returns (context_list U_inverse : matrix) (n : nat)
  (self : NeuralAgent rt) :
  net_ok (mynn self) ->
  size_of (nn_W (mynn self)) = n -> (0 < n)%nat ->
  linalg_inv rt (U self) = Ok U_inverse -> has_shape n n U_inverse ->
  (0 < K self)%nat ->
  (forall k, (k < K self)%nat ->
     exists x, nth_error context_list k = Some x
               /\ length x = nn_d (mynn self)) ->
  (t self < length (history_action self))%nat ->
  (t self < length (history_context self))%nat ->
  (t self < length (predicted_reward self))%nat ->
  exists ind self', Action rt context_list self = (Ok ind, self').
Proof.
  intros Hok Hn Hpos Hinv HU HK Hctx Hta Htc Htp.
  set (J := fun s : NeuralAgent rt =>
              exists acc g',
                s = set_random_generator
                      (set_mynn self (set_grad (mynn self) acc)) g'
                /\ Forall2 like (nn_W (mynn self)) acc).
  assert (HJ0 : J self).
  { exists (nn_grad (mynn self)), (random_generator self). split.
    - destruct self as [? ? ? ? ? ? ? ? nn]. destruct nn. reflexivity.
    - apply Hok. }
  destruct (mapE_returns J (score_arm rt U_inverse context_list)
              (seq 1 (K self))) with (s := self)
    as (scores & self1 & Eloop & (acc & g' & -> & Hacc) & Hlen); auto.
  { intros arm s Hin (acc & g' & -> & Hacc). apply in_seq in Hin.
    destruct (Hctx (arm - 1)%nat) as (x & Hx & Hlx); [lia|].
    destruct (score_arm_returns U_inverse context_list arm n
                (set_random_generator
                   (set_mynn self (set_grad (mynn self) acc)) g') x)
      as (mu & sv & acc' & g'' & E & Hacc'); auto.
    - cbn. now apply set_grad_ok.
    - exists (mu, sv). eexists. split; [exact E|].
      exists acc', g''. split; [reflexivity | exact Hacc']. }
  rewrite length_seq in Hlen.
  destruct (np_argmax (map snd scores)) as [a|e] eqn:Ea.
  2:{ destruct scores; [simpl in Hlen; lia | discriminate]. }
  pose proof (np_argmax_first_max _ _ Ea) as [Ha _].
  rewrite length_map, Hlen in Ha.
  destruct (Hctx a Ha) as (row & Hrow & _).
  destruct (setitem1_Ok (history_action self) (t self) (INR a) Hta)
    as (ha & Eha & _).
  destruct (setitem1_Ok (history_context self) (t self) row Htc)
    as (hc & Ehc & _).
  destruct (nth_error (map fst scores) a) as [mu|] eqn:Emu.
  2:{ apply nth_error_None in Emu. rewrite length_map in Emu. lia. }
  destruct (setitem1_Ok (predicted_reward self) (t self) mu Htp)
    as (pr & Epr & _).
  eexists a, _.
  unfold Action, bindE at 1, score_arms.
  unfold bindE at 1, gets at 1. unfold bindE at 1, lift at 1. rewrite Hinv.
  unfold bindE at 1, gets at 1. rewrite Eloop.
  unfold bindE at 1, lift at 1. rewrite Ea.
  unfold bindE at 1. cbn [history_action t set_random_generator set_mynn].
  rewrite Eha. unfold bindE at 1, modify at 1.
  unfold bindE at 1, lift at 1, getitem. rewrite Hrow.
  unfold bindE at 1.
  cbn [history_context t set_random_generator set_mynn set_history_action].
  rewrite Ehc. unfold bindE at 1, modify at 1.
  unfold bindE at 1, lift at 1. rewrite Emu.
  unfold bindE at 1.
  cbn [predicted_reward t set_random_generator set_mynn set_history_action
       set_history_context].
  rewrite Epr. reflexivity.
Qed.

End ActionReturns.

Section WellFormedInit.

Variable rt : Runtime.

Lemma block_diag2_shape (r c : nat) (A : matrix) :
  has_shape r c A -> has_shape (r + r) (c + c) (block_diag2 c A).
Proof.
  intros [Hr Hc]. split; unfold block_diag2.
  - rewrite length_app, !length_map. lia.
  - apply Forall_app. split; apply Forall_map;
      (eapply Forall_impl; [|exact Hc]); intros row Hrow; simpl in *;
      rewrite length_app, repeat_length; lia.
Qed.

Lemma antisym_col_shape (c : nat) (w : vector) :
  length w = c -> has_shape (c + c) 1 (antisym_col w).
Proof.
  intros Hw. unfold antisym_col.
  pose proof (column_shape (w ++ map Ropp w)) as H.
  now rewrite length_app, length_map, Hw in H.
Qed.

Lemma chained_like_self (Ws : list matrix) :
  forall din dout, chained din Ws dout ->
    Forall2 like Ws Ws /\ Forall2 like Ws (map zeros_like Ws).
Proof.
  induction Ws as [|W Ws IH]; intros din dout Hch.
  - split; constructor.
  - destruct Hch as (Hpos & c & HW & Hrest).
    destruct (IH c dout Hrest) as [H1 H2].
    split; (constructor; [|assumption]).
    + now apply (like_of_shape din c).
    + apply (like_of_shape din c); auto. now apply zeros_like_shape.
Qed.

Lemma chained_middle (c k : nat) (B : matrix) (rest : list matrix)
  (dout : nat) :
  (0 < c)%nat -> has_shape c c B -> chained c rest dout ->
  chained c (repeat B k ++ rest) dout.
Proof.
  intros Hpos HB Hrest. induction k as [|k IH]; [exact Hrest|].
  cbn. split; [exact Hpos|]. exists c. split; assumption.
Qed.

Lemma size_of_app (Ws1 Ws2 : list matrix) :
  size_of (Ws1 ++ Ws2) = (size_of Ws1 + size_of Ws2)%nat.
Proof.
  induction Ws1 as [|W Ws1 IH]; [reflexivity|].
  unfold size_of in *. cbn [app fold_right]. rewrite IH. lia.
Qed.

Lemma size_of_repeat (B : matrix) (k : nat) :
  size_of (repeat B k) = (k * (length B * ncols B))%nat.
Proof.
  induction k as [|k IH]; [reflexivity|].
  unfold size_of in *. cbn [repeat fold_right]. rewrite IH. lia.
Qed.

Lemma size_of_cons (W : matrix) (Ws : list matrix) :
  size_of (W :: Ws) = (length W * ncols W + size_of Ws)%nat.
Proof. reflexivity. Qed.

Lemma size_of_shape (r c : nat) (W : matrix) (Ws : list matrix) :
  has_shape r c W -> (0 < r)%nat ->
  size_of (W :: Ws) = (r * c + size_of Ws)%nat.
Proof.
  intros HW Hpos. rewrite size_of_cons, (has_shape_ncols r c W HW Hpos).
  now destruct HW as [-> _].
Qed.

(** the constructor returns a well-formed agent *)
Lemma NeuralAgent_init_well_formed (K0 T0 d0 L0 m0 : nat)
  (nu0 lam eta0 : R) (freq : Z) (bs : option Z) (seed : Z)
  (g : np_state rt) (st0 : NeuralAgent rt * np_state rt) :
  valid_config d0 L0 m0 ->
  NeuralAgent_init rt K0 T0 d0 L0 m0 nu0 lam eta0 freq bs seed g = Ok st0 ->
  well_formed (fst st0).
Proof.
  intros Hv Hinit.
  destruct (NeuralNetwork_init_valid rt d0 L0 m0 12345 g Hv ltac:(lia))
    as (w1 & wmid & wL & g1 & nn & Hinit1 & H1 & H2 & H3 & Hd & _ & _ & HW
        & HW0 & Hgrad).
  destruct Hv as (Hdpos & Hde & Hmpos & Hme & HL).
  pose proof (even_double d0 Hde) as Ed. pose proof (even_double m0 Hme) as Em.
  set (r := (d0 / 2)%nat) in *. set (c := (m0 / 2)%nat) in *.
  clearbody r c.
  assert (Hb1 : has_shape (r + r) (c + c) (block_diag2 c w1))
    by now apply block_diag2_shape.
  assert (Hb2 : has_shape (c + c) (c + c) (block_diag2 c wmid))
    by now apply block_diag2_shape.
  assert (Hb3 : has_shape (c + c) 1 (antisym_col wL))
    by now apply antisym_col_shape.
  assert (Hch : chained d0 (nn_W nn) 1).
  { rewrite HW, Ed. cbn [chained]. split; [lia|]. exists (c + c)%nat.
    split; [exact Hb1|].
    apply chained_middle; [lia | exact Hb2 |].
    cbn. split; [lia|]. exists 1%nat. split; [exact Hb3 | reflexivity]. }
  destruct (chained_like_self _ _ _ Hch) as [Hself Hzeros].
  assert (Hsize : size_of (nn_W nn)
                  = (m0 + m0 * d0 + m0 * m0 * (L0 - 2))%nat).
  { rewrite HW, (size_of_shape _ _ _ _ Hb1), size_of_app, size_of_repeat
      by lia.
    rewrite (size_of_shape _ _ _ _ Hb3) by lia.
    rewrite (has_shape_ncols _ _ _ Hb2) by lia.
    destruct Hb2 as [-> _]. cbn [size_of fold_right].
    rewrite Ed, Em. nia. }
  unfold NeuralAgent_init in Hinit. rewrite Hinit1 in Hinit.
  cbn [bind] in Hinit.
  destruct (length (nn_W nn) =? 0)%nat; [discriminate|].
  destruct (_ <? 0)%Z; [discriminate|].
  inversion Hinit; subst st0; clear Hinit.
  assert (Hp : Z.to_nat (Z.of_nat m0 + Z.of_nat m0 * Z.of_nat d0
                         + Z.of_nat m0 * Z.of_nat m0 * (Z.of_nat L0 - 2))
               = size_of (nn_W nn)).
  { rewrite Hsize. nia. }
  unfold well_formed, net_ok. cbn. rewrite Hp.
  split.
  { split; [now rewrite Hd|]. split; [rewrite HW; discriminate|].
    split; [rewrite Hgrad; exact Hzeros | rewrite HW0; exact Hself]. }
  split; [exact Hd|].
  split; [apply mscale_shape, np_eye_shape|].
  split; [apply repeat_length|].
  split; [apply repeat_length|].
  split; [apply repeat_length|].
  split; [apply repeat_length|].
  apply Forall_forall. intros row Hin. apply repeat_spec in Hin.
  subst row. apply repeat_length.
Qed.

End WellFormedInit.

Section ActionTotal.

Variable rt : Runtime.

Lemma size_of_pos (Ws : list matrix) :
  forall din dout, chained din Ws dout -> Ws <> [] -> (0 < dout)%nat ->
                   (0 < size_of Ws)%nat.
Proof.
  destruct Ws as [|W rest]; intros din dout Hch Hne Hout; [congruence|].
  destruct Hch as (Hpos & c & HW & Hrest).
  rewrite (size_of_shape din c W rest HW Hpos).
  assert (0 < c)%nat; [|nia].
  destruct rest as [|W' rest']; cbn in Hrest; [lia|]. apply Hrest.
Qed.

(** C8: on a well-formed agent with a free slot, given the inverse of [U]
    and [K] contexts of length [d], [Action] returns the lowest index at
    which the sampled rewards of the [K] arms take their maximum; it lies
    in [0, K). *)
Theorem Action_first_max :
  forall (context_list U_inverse : matrix) (self : NeuralAgent rt),
    well_formed self ->
    linalg_inv rt (U self) = Ok U_inverse ->
    has_shape (length (U self)) (length (U self)) U_inverse ->
    (0 < K self)%nat -> (t self < T self)%nat ->
    (forall k, (k < K self)%nat ->
       exists x, nth_error context_list k = Some x /\ length x = d self) ->
    exists ind self' scores self1,
      Action rt context_list self = (Ok ind, self')
      /\ score_arms rt context_list self = (Ok scores, self1)
      /\ length scores = K self
      /\ first_max (map snd scores) ind
      /\ (ind < K self)%nat.
Proof.
  intros context_list U_inverse self
         (Hok & Hd & HU & _ & Hha & Hpr & Hhc) Hinv HUi HK Ht Hctx.
  assert (Hlen : length (U self) = size_of (nn_W (mynn self))) by apply HU.
  rewrite Hlen in HUi.
  destruct (Action_returns rt context_list U_inverse
              (size_of (nn_W (mynn self))) self) as (ind & self' & E); auto.
  - destruct Hok as (Hch & Hne & _). eapply size_of_pos; eauto.
  - intros k Hk. destruct (Hctx k Hk) as (x & Hx & Hlx).
    exists x. split; [exact Hx | congruence].
  - lia.
  - destruct Hhc as [-> _]. exact Ht.
  - lia.
  - destruct (Action_Ok_first_max rt _ _ _ _ E)
      as (scores & self1 & E1 & H1 & H2 & H3).
    exists ind, self', scores, self1. repeat split; auto; apply H2.
Qed.

End ActionTotal.

Lemma Action_first_max_witness :
  exists st0,
    NeuralAgent_init unit_runtime 2 5 2 2 2 (1 / 10) 1 (1 / 100) 2
                     (Some 1%Z) 12345 O = Ok st0
    /\ exists ind self' scores self1,
         Action unit_runtime [[1; 0]; [0; 1]] (fst st0) = (Ok ind, self')
         /\ score_arms unit_runtime [[1; 0]; [0; 1]] (fst st0)
            = (Ok scores, self1)
         /\ length scores = K (fst st0)
         /\ first_max (map snd scores) ind
         /\ (ind < K (fst st0))%nat.
Proof.
  eexists. split.
  - lazy -[Rmult Rplus Rinv Rdiv sqrt INR Ropp IZR]. reflexivity.
  - eapply (Action_first_max unit_runtime).
    + eapply (NeuralAgent_init_well_formed unit_runtime 2 5 2 2 2 (1 / 10) 1
                (1 / 100) 2 (Some 1%Z) 12345 O).
      * unfold valid_config. simpl. repeat split; lia.
      * lazy -[Rmult Rplus Rinv Rdiv sqrt INR Ropp IZR]. reflexivity.
    + reflexivity.
    + apply gauss_jordan_shape. split; [reflexivity | repeat constructor].
    + cbn. lia.
    + cbn. lia.
    + intros [|[|k]] Hk; cbn in Hk; try lia; eexists; split; reflexivity.
Defined.

(** * The network as a function of its input *)

Section ForwardAlgebra.

Lemma matmul_app (X1 X2 W : matrix) :
  matmul (X1 ++ X2) W = matmul X1 W ++ matmul X2 W.
Proof. unfold matmul. apply map_app. Qed.

Lemma layers_app (Ws : list matrix) :
  forall X1 X2, layers Ws (X1 ++ X2) = layers Ws X1 ++ layers Ws X2.
Proof.
  induction Ws as [|W rest IH]; intros X1 X2; [reflexivity|].
  destruct rest as [|W' rest'].
  - cbn [layers]. apply matmul_app.
  - rewrite !layers_cons by discriminate.
    rewrite matmul_app, map_app. apply IH.
Qed.

Lemma vscale_vadd (a : R) (u v : vector) :
  vscale a (vadd u v) = vadd (vscale a u) (vscale a v).
Proof.
  revert v. induction u as [|x u IH]; intros [|y v]; cbn; auto.
  f_equal; [ring | apply IH].
Qed.

Lemma vscale_vscale (a b : R) (v : vector) :
  vscale (a * b) v = vscale a (vscale b v).
Proof.
  unfold vscale. rewrite map_map. apply map_ext. intros z. ring.
Qed.

Lemma vecmat_vscale (n : nat) (a : R) (x : vector) (B : matrix) :
  vecmat n (vscale a x) B = vscale a (vecmat n x B).
Proof.
  revert B. induction x as [|x0 x IH]; intros B.
  - change (vscale a []) with (@nil R). cbn [vecmat].
    now rewrite vscale_zeros.
  - change (vscale a (x0 :: x)) with (a * x0 :: vscale a x).
    destruct B as [|b B]; cbn [vecmat].
    + now rewrite vscale_zeros.
    + rewrite IH, vscale_vadd, vscale_vscale. reflexivity.
Qed.

Lemma matmul_mscale (a : R) (X W : matrix) :
  matmul (mscale a X) W = mscale a (matmul X W).
Proof.
  unfold matmul, mscale. rewrite !map_map. apply map_ext.
  intros x. apply vecmat_vscale.
Qed.

Lemma relu_scale (a z : R) : 0 <= a -> relu (a * z) = a * relu z.
Proof.
  intros Ha. unfold relu, Rmax.
  destruct (Rle_dec 0 (a * z)), (Rle_dec 0 z); try nra.
Qed.

Lemma relu_mscale (a : R) (X : matrix) :
  0 <= a -> map (map relu) (mscale a X) = mscale a (map (map relu) X).
Proof.
  intros Ha. unfold mscale, vscale. rewrite !map_map. apply map_ext.
  intros row. rewrite !map_map. apply map_ext. intros z.
  now apply relu_scale.
Qed.

Lemma layers_mscale (a : R) (Ws : list matrix) :
  0 <= a -> forall X, layers Ws (mscale a X) = mscale a (layers Ws X).
Proof.
  intros Ha. induction Ws as [|W rest IH]; intros X; [reflexivity|].
  destruct rest as [|W' rest'].
  - cbn [layers]. apply matmul_mscale.
  - rewrite !layers_cons by discriminate.
    now rewrite matmul_mscale, relu_mscale, IH.
Qed.

Lemma mscale_comm (a b : R) (X : matrix) :
  mscale a (mscale b X) = mscale b (mscale a X).
Proof.
  unfold mscale, vscale. rewrite !map_map. apply map_ext. intros row.
  rewrite !map_map. apply map_ext. intros z. ring.
Qed.

Lemma forallb_mscale (a : R) (n : nat) (X : matrix) :
  forallb (fun row => (length row =? n)%nat) (mscale a X)
  = forallb (fun row => (length row =? n)%nat) X.
Proof.
  unfold mscale. induction X as [|row X IH]; [reflexivity|].
  cbn [map forallb]. now rewrite vscale_length, IH.
Qed.

(** X1: a batch is forwarded row by row: the output of a batch made of two
    batches is the output of the first followed by the output of the second,
    and the call raises exactly when one of the two would. *)
Theorem forward_of_stacked_batches :
  forall (nn : NeuralNetwork) (X1 X2 : matrix),
    forward nn (Rank2 (X1 ++ X2))
    = bind (forward nn (Rank2 X1))
        (fun Y1 => bind (forward nn (Rank2 X2))
                     (fun Y2 => Ok (Y1 ++ Y2))).
Proof.
  intros nn X1 X2. unfold forward. rewrite forallb_app.
  destruct (forallb _ X1); [|reflexivity]. cbn [andb bind].
  destruct (forallb _ X2); [|reflexivity]. cbn [bind].
  rewrite layers_app. unfold mscale. now rewrite map_app.
Qed.

(** X2: without biases and with ReLU activations the network is positively
    homogeneous: scaling the input (a vector or a batch) by [a >= 0] scales
    the output by [a], and the call raises exactly when the unscaled one
    does. *)
Theorem forward_positively_homogeneous :
  forall (nn : NeuralNetwork) (a : R) (x : vector) (X : matrix),
    0 <= a ->
    forward nn (Rank1 (vscale a x))
    = bind (forward nn (Rank1 x)) (fun Y => Ok (mscale a Y))
    /\ forward nn (Rank2 (mscale a X))
       = bind (forward nn (Rank2 X)) (fun Y => Ok (mscale a Y)).
Proof.
  intros nn a x X Ha.
  assert (H : forall M, forward nn (Rank2 (mscale a M))
                        = bind (forward nn (Rank2 M))
                               (fun Y => Ok (mscale a Y))).
  { intros M. unfold forward. rewrite forallb_mscale.
    destruct (forallb _ M); [|reflexivity]. cbn [bind].
    now rewrite layers_mscale, mscale_comm. }
  split; [|apply H]. exact (H [x]).
Qed.

End ForwardAlgebra.

Lemma forward_positively_homogeneous_witness :
  0 <= 3
  /\ forward {| nn_d := 2; nn_L := 2; nn_m := 2; nn_random_seed := 0;
                nn_W := [[[1; 0]; [0; 1]]; [[1]; [-1]]];
                nn_W0 := []; nn_grad := [] |} (Rank1 (vscale 3 [2; 1]))
     = bind (forward {| nn_d := 2; nn_L := 2; nn_m := 2; nn_random_seed := 0;
                        nn_W := [[[1; 0]; [0; 1]]; [[1]; [-1]]];
                        nn_W0 := []; nn_grad := [] |} (Rank1 [2; 1]))
            (fun Y => Ok (mscale 3 Y)).
Proof.
  split; [lra|].
  apply (forward_positively_homogeneous _ 3 [2; 1] []). lra.
Defined.

(** * Gradients accumulate *)

Section Accumulation.

Lemma concat_madd (r c : nat) (A B : matrix) :
  has_shape r c A -> has_shape r c B ->
  concat (madd A B) = vadd (concat A) (concat B).
Proof.
  intros [HrA HcA] [HrB HcB]. clear HrA HrB. revert B HcB.
  induction HcA as [|a A Ha _ IH]; intros B HcB.
  - destruct B; reflexivity.
  - destruct HcB as [|b B Hb HcB].
    + cbn. unfold vadd. now destruct (a ++ concat A).
    + cbn [madd zipWith concat]. fold (madd A B). rewrite (IH B HcB).
      unfold vadd. rewrite zipWith_app by congruence. reflexivity.
Qed.

Lemma flatten_accumulate (Ws G1 G2 : list matrix) :
  Forall2 like Ws G1 -> Forall2 like Ws G2 ->
  flatten (zipWith madd G1 G2) = vadd (flatten G1) (flatten G2).
Proof.
  intros H1. revert G2. induction H1 as [|W A Ws G1 HA _ IH]; intros G2 H2.
  - inversion H2; subst. reflexivity.
  - inversion H2 as [|W' B Ws' G2' HB H2']; subst.
    unfold flatten in *. cbn [zipWith map concat].
    rewrite (IH _ H2'), (concat_madd _ _ A B HA HB).
    unfold vadd. rewrite zipWith_app; [reflexivity|].
    now rewrite (concat_length_shape _ _ A HA), (concat_length_shape _ _ B HB).
Qed.

(** what [GetGrad] returns: the accumulators plus the gradient at [x] *)
Lemma GetGrad_value (nn : NeuralNetwork) (x : vector) :
  net_ok nn -> length x = nn_d nn ->
  Forall2 like (nn_W nn)
          (fst (backward (nn_W nn) [x] (mscale (sqrt (INR (nn_m nn))) [[1]])))
  /\ GetGrad nn x
     = Ok (vadd (flatten (nn_grad nn))
                (flatten (fst (backward (nn_W nn) [x]
                                 (mscale (sqrt (INR (nn_m nn))) [[1]])))),
           set_grad nn
             (zipWith madd (nn_grad nn)
                (fst (backward (nn_W nn) [x]
                        (mscale (sqrt (INR (nn_m nn))) [[1]]))))).
Proof.
  intros (Hch & Hne & Hg & H0) Hx.
  destruct (forward_returns nn x Hch Hx) as (y & Hy & _).
  destruct (backward_like (nn_W nn) (nn_d nn) 1 [x]
              (mscale (sqrt (INR (nn_m nn))) [[1]]) Hch) as [Hgs _].
  { constructor; [exact Hx | constructor]. }
  { constructor; [reflexivity | constructor]. }
  split; [exact Hgs|].
  rewrite <- (flatten_accumulate _ _ _ Hg Hgs).
  unfold GetGrad. rewrite Hy. cbn [bind onehot00 map zeros_like].
  destruct (backward (nn_W nn) [x] _) as [g0 dx]. reflexivity.
Qed.

(** X3: [GetGrad] never clears the [.grad] of the parameters.  A call returns
    what the accumulators held plus the gradient at [x]; a second call at
    the same point returns the first answer plus that gradient again. *)
Theorem GetGrad_accumulates :
  forall (nn : NeuralNetwork) (x : vector),
    net_ok nn -> length x = nn_d nn ->
    exists (fresh : vector) (nn1 nn2 : NeuralNetwork),
      fresh = flatten (fst (backward (nn_W nn) [x]
                              (mscale (sqrt (INR (nn_m nn))) [[1]])))
      /\ length fresh = size_of (nn_W nn)
      /\ GetGrad nn x = Ok (vadd (flatten (nn_grad nn)) fresh, nn1)
      /\ GetGrad nn1 x
         = Ok (vadd (vadd (flatten (nn_grad nn)) fresh) fresh, nn2)
      /\ nn_W nn2 = nn_W nn.
Proof.
  intros nn x Hok Hx.
  destruct (GetGrad_value nn x Hok Hx) as [Hgs E1].
  set (gs := fst (backward (nn_W nn) [x]
                    (mscale (sqrt (INR (nn_m nn))) [[1]]))) in *.
  set (acc := zipWith madd (nn_grad nn) gs) in *.
  assert (Hacc : Forall2 like (nn_W nn) acc)
    by (apply accumulate_like; [apply Hok | exact Hgs]).
  destruct (GetGrad_value (set_grad nn acc) x) as [_ E2];
    [now apply set_grad_ok | exact Hx |].
  cbn [nn_W nn_m nn_grad set_grad] in E2. fold gs in E2.
  exists (flatten gs), (set_grad nn acc),
         (set_grad (set_grad nn acc) (zipWith madd acc gs)).
  split; [reflexivity|].
  split; [now apply flatten_length|].
  split; [exact E1|]. split; [|reflexivity].
  rewrite E2. unfold acc at 1.
  destruct Hok as (_ & _ & Hg & _).
  now rewrite (flatten_accumulate _ _ _ Hg Hgs).
Qed.

End Accumulation.

Lemma GetGrad_accumulates_witness :
  exists (fresh : vector) (nn1 nn2 : NeuralNetwork),
    fresh = flatten (fst (backward [[[1; 0]; [0; 1]]; [[1]; [-1]]] [[2; 1]]
                            (mscale (sqrt (INR 2)) [[1]])))
    /\ length fresh = size_of [[[1; 0]; [0; 1]]; [[1]; [-1]]]
    /\ GetGrad {| nn_d := 2; nn_L := 2; nn_m := 2; nn_random_seed := 0;
                  nn_W := [[[1; 0]; [0; 1]]; [[1]; [-1]]];
                  nn_W0 := [[[1; 0]; [0; 1]]; [[1]; [-1]]];
                  nn_grad := [[[0; 0]; [0; 0]]; [[0]; [0]]] |} [2; 1]
       = Ok (vadd (flatten [[[0; 0]; [0; 0]]; [[0]; [0]]]) fresh, nn1)
    /\ GetGrad nn1 [2; 1]
       = Ok (vadd (vadd (flatten [[[0; 0]; [0; 0]]; [[0]; [0]]]) fresh) fresh,
             nn2)
    /\ nn_W nn2 = [[[1; 0]; [0; 1]]; [[1]; [-1]]].
Proof.
  apply (GetGrad_accumulates
           {| nn_d := 2; nn_L := 2; nn_m := 2; nn_random_seed := 0;
              nn_W := [[[1; 0]; [0; 1]]; [[1]; [-1]]];
              nn_W0 := [[[1; 0]; [0; 1]]; [[1]; [-1]]];
              nn_grad := [[[0; 0]; [0; 0]]; [[0]; [0]]] |} [2; 1]).
  - unfold net_ok. cbn [nn_d nn_W nn_W0 nn_grad]. split.
    + cbn. split; [lia|]. exists 2%nat. split.
      * split; [reflexivity | repeat constructor].
      * split; [lia|]. exists 1%nat. split; [|reflexivity].
        split; [reflexivity | repeat constructor].
    + split; [discriminate|].
      split; repeat constructor.
  - reflexivity.
Defined.

(** * Construction *)

Section OddSizes.

Variable rt : Runtime.

Lemma odd_half (n : nat) :
  Nat.odd n = true -> n = (2 * (n / 2) + 1)%nat.
Proof.
  intros H. apply Nat.odd_spec in H. destruct H as [k ->].
  replace ((2 * k + 1) / 2)%nat with k; [reflexivity|].
  apply (Nat.div_unique (2 * k + 1) 2 k 1); lia.
Qed.

Lemma mapM_first_raises {A B : Type} (f : A -> result B) (a : A)
  (l : list A) (e : exn) :
  f a = Raise e -> mapM f (a :: l) = Raise e.
Proof. intros H. cbn [mapM]. now rewrite H. Qed.

(** X4: the two diagonal blocks of the first layer have the sizes
    [d // 2] and [d - d // 2] (and [m // 2], [m - m // 2] across): for an
    odd [d >= 5], or an odd [m >= 5], the second block assignment cannot
    broadcast and the constructor raises [ValueError]. *)
Theorem NeuralNetwork_init_odd_size_raises :
  forall (d L m : nat) (seed : Z) (g : np_state rt),
    (0 <= seed < 2 ^ 32)%Z -> (1 <= L)%nat -> (1 <= m)%nat ->
    (Nat.odd d = true /\ (5 <= d)%nat)
    \/ (Nat.odd m = true /\ (5 <= m)%nat /\ (2 <= d)%nat) ->
    NeuralNetwork_init rt d L m seed g = Raise ValueError.
Proof.
  intros d0 L0 m0 seed g Hseed HL Hm Hodd.
  unfold NeuralNetwork_init.
  destruct (Z.ltb_spec seed 0) as [?|_]; [lia|].
  destruct (Z.leb_spec (2 ^ 32) seed) as [?|_]; [lia|]. cbn [orb].
  destruct (Nat.eqb_spec m0 0) as [?|_]; [lia|].
  pose proof (randn2_shape rt (d0 / 2) (m0 / 2)
                (np_random_seed rt seed g)) as Hw.
  destruct (randn2 rt (d0 / 2) (m0 / 2) _) as [r1 g1]. cbn [fst] in Hw.
  destruct (randn2 rt (m0 / 2) (m0 / 2) g1) as [r2 g2].
  destruct (randn1 rt (m0 / 2) g2) as [r3 g3].
  apply (mscale_shape (sqrt (4 / INR m0))) in Hw.
  set (w := mscale (sqrt (4 / INR m0)) r1) in *. clearbody w.
  destruct L0 as [|L0]; [lia|].
  cbn [seq]. rewrite (mapM_first_raises _ _ _ ValueError); [reflexivity|].
  unfold build_layer. cbn [Nat.eqb]. unfold layer1, setitem.
  rewrite !Nat.sub_0_r, (broadcast_exact _ _ _ Hw). cbn [bind].
  unfold broadcast_to. destruct Hw as [Hr Hc].
  assert (E : fits (d0 - d0 / 2) w
              && forallb (fits (m0 - m0 / 2)) w = false);
    [|now rewrite E].
  destruct Hodd as [[Ho H5]|(Ho & H5 & H2)].
  - apply andb_false_iff. left. unfold fits. rewrite Hr.
    pose proof (odd_half d0 Ho) as Ed.
    apply orb_false_iff. split; apply Nat.eqb_neq; lia.
  - apply andb_false_iff. right.
    destruct w as [|row w]; cbn [length] in Hr.
    + assert (d0 / 2 <> 0)%nat; [|lia].
      intros H0. apply Nat.div_small_iff in H0; lia.
    + inversion Hc as [|? ? Hrow _]; subst. cbn [forallb].
      apply andb_false_iff. left. unfold fits. rewrite Hrow.
      pose proof (odd_half m0 Ho) as Em.
      apply orb_false_iff. split; apply Nat.eqb_neq; lia.
Qed.

(** the network records the seed it was built with *)
Lemma NeuralNetwork_init_seed (d L m : nat) (seed : Z) (g g' : np_state rt)
  (nn : NeuralNetwork) :
  NeuralNetwork_init rt d L m seed g = Ok (nn, g') ->
  nn_random_seed nn = seed.
Proof.
  unfold NeuralNetwork_init. destruct (_ || _); [discriminate|].
  destruct (m =? 0)%nat; [discriminate|].
  destruct (randn2 rt (d / 2) (m / 2) _) as [r1 g1].
  destruct (randn2 rt (m / 2) (m / 2) g1) as [r2 g2].
  destruct (randn1 rt (m / 2) g2) as [r3 g3].
  destruct (mapM _ _) as [W|e]; cbn [bind]; [|discriminate].
  intros H. inversion H; subst. reflexivity.
Qed.

(** X5: the agent's [random_seed] seeds its own [random.Random] only.  The
    network is built with the default seed 12345, so agents that differ in
    their seed alone start from the same weights, the same [U] and leave
    the NumPy generator in the same state; the constructor returns for one
    seed when it returns for another. *)
Theorem agent_seed_does_not_reach_network :
  forall (K T d L m : nat) (nu lam eta : R) (freq : Z) (bs : option Z)
         (seed1 seed2 : Z) (g : np_state rt)
         (st1 : NeuralAgent rt * np_state rt),
    NeuralAgent_init rt K T d L m nu lam eta freq bs seed1 g = Ok st1 ->
    exists st2,
      NeuralAgent_init rt K T d L m nu lam eta freq bs seed2 g = Ok st2
      /\ mynn (fst st2) = mynn (fst st1)
      /\ nn_random_seed (mynn (fst st1)) = 12345%Z
      /\ U (fst st2) = U (fst st1)
      /\ snd st2 = snd st1
      /\ random_generator (fst st1) = py_seed rt seed1
      /\ random_generator (fst st2) = py_seed rt seed2.
Proof.
  intros K0 T0 d0 L0 m0 nu0 lam eta0 freq bs seed1 seed2 g st1.
  unfold NeuralAgent_init.
  destruct (NeuralNetwork_init rt d0 L0 m0 12345 g) as [[nn g1]|e] eqn:E;
    cbn [bind]; [|discriminate].
  destruct (length (nn_W nn) =? 0)%nat; [discriminate|].
  destruct (_ <? 0)%Z; [discriminate|].
  intros H. inversion H; subst; clear H.
  eexists. split; [reflexivity|]. cbn.
  repeat split. eapply NeuralNetwork_init_seed, E.
Qed.

End OddSizes.

Lemma NeuralNetwork_init_odd_size_raises_witness :
  (0 <= 0 < 2 ^ 32)%Z /\ (1 <= 2)%nat /\ (1 <= 2)%nat
  /\ ((Nat.odd 5 = true /\ (5 <= 5)%nat)
      \/ (Nat.odd 2 = true /\ (5 <= 2)%nat /\ (2 <= 5)%nat))
  /\ NeuralNetwork_init unit_runtime 5 2 2 0 O = Raise ValueError.
Proof.
  assert (H1 : (0 <= 0 < 2 ^ 32)%Z) by lia.
  assert (H2 : (1 <= 2)%nat) by lia.
  assert (H3 : (Nat.odd 5 = true /\ (5 <= 5)%nat)
               \/ (Nat.odd 2 = true /\ (5 <= 2)%nat /\ (2 <= 5)%nat))
    by (left; split; [reflexivity | lia]).
  split; [exact H1|]. split; [exact H2|]. split; [exact H2|].
  split; [exact H3|].
  exact (NeuralNetwork_init_odd_size_raises unit_runtime 5 2 2 0 O
           H1 H2 H2 H3).
Defined.

Lemma agent_seed_does_not_reach_network_witness :
  exists st1,
    NeuralAgent_init unit_runtime 2 5 2 2 2 (1 / 10) 1 (1 / 100) 50
                     (Some 1%Z) 7 O = Ok st1
    /\ exists st2,
         NeuralAgent_init unit_runtime 2 5 2 2 2 (1 / 10) 1 (1 / 100) 50
                          (Some 1%Z) (-3) O = Ok st2
         /\ mynn (fst st2) = mynn (fst st1)
         /\ nn_random_seed (mynn (fst st1)) = 12345%Z
         /\ U (fst st2) = U (fst st1)
         /\ snd st2 = snd st1
         /\ random_generator (fst st1) = py_seed unit_runtime 7
         /\ random_generator (fst st2) = py_seed unit_runtime (-3).
Proof.
  eexists. split.
  - lazy -[Rmult Rplus Rinv Rdiv sqrt INR Ropp IZR]. reflexivity.
  - apply (agent_seed_does_not_reach_network unit_runtime 2 5 2 2 2 (1 / 10)
             1 (1 / 100) 50 (Some 1%Z) 7 (-3) O).
    lazy -[Rmult Rplus Rinv Rdiv sqrt INR Ropp IZR]. reflexivity.
Defined.

(** * Edge behaviour of the agent *)

Section Loops.

Context {S : Type}.

(** what a loop that returned says about its results and its final state *)
Lemma mapE_Ok_inv {A B : Type} (I : S -> Prop) (Q : A -> B -> Prop)
  (body : A -> Eff S B) (l : list A) :
  (forall a s b s', In a l -> I s -> body a s = (Ok b, s') ->
                    I s' /\ Q a b) ->
  forall s bs s', I s -> mapE body l s = (Ok bs, s') ->
                  I s' /\ Forall2 Q l bs.
Proof.
  induction l as [|a l IH]; intros Hbody s bs s' Hs H.
  - cbn in H. inversion H; subst. split; [assumption | constructor].
  - cbn [mapE] in H. unfold bindE at 1 in H.
    destruct (body a s) as [[b|e] s1] eqn:E1; [|discriminate].
    unfold bindE at 1 in H.
    destruct (mapE body l s1) as [[bs'|e] s2] eqn:E2; [|discriminate].
    cbn in H. inversion H; subst.
    destruct (Hbody a s b s1 (or_introl eq_refl) Hs E1) as [H1 HQ].
    destruct (IH (fun a' s0 b' s0' Hin => Hbody a' s0 b' s0' (or_intror Hin))
                 s1 bs' s' H1 E2) as [H2 HF].
    split; [exact H2 | now constructor].
Qed.

End Loops.

Lemma setitem1_inv {A : Type} (l l' : list A) (i : nat) (a : A) :
  setitem1 l i a = Ok l' ->
  (i < length l)%nat /\ length l' = length l /\ nth_error l' i = Some a
  /\ forall j, j <> i -> nth_error l' j = nth_error l j.
Proof.
  intros H. assert (Hi : (i < length l)%nat).
  { unfold setitem1 in H. destruct (Nat.ltb_spec i (length l)); [assumption|].
    discriminate. }
  destruct (setitem1_Ok l i a Hi) as (l0 & E & H1 & H2 & H3).
  rewrite H in E. inversion E; subst. auto.
Qed.

Lemma setitem1_raises {A : Type} (l : list A) (i : nat) (a : A) :
  (length l <= i)%nat -> setitem1 l i a = Raise IndexError.
Proof.
  intros H. unfold setitem1. destruct (Nat.ltb_spec i (length l)); [lia|].
  reflexivity.
Qed.

Section Edges.

Variable rt : Runtime.

(** X6: once the [T] slots are used up ([t >= T]), [Update] raises
    [IndexError] on its first statement and changes nothing: neither the
    agent nor the NumPy generator. *)
Theorem Update_past_horizon :
  forall (reward : R) (self : NeuralAgent rt) (g : np_state rt),
    (length (history_reward self) <= t self)%nat ->
    Update rt reward (self, g) = (Raise IndexError, (self, g)).
Proof.
  intros reward self g H. rewrite Update_unfold.
  unfold observe, bindE at 1. now rewrite setitem1_raises.
Qed.

(** X7: with no arm ([K = 0]) [Action] raises [ValueError], the error of
    [np.argmax] on an empty array, as soon as [U] has been inverted; the
    agent is unchanged. *)
Theorem Action_without_arms :
  forall (context_list U_inverse : matrix) (self : NeuralAgent rt),
    K self = O -> linalg_inv rt (U self) = Ok U_inverse ->
    Action rt context_list self = (Raise ValueError, self).
Proof.
  intros context_list U_inverse self HK Hinv.
  unfold Action, score_arms, bindE, gets, lift. rewrite Hinv, HK.
  reflexivity.
Qed.

Lemma observe_keeps_settings (reward : R) (self self1 : NeuralAgent rt)
  (r : result unit) :
  observe rt reward self = (r, self1) ->
  settings self1 = settings self /\ t self1 = t self.
Proof.
  intros H. pose proof (observe_outcome rt reward self) as (H1 & H2 & _).
  rewrite H in H1, H2. auto.
Qed.

Lemma settings_frequency (a b : NeuralAgent rt) :
  settings a = settings b ->
  frequency a = frequency b /\ batchsize a = batchsize b.
Proof. unfold settings. intros H. injection H. auto. Qed.

(** X8: an agent built without [batchsize] fails at its first retraining
    round: when [(t + 1) % frequency == 0], [Update] has recorded the reward,
    updated [U] and reset the weights to the snapshot when [t // batchsize]
    raises [TypeError]; the round counter does not move.  Only at [t = 0]
    is there no epoch to run, and [Update] returns. *)
Theorem Update_without_batchsize :
  forall (reward : R) (self self1 : NeuralAgent rt) (g : np_state rt),
    batchsize self = None ->
    frequency self <> 0%Z ->
    ((Z.of_nat (t self) + 1) mod frequency self = 0)%Z ->
    observe rt reward self = (Ok tt, self1) ->
    (t self = O ->
       Update rt reward (self, g)
       = (Ok tt, (set_t (fst (reset_weights (self1, g))) 1, g)))
    /\ ((1 <= t self)%nat ->
          Update rt reward (self, g)
          = (Raise TypeError,
             (fst (reset_weights (self1, g)),
              snd (np_shuffle rt (seq 0 (t self + 1)) g)))).
Proof.
  intros reward self self1 g Hbs Hf Hmod Hobs.
  destruct (observe_keeps_settings _ _ _ _ Hobs) as [Hset Ht].
  destruct (settings_frequency _ _ Hset) as [Ef Eb].
  rewrite Update_unfold, Hobs, train_and_advance_unfold, Ef, Ht.
  destruct (Z.eqb_spec (frequency self) 0); [contradiction|].
  rewrite Hmod. cbn [Z.eqb].
  assert (E : (retrain rt ;;; advance rt) (self1, g)
              = match retrain_spec rt (self1, g) with
                | (Ok _, st2) => advance rt st2
                | (Raise e, st2) => (Raise e, st2)
                end).
  { unfold bindE. rewrite retrain_is_spec.
    now destruct (retrain_spec rt (self1, g)) as [[[]|e] st2]. }
  rewrite E. clear E. unfold retrain_spec.
  cbn [fst reset_weights set_mynn t]. rewrite Ht.
  split.
  - intros H0. rewrite H0. cbn [Nat.min iterE]. unfold ret, advance, on_self.
    cbn. now rewrite Ht, H0.
  - intros H1. destruct (t self) as [|k] eqn:En; [lia|].
    replace (Nat.min (S k) 100) with (S (Nat.min k 99)) by lia.
    cbn [iterE]. unfold bindE at 1. unfold epoch at 1.
    cbn [fst snd reset_weights set_mynn t]. rewrite Ht.
    destruct (np_shuffle rt (seq 0 (S k + 1)) g) as [hi g'].
    unfold on_self, bindE. cbn [batchsize set_mynn]. rewrite Eb, Hbs.
    reflexivity.
Qed.

Lemma step_t (c : call) (st : NeuralAgent rt * np_state rt) :
  t (fst (step rt c st))
  = match c with
    | CallAction _ => t (fst st)
    | CallUpdate reward =>
        match fst (Update rt reward st) with
        | Ok _ => S (t (fst st))
        | Raise _ => t (fst st)
        end
    end.
Proof.
  destruct c as [context_list|reward]; destruct st as [self g];
    cbn [step fst snd].
  - pose proof (Action_keeps rt context_list self) as H.
    unfold untouched_by_Action in H.
    exact (f_equal (fun x => snd (fst x)) H).
  - rewrite Update_unfold.
    destruct (observe rt reward self) as [[[]|e] self1] eqn:Hobs;
      destruct (observe_keeps_settings _ _ _ _ Hobs) as [_ Ht];
      cbn [fst snd]; [|exact Ht].
    rewrite train_and_advance_unfold.
    destruct (frequency self1 =? 0)%Z; [exact Ht|].
    destruct (_ =? 0)%Z.
    + unfold bindE. pose proof (retrain_keeps rt (self1, g)) as Hk.
      destruct (retrain rt (self1, g)) as [[[]|e] [self2 g2]];
        cbn [fst snd] in *; unfold untouched_by_training in Hk.
      * unfold advance, on_self, modify. cbn.
        assert (t self2 = t self1) by congruence. lia.
      * assert (t self2 = t self1) by congruence. lia.
    + unfold advance, on_self, modify. cbn. lia.
Qed.

(** X9: the round counter [t] moves by exactly one when [Update] returns and
    stays where it is when [Update] raises; [Action] never moves it. *)
Theorem round_counter :
  forall (c : call) (st : NeuralAgent rt * np_state rt),
    t (fst (step rt c st))
    = match c with
      | CallAction _ => t (fst st)
      | CallUpdate reward =>
          match fst (Update rt reward st) with
          | Ok _ => S (t (fst st))
          | Raise _ => t (fst st)
          end
      end.
Proof. exact step_t. Qed.

Lemma normalvariate_keeps_history (mu sigma : R) :
  keeps (fun s : NeuralAgent rt =>
           (t s, history_action s, history_context s, predicted_reward s,
            nu s))
        (normalvariate rt mu sigma).
Proof.
  intros s. unfold normalvariate.
  now destruct (py_normal rt (random_generator s)).
Qed.

Lemma score_arms_keeps_history (context_list : matrix) :
  keeps (fun s : NeuralAgent rt =>
           (t s, history_action s, history_context s, predicted_reward s,
            nu s))
        (score_arms rt context_list).
Proof.
  unfold score_arms, score_arm. frame. apply normalvariate_keeps_history.
Qed.

(** what [Action] leaves in the history when it returns *)
Lemma Action_slot :
  forall (context_list : matrix) (self self' : NeuralAgent rt) (ind : nat),
    Action rt context_list self = (Ok ind, self') ->
    exists scores self1 row mu,
      score_arms rt context_list self = (Ok scores, self1)
      /\ nth_error context_list ind = Some row
      /\ nth_error (map fst scores) ind = Some mu
      /\ t self' = t self
      /\ nth_error (history_action self') (t self) = Some (INR ind)
      /\ nth_error (history_context self') (t self) = Some row
      /\ nth_error (predicted_reward self') (t self) = Some mu
      /\ forall j, j <> t self ->
           nth_error (history_action self') j
           = nth_error (history_action self) j
           /\ nth_error (history_context self') j
              = nth_error (history_context self) j
           /\ nth_error (predicted_reward self') j
              = nth_error (predicted_reward self) j.
Proof.
  intros context_list self self' ind H.
  unfold Action in H. unfold bindE at 1 in H.
  pose proof (score_arms_keeps_history context_list self) as Hk.
  destruct (score_arms rt context_list self) as [[scores|e] self1] eqn:E;
    [|discriminate].
  cbn [snd] in Hk.
  assert (Kt : t self1 = t self) by congruence.
  assert (Ka : history_action self1 = history_action self) by congruence.
  assert (Kc : history_context self1 = history_context self) by congruence.
  assert (Kp : predicted_reward self1 = predicted_reward self)
    by congruence.
  clear Hk.
  unfold bindE at 1 in H. unfold lift at 1 in H.
  destruct (np_argmax (map snd scores)) as [a|e]; [|discriminate].
  unfold bindE, modify, lift, ret in H.
  destruct (setitem1 (history_action self1) (t self1) (INR a)) as [ha|]
    eqn:Eha; [|discriminate].
  cbn in H. unfold getitem in H.
  destruct (nth_error context_list a) as [row|] eqn:Erow; [|discriminate].
  cbn in H.
  destruct (setitem1 (history_context self1) (t self1) row) as [hc|] eqn:Ehc;
    [|discriminate].
  cbn in H.
  destruct (nth_error (map fst scores) a) as [mu|] eqn:Emu; [|discriminate].
  cbn in H.
  destruct (setitem1 (predicted_reward self1) (t self1) mu) as [pr|] eqn:Epr;
    [|discriminate].
  cbn in H. inversion H; subst ind self'; clear H.
  rewrite Kt, Ka in Eha. rewrite Kt, Kc in Ehc. rewrite Kt, Kp in Epr.
  destruct (setitem1_inv _ _ _ _ Eha) as (_ & _ & Ha1 & Ha2).
  destruct (setitem1_inv _ _ _ _ Ehc) as (_ & _ & Hc1 & Hc2).
  destruct (setitem1_inv _ _ _ _ Epr) as (_ & _ & Hp1 & Hp2).
  exists scores, self1, row, mu. cbn.
  repeat split; auto.
Qed.

(** X10: when [Action] returns the arm [ind], slot [t] of the history holds
    that arm, its context and its predicted (not sampled) reward; no other
    slot of the three arrays has changed and [t] is as before. *)
Theorem Action_records_round :
  forall (context_list : matrix) (self self' : NeuralAgent rt) (ind : nat),
    Action rt context_list self = (Ok ind, self') ->
    exists scores self1 row mu,
      score_arms rt context_list self = (Ok scores, self1)
      /\ nth_error context_list ind = Some row
      /\ nth_error (map fst scores) ind = Some mu
      /\ t self' = t self
      /\ nth_error (history_action self') (t self) = Some (INR ind)
      /\ nth_error (history_context self') (t self) = Some row
      /\ nth_error (predicted_reward self') (t self) = Some mu
      /\ forall j, j <> t self ->
           nth_error (history_action self') j
           = nth_error (history_action self) j
           /\ nth_error (history_context self') j
              = nth_error (history_context self) j
           /\ nth_error (predicted_reward self') j
              = nth_error (predicted_reward self) j.
Proof. exact Action_slot. Qed.

(** X11: with [nu = 0] the sampled reward of every arm is its predicted
    reward (the deviation [sqrt(nu**2 * sigma)] is 0), so [Action] is
    greedy: it returns the lowest arm with the largest prediction. *)
Theorem Action_greedy_without_exploration :
  forall (context_list : matrix) (self self' : NeuralAgent rt) (ind : nat),
    nu self = 0 ->
    Action rt context_list self = (Ok ind, self') ->
    exists scores self1,
      score_arms rt context_list self = (Ok scores, self1)
      /\ map snd scores = map fst scores
      /\ first_max (map fst scores) ind.
Proof.
  intros context_list self self' ind Hnu H.
  destruct (Action_Ok_first_max rt _ _ _ _ H)
    as (scores & self1 & E & _ & Hfm & _).
  exists scores, self1. split; [exact E|].
  assert (Hsame : map snd scores = map fst scores);
    [|split; [exact Hsame | now rewrite <- Hsame]].
  unfold score_arms, bindE at 1, gets at 1 in E.
  unfold bindE at 1, lift at 1 in E.
  destruct (linalg_inv rt (U self)) as [U_inverse|e]; [|discriminate].
  unfold bindE at 1, gets at 1 in E.
  destruct (mapE_Ok_inv (fun s : NeuralAgent rt => nu s = 0)
              (fun (_ : nat) (ps : R * R) => snd ps = fst ps)
              (score_arm rt U_inverse context_list) (seq 1 (K self)))
    with (s := self) (bs := scores) (s' := self1) as [_ HF]; auto.
  - intros arm s [mu sv] s' _ Hs Hb. split.
    + pose proof (score_arm_keeps rt U_inverse context_list arm s) as Hk.
      rewrite Hb in Hk. cbn [snd] in Hk. unfold untouched_by_Action in Hk.
      assert (Hset : settings s' = settings s) by congruence.
      unfold settings in Hset. injection Hset. congruence.
    + cbn [fst snd]. unfold score_arm in Hb.
      unfold bindE, lift, gets, modify, ret in Hb.
      destruct (getitem context_list (arm - 1)) as [x|]; [|discriminate].
      destruct (GetGrad (mynn s) x) as [[ga nn']|]; [|discriminate].
      destruct (dot_vm ga U_inverse) as [gU|]; [|discriminate].
      destruct (dot_vv gU ga) as [gUg|]; [|discriminate].
      cbn [lambda_ m set_mynn mynn nu] in Hb.
      destruct (forward nn' (Rank1 x)) as [[|[|y [|y' row]] [|row' out]]|];
        try discriminate.
      unfold normalvariate in Hb. cbn [random_generator set_mynn] in Hb.
      destruct (py_normal rt (random_generator s)) as [z g'].
      inversion Hb; subst. rewrite Hs.
      replace (0 * (0 * 1) * (lambda_ s * gUg / INR (m s))) with 0 by ring.
      rewrite sqrt_0. ring.
  - clear E Hfm. induction HF as [|a [mu sv] l bs Hab _ IH]; [reflexivity|].
    cbn [map fst snd] in *. now rewrite Hab, IH.
Qed.

End Edges.

Lemma Update_past_horizon_witness :
  exists st0 st,
    NeuralAgent_init unit_runtime 1 1 2 2 2 (1 / 10) 1 (1 / 100) 50
                     (Some 1%Z) 12345 O = Ok st0
    /\ run unit_runtime [CallAction [[1; 1]]; CallUpdate 1] st0 = st
    /\ (length (history_reward (fst st)) <= t (fst st))%nat
    /\ Update unit_runtime 0 (fst st, snd st)
       = (Raise IndexError, (fst st, snd st)).
Proof.
  eexists _, _.
  split; [eval_agent; reflexivity|].
  split; [eval_agent; reflexivity|].
  split; [cbn [fst t history_reward length]; lia|].
  apply (Update_past_horizon unit_runtime).
  cbn [fst t history_reward length]. lia.
Defined.

Lemma Action_without_arms_witness :
  exists st0,
    NeuralAgent_init unit_runtime 0 5 2 2 2 (1 / 10) 1 (1 / 100) 50
                     (Some 1%Z) 12345 O = Ok st0
    /\ K (fst st0) = O
    /\ linalg_inv unit_runtime (U (fst st0)) = Ok (gauss_jordan (U (fst st0)))
    /\ Action unit_runtime [] (fst st0) = (Raise ValueError, fst st0).
Proof.
  eexists. split; [eval_agent; reflexivity|].
  split; [reflexivity|]. split; [reflexivity|].
  eapply (Action_without_arms unit_runtime []); reflexivity.
Defined.

Lemma Update_without_batchsize_witness :
  exists st0 self1,
    NeuralAgent_init unit_runtime 1 5 2 2 2 (1 / 10) 1 (1 / 100) 1
                     None 12345 O = Ok st0
    /\ batchsize (fst st0) = None
    /\ frequency (fst st0) <> 0%Z
    /\ ((Z.of_nat (t (fst st0)) + 1) mod frequency (fst st0) = 0)%Z
    /\ observe unit_runtime 1 (fst st0) = (Ok tt, self1)
    /\ (t (fst st0) = O ->
          Update unit_runtime 1 (fst st0, O)
          = (Ok tt, (set_t (fst (reset_weights (self1, O))) 1, O)))
    /\ ((1 <= t (fst st0))%nat ->
          Update unit_runtime 1 (fst st0, O)
          = (Raise TypeError,
             (fst (reset_weights (self1, O)),
              snd (np_shuffle unit_runtime (seq 0 (t (fst st0) + 1)) O)))).
Proof.
  eexists _, _.
  split; [eval_agent; reflexivity|].
  split; [reflexivity|].
  split; [cbn; discriminate|].
  split; [reflexivity|].
  split; [eval_agent; reflexivity|].
  apply (Update_without_batchsize unit_runtime 1 _ _ O).
  - reflexivity.
  - cbn. discriminate.
  - reflexivity.
  - eval_agent. reflexivity.
Defined.

Lemma Action_records_round_witness :
  exists st0 ind self',
    NeuralAgent_init unit_runtime 1 5 2 2 2 (1 / 10) 1 (1 / 100) 50
                     (Some 1%Z) 12345 O = Ok st0
    /\ Action unit_runtime [[1; 1]] (fst st0) = (Ok ind, self')
    /\ exists scores self1 row mu,
         score_arms unit_runtime [[1; 1]] (fst st0) = (Ok scores, self1)
         /\ nth_error [[1; 1]] ind = Some row
         /\ nth_error (map fst scores) ind = Some mu
         /\ t self' = t (fst st0)
         /\ nth_error (history_action self') (t (fst st0)) = Some (INR ind)
         /\ nth_error (history_context self') (t (fst st0)) = Some row
         /\ nth_error (predicted_reward self') (t (fst st0)) = Some mu
         /\ forall j, j <> t (fst st0) ->
              nth_error (history_action self') j
              = nth_error (history_action (fst st0)) j
              /\ nth_error (history_context self') j
                 = nth_error (history_context (fst st0)) j
              /\ nth_error (predicted_reward self') j
                 = nth_error (predicted_reward (fst st0)) j.
Proof.
  eexists _, _, _.
  split; [eval_agent; reflexivity|].
  split; [eval_agent; reflexivity|].
  apply (Action_records_round unit_runtime [[1; 1]]).
  eval_agent. reflexivity.
Defined.

Lemma Action_greedy_without_exploration_witness :
  exists st0 ind self',
    NeuralAgent_init unit_runtime 1 5 2 2 2 0 1 (1 / 100) 50
                     (Some 1%Z) 12345 O = Ok st0
    /\ nu (fst st0) = 0
    /\ Action unit_runtime [[1; 1]] (fst st0) = (Ok ind, self')
    /\ exists scores self1,
         score_arms unit_runtime [[1; 1]] (fst st0) = (Ok scores, self1)
         /\ map snd scores = map fst scores
         /\ first_max (map fst scores) ind.
Proof.
  eexists _, _, _.
  split; [eval_agent; reflexivity|].
  split; [reflexivity|].
  split; [eval_agent; reflexivity|].
  eapply (Action_greedy_without_exploration unit_runtime [[1; 1]]).
  - reflexivity.
  - eval_agent. reflexivity.
Defined.

(** * The shapes the agent keeps *)

Section ShapeTransfer.

Lemma msub_shape (r c : nat) (A B : matrix) :
  has_shape r c A -> has_shape r c B -> has_shape r c (msub A B).
Proof.
  intros [HrA HcA] [HrB HcB]. split.
  - unfold msub. rewrite zipWith_length. lia.
  - clear HrA HrB. revert B HcB.
    induction HcA as [|a A Ha _ IH]; intros B HcB; [constructor|].
    destruct HcB as [|b B Hb HcB]; [constructor|]. cbn [msub zipWith].
    constructor; [|now apply IH].
    rewrite zipWith_length. lia.
Qed.

Lemma like_trans (r c : nat) (W W' G : matrix) :
  has_shape r c W -> (0 < r)%nat -> has_shape r c W' ->
  like W G -> like W' G.
Proof.
  intros HW Hpos HW' HG. unfold like in *.
  rewrite (has_shape_ncols r c W HW Hpos) in HG.
  rewrite (has_shape_ncols r c W' HW' Hpos).
  destruct HW as [EW _]. destruct HW' as [EW' _]. now rewrite EW', <- EW.
Qed.

(** weights of the same shapes fit one another the same way *)
Lemma chained_transfer (Ws : list matrix) :
  forall (Ws' : list matrix) (din dout : nat),
    chained din Ws dout -> Forall2 like Ws Ws' ->
    chained din Ws' dout
    /\ size_of Ws' = size_of Ws
    /\ forall Gs, Forall2 like Ws Gs -> Forall2 like Ws' Gs.
Proof.
  induction Ws as [|W Ws IH]; intros Ws' din dout Hch HF.
  - inversion HF; subst. repeat split; auto.
  - inversion HF as [|? W' ? Ws1 HW' HF']; subst.
    destruct Hch as (Hpos & c & HW & Hrest).
    destruct (IH Ws1 c dout Hrest HF') as (H1 & H2 & H3).
    assert (HW'' : has_shape din c W').
    { unfold like in HW'. rewrite (has_shape_ncols din c W HW Hpos) in HW'.
      destruct HW as [EW _]. now rewrite EW in HW'. }
    split; [|split].
    + cbn [chained]. split; [exact Hpos|]. exists c. split; assumption.
    + rewrite (size_of_shape din c W' Ws1 HW'' Hpos),
        (size_of_shape din c W Ws HW Hpos). now rewrite H2.
    + intros Gs HG. inversion HG as [|? G ? Gs1 HG1 HG']; subst.
      constructor; [|now apply H3].
      now apply (like_trans din c W W' G).
Qed.

Lemma Forall2_like_zip (Ws As Bs : list matrix)
  (f : matrix -> matrix -> matrix) :
  (forall W A B, like W A -> like W B -> like W (f A B)) ->
  Forall2 like Ws As -> Forall2 like Ws Bs ->
  Forall2 like Ws (zipWith f As Bs).
Proof.
  intros Hf H1. revert Bs. induction H1 as [|W A Ws As HA _ IH]; intros Bs H2.
  - inversion H2; subst. constructor.
  - inversion H2 as [|? B ? Bs' HB H2']; subst. cbn [zipWith].
    constructor; [now apply Hf | now apply IH].
Qed.

Lemma forward_Ok_width (nn : NeuralNetwork) (X Y : matrix) :
  forward nn (Rank2 X) = Ok Y ->
  width (nn_d nn) X /\ Y = mscale (sqrt (INR (nn_m nn))) (layers (nn_W nn) X).
Proof.
  unfold forward.
  destruct (forallb _ X) eqn:E; [|discriminate].
  intros H. inversion H; subst. split; [|reflexivity].
  apply Forall_forall. intros row Hin.
  rewrite forallb_forall in E. now apply Nat.eqb_eq, E.
Qed.

Lemma mse_grad_width (c : nat) (output : matrix) (y : vector) :
  width c output -> width c (mse_grad output y).
Proof.
  intros H. unfold mse_grad. generalize (INR (length y)) as n. intros n.
  revert y. induction H as [|row output Hrow _ IH]; intros y; [constructor|].
  destruct y as [|yi y]; [constructor|]. cbn [zipWith].
  constructor; [|apply IH].
  destruct row as [|o rest]; [exact Hrow|].
  simpl in *. now rewrite length_map.
Qed.

Lemma mscale_width (a : R) (c : nat) (A : matrix) :
  width c A -> width c (mscale a A).
Proof.
  intros H. apply Forall_map. eapply Forall_impl; [|exact H].
  intros row Hrow. simpl. now rewrite vscale_length.
Qed.

(** [GetGrad] keeps the network in shape *)
Lemma GetGrad_net_ok (nn nn' : NeuralNetwork) (x g : vector) :
  net_ok nn -> GetGrad nn x = Ok (g, nn') ->
  net_ok nn' /\ nn_W nn' = nn_W nn /\ nn_W0 nn' = nn_W0 nn
  /\ nn_d nn' = nn_d nn /\ length x = nn_d nn
  /\ length g = size_of (nn_W nn).
Proof.
  intros Hok H.
  assert (Hx : length x = nn_d nn).
  { unfold GetGrad in H.
    destruct (forward nn (Rank2 [x])) as [out|] eqn:E; [|discriminate].
    eapply forward_Ok_length, E. }
  destruct (GetGrad_returns nn x Hok Hx) as (acc & E & Hacc & Hlen).
  rewrite E in H. inversion H; subst.
  split; [now apply set_grad_ok|]. repeat split; auto.
Qed.

(** one step of SGD keeps the network in shape *)
Lemma train_batch_net_ok (lam eta0 : R) (p0 : Z) (nn nn' : NeuralNetwork)
  (X : matrix) (y : vector) :
  net_ok nn -> train_batch lam eta0 p0 nn X y = Ok nn' ->
  net_ok nn' /\ nn_d nn' = nn_d nn /\ nn_W0 nn' = nn_W0 nn
  /\ size_of (nn_W nn') = size_of (nn_W nn).
Proof.
  intros (Hch & Hne & Hg & H0) H. unfold train_batch in H.
  destruct (forward nn (Rank2 X)) as [output|] eqn:E; [|discriminate].
  cbn [bind] in H.
  destruct (forward_Ok_width nn X output E) as [HX ->].
  destruct (layers_width (nn_W nn) (nn_d nn) 1 X Hch HX) as [Hout _].
  destruct (backward_like (nn_W nn) (nn_d nn) 1 X
              (mscale (sqrt (INR (nn_m nn)))
                 (mse_grad (mscale (sqrt (INR (nn_m nn)))
                              (layers (nn_W nn) X)) y)) Hch HX)
    as [Hgs _].
  { apply mscale_width, mse_grad_width, mscale_width, Hout. }
  destruct (backward (nn_W nn) X _) as [gs dx]. cbn [fst] in Hgs.
  inversion H; subst nn'; clear H.
  destruct (chained_like_self _ _ _ Hch) as [Hself _].
  set (reg := zipWith (fun W W0 => mscale (lam / IZR p0) (msub W W0))
                      (nn_W nn) (nn_W0 nn)).
  assert (Hreg : Forall2 like (nn_W nn) reg).
  { apply Forall2_like_zip; auto.
    intros W A B HA HB. apply mscale_shape. now apply msub_shape. }
  set (grad := zipWith madd gs reg).
  assert (Hgrad : Forall2 like (nn_W nn) grad) by now apply accumulate_like.
  set (W' := zipWith (fun W g => msub W (mscale eta0 g)) (nn_W nn) grad).
  assert (HW' : Forall2 like (nn_W nn) W').
  { apply Forall2_like_zip; auto.
    intros W A B HA HB. apply msub_shape; [exact HA|].
    now apply mscale_shape. }
  destruct (chained_transfer _ _ _ _ Hch HW') as (Hch' & Hsize & Htr).
  unfold net_ok. cbn [nn_d nn_W nn_W0 nn_grad set_W set_grad].
  repeat split; auto.
  intros EW'. apply Hne. rewrite EW' in HW'. now inversion HW'.
Qed.

(** going back to the snapshot keeps the network in shape *)
Lemma reset_net_ok (nn : NeuralNetwork) :
  net_ok nn ->
  net_ok (set_W nn (nn_W0 nn))
  /\ size_of (nn_W0 nn) = size_of (nn_W nn).
Proof.
  intros (Hch & Hne & Hg & H0).
  destruct (chained_transfer _ _ _ _ Hch H0) as (Hch' & Hsize & Htr).
  unfold net_ok. cbn [nn_d nn_W nn_W0 nn_grad set_W].
  repeat split; auto.
  intros E0. apply Hne. rewrite E0 in H0. now inversion H0.
Qed.

End ShapeTransfer.

Section Loops2.

Context {S : Type}.

Lemma mapE_inv {A B : Type} (J : S -> Prop) (Q : A -> B -> Prop)
  (body : A -> Eff S B) (l : list A) :
  (forall a s, J s ->
     J (snd (body a s)) /\ forall b, fst (body a s) = Ok b -> Q a b) ->
  forall s, J s ->
    J (snd (mapE body l s))
    /\ forall bs, fst (mapE body l s) = Ok bs -> Forall2 Q l bs.
Proof.
  intros Hbody. induction l as [|a l IH]; intros s Hs.
  - cbn [mapE]. unfold ret. cbn [fst snd]. split; [assumption|].
    intros bs H. injection H as <-. constructor.
  - cbn [mapE]. unfold bindE.
    destruct (Hbody a s Hs) as [H1 HQ].
    destruct (body a s) as [[b|e] s1]; cbn [fst snd] in *;
      [|split; [assumption | intros ? Hbad; discriminate Hbad]].
    destruct (IH s1 H1) as [H2 HF].
    destruct (mapE body l s1) as [[bs'|e] s2]; cbn [fst snd] in *;
      [|split; [assumption | intros ? Hbad; discriminate Hbad]].
    split; [assumption|]. intros bs H. injection H as <-.
    constructor; auto.
Qed.

Lemma forE_inv {A : Type} (J : S -> Prop) (body : A -> Eff S unit)
  (l : list A) :
  (forall a s, J s -> J (snd (body a s))) ->
  forall s, J s -> J (snd (forE l body s)).
Proof.
  intros Hbody. induction l as [|a l IH]; intros s Hs; [exact Hs|].
  cbn [forE]. unfold bindE. specialize (Hbody a s Hs).
  destruct (body a s) as [[[]|e] s1]; cbn [fst snd] in *; auto.
Qed.

End Loops2.

Lemma Forall_firstn_of {A : Type} (P : A -> Prop) (n : nat) (l : list A) :
  Forall P l -> Forall P (firstn n l).
Proof.
  intros H. revert n. induction H as [|a l Ha _ IH]; intros [|n]; cbn;
    constructor; auto.
Qed.

Lemma Forall_skipn_of {A : Type} (P : A -> Prop) (n : nat) (l : list A) :
  Forall P l -> Forall P (skipn n l).
Proof.
  intros H. revert n. induction H as [|a l Ha Hl IH]; intros [|n]; cbn;
    auto.
Qed.

Lemma setitem1_Forall {A : Type} (P : A -> Prop) (l l' : list A) (i : nat)
  (a : A) :
  Forall P l -> P a -> setitem1 l i a = Ok l' -> Forall P l'.
Proof.
  intros Hl Ha H. unfold setitem1 in H.
  destruct (i <? length l)%nat; [|discriminate]. injection H as <-.
  apply Forall_app. split; [now apply Forall_firstn_of|].
  constructor; [exact Ha | now apply (Forall_skipn_of P (S i))].
Qed.

Section AgentInvariant.

Variable rt : Runtime.
Variable W0 : list matrix.

Lemma inv_set_mynn (s : NeuralAgent rt) (nn' : NeuralNetwork) :
  agent_inv W0 s -> net_ok nn' -> nn_d nn' = nn_d (mynn s) ->
  nn_W0 nn' = nn_W0 (mynn s) ->
  size_of (nn_W nn') = size_of (nn_W (mynn s)) ->
  agent_inv W0 (set_mynn s nn').
Proof.
  intros [(Hok & Hd & HU & H1 & H2 & H3 & H4) HW0] Hok' Ed E0 Es.
  split; [|cbn; congruence].
  unfold well_formed. cbn [mynn set_mynn d U T history_reward history_action
                           predicted_reward history_context].
  rewrite Es. split; [exact Hok'|]. split; [congruence|].
  split; [exact HU|]. auto.
Qed.

Lemma inv_set_random_generator (s : NeuralAgent rt) (g : py_state rt) :
  agent_inv W0 s -> agent_inv W0 (set_random_generator s g).
Proof. intros H. exact H. Qed.

Lemma inv_set_t (s : NeuralAgent rt) (t' : nat) :
  agent_inv W0 s -> agent_inv W0 (set_t s t').
Proof. intros H. exact H. Qed.

Lemma score_arm_inv (U_inverse context_list : matrix) (arm : nat)
  (s : NeuralAgent rt) :
  agent_inv W0 s ->
  agent_inv W0 (snd (score_arm rt U_inverse context_list arm s))
  /\ forall b, fst (score_arm rt U_inverse context_list arm s) = Ok b ->
       exists x, nth_error context_list (arm - 1) = Some x
                 /\ length x = nn_d (mynn s).
Proof.
  intros Hs. unfold score_arm, bindE, lift, gets, modify, getitem.
  destruct (nth_error context_list (arm - 1)) as [x|];
    [|split; [exact Hs | intros ? Hbad; discriminate Hbad]].
  destruct (GetGrad (mynn s) x) as [[ga nn']|] eqn:EG;
    [|split; [exact Hs | intros ? Hbad; discriminate Hbad]].
  destruct (GetGrad_net_ok (mynn s) nn' x ga) as (Hok' & EW & E0 & Ed & Hx & _);
    [apply Hs | exact EG |].
  assert (Hs1 : agent_inv W0 (set_mynn s nn')).
  { apply inv_set_mynn; auto. now rewrite EW. }
  cbn [fst snd].
  destruct (dot_vm ga U_inverse) as [gU|];
    [|split; [exact Hs1 | intros ? Hbad; discriminate Hbad]].
  destruct (dot_vv gU ga) as [gUg|];
    [|split; [exact Hs1 | intros ? Hbad; discriminate Hbad]].
  cbn [fst snd mynn set_mynn].
  destruct (forward nn' (Rank1 x)) as [out|];
    [|split; [exact Hs1 | intros ? Hbad; discriminate Hbad]].
  destruct out as [|[|y [|y' row]] [|row' out]];
    try (split; [exact Hs1 | intros ? Hbad; discriminate Hbad]).
  unfold normalvariate, ret.
  destruct (py_normal rt (random_generator (set_mynn s nn'))) as [z g'].
  cbn [fst snd]. split; [exact Hs1|]. intros b _. eauto.
Qed.

Lemma score_arm_keeps_mynn_d (U_inverse context_list : matrix) (arm : nat)
  (s : NeuralAgent rt) :
  agent_inv W0 s ->
  nn_d (mynn (snd (score_arm rt U_inverse context_list arm s)))
  = nn_d (mynn s).
Proof.
  intros Hs.
  destruct (score_arm_inv U_inverse context_list arm s Hs) as [[H1 _] _].
  destruct H1 as (_ & Hd & _). destruct Hs as [(_ & Hd0 & _) _].
  pose proof (score_arm_keeps rt U_inverse context_list arm s) as Hk.
  unfold untouched_by_Action, settings in Hk. injection Hk. congruence.
Qed.

Lemma score_arms_inv (context_list : matrix) (s : NeuralAgent rt) :
  agent_inv W0 s ->
  agent_inv W0 (snd (score_arms rt context_list s))
  /\ forall scores, fst (score_arms rt context_list s) = Ok scores ->
       length scores = K s
       /\ forall k, (k < K s)%nat ->
            exists x, nth_error context_list k = Some x
                      /\ length x = d s.
Proof.
  intros Hs. unfold score_arms, bindE, gets, lift.
  destruct (linalg_inv rt (U s)) as [U_inverse|];
    [|split; [exact Hs | intros ? Hbad; discriminate Hbad]].
  destruct (mapE_inv
              (fun s' => agent_inv W0 s' /\ nn_d (mynn s') = nn_d (mynn s))
              (fun arm (_ : R * R) =>
                 exists x, nth_error context_list (arm - 1) = Some x
                           /\ length x = nn_d (mynn s))
              (score_arm rt U_inverse context_list) (seq 1 (K s)))
    with (s := s) as [[H1 _] H2].
  - intros arm s' [Hs' Ed]. split.
    + split; [apply score_arm_inv, Hs'|].
      now rewrite score_arm_keeps_mynn_d.
    + intros b Hb. rewrite <- Ed.
      exact (proj2 (score_arm_inv U_inverse context_list arm s' Hs') b Hb).
  - now split.
  - split; [exact H1|]. intros scores Hsc. specialize (H2 scores Hsc).
    assert (Hlen : length scores = K s).
    { apply Forall2_length in H2. now rewrite length_seq in H2. }
    split; [exact Hlen|]. intros k Hk.
    assert (Hd : nn_d (mynn s) = d s) by apply Hs. rewrite <- Hd.
    assert (Hgen : forall n base bs,
               Forall2 (fun arm (_ : R * R) =>
                          exists x, nth_error context_list (arm - 1) = Some x
                                    /\ length x = nn_d (mynn s))
                       (seq base n) bs ->
               forall j, (j < n)%nat ->
                 exists x, nth_error context_list (base + j - 1) = Some x
                           /\ length x = nn_d (mynn s)).
    { induction n as [|n IH]; intros base bs HF j Hj; [lia|].
      cbn [seq] in HF. inversion HF as [|? b ? bs' Hb HF']; subst.
      destruct j as [|j].
      - now rewrite Nat.add_0_r.
      - replace (base + S j - 1)%nat with (S base + j - 1)%nat by lia.
        apply (IH (S base) bs' HF'). lia. }
    destruct (Hgen (K s) 1%nat scores H2 k Hk) as (x & Hx & Hlx).
    exists x. split; [|exact Hlx].
    rewrite <- Hx. f_equal. lia.
Qed.

End AgentInvariant.

Section AgentInvariantCalls.

Variable rt : Runtime.
Variable W0 : list matrix.

Lemma inv_set_history_action (s : NeuralAgent rt) (h : vector) :
  agent_inv W0 s -> length h = length (history_action s) ->
  agent_inv W0 (set_history_action s h).
Proof.
  intros [(Hok & Hd & HU & H1 & H2 & H3 & H4) HW0] Hh.
  split; [|exact HW0]. unfold well_formed. cbn. repeat split; auto;
    try apply Hok; try apply HU; try apply H4. congruence.
Qed.

Lemma inv_set_predicted_reward (s : NeuralAgent rt) (h : vector) :
  agent_inv W0 s -> length h = length (predicted_reward s) ->
  agent_inv W0 (set_predicted_reward s h).
Proof.
  intros [(Hok & Hd & HU & H1 & H2 & H3 & H4) HW0] Hh.
  split; [|exact HW0]. unfold well_formed. cbn. repeat split; auto;
    try apply Hok; try apply HU; try apply H4. congruence.
Qed.

Lemma inv_set_history_reward (s : NeuralAgent rt) (h : vector) :
  agent_inv W0 s -> length h = length (history_reward s) ->
  agent_inv W0 (set_history_reward s h).
Proof.
  intros [(Hok & Hd & HU & H1 & H2 & H3 & H4) HW0] Hh.
  split; [|exact HW0]. unfold well_formed. cbn. repeat split; auto;
    try apply Hok; try apply HU; try apply H4. congruence.
Qed.

Lemma inv_set_history_context (s : NeuralAgent rt) (h : matrix) :
  agent_inv W0 s -> has_shape (T s) (d s) h ->
  agent_inv W0 (set_history_context s h).
Proof.
  intros [(Hok & Hd & HU & H1 & H2 & H3 & H4) HW0] Hh.
  split; [|exact HW0]. unfold well_formed. cbn. repeat split; auto;
    try apply Hok; try apply HU; try apply Hh.
Qed.

Lemma inv_set_U (s : NeuralAgent rt) (U' : matrix) :
  agent_inv W0 s ->
  has_shape (size_of (nn_W (mynn s))) (size_of (nn_W (mynn s))) U' ->
  agent_inv W0 (set_U s U').
Proof.
  intros [(Hok & Hd & HU & H1 & H2 & H3 & H4) HW0] Hh.
  split; [|exact HW0]. unfold well_formed. cbn. repeat split; auto;
    try apply Hok; try apply Hh; try apply H4.
Qed.

Lemma score_arms_keeps_settings (context_list : matrix) :
  keeps untouched_by_Action (score_arms rt context_list).
Proof.
  unfold score_arms, score_arm. frame. apply normalvariate_keeps.
Qed.

(** [Action] keeps the agent in shape, whatever its outcome *)
Lemma Action_inv (context_list : matrix) (s : NeuralAgent rt) :
  agent_inv W0 s -> agent_inv W0 (snd (Action rt context_list s)).
Proof.
  intros Hs. unfold Action. unfold bindE at 1.
  destruct (score_arms_inv rt W0 context_list s Hs) as [H1 H2].
  pose proof (score_arms_keeps_settings context_list s) as Hk.
  destruct (score_arms rt context_list s) as [[scores|e] s1];
    cbn [fst snd] in *; [|exact H1].
  destruct (H2 scores eq_refl) as [Hlen Hctx]. clear H2.
  assert (Ed : d s1 = d s).
  { unfold untouched_by_Action, settings in Hk. injection Hk. congruence. }
  unfold bindE, lift, modify, ret.
  destruct (np_argmax (map snd scores)) as [a|] eqn:Ea; [|exact H1].
  pose proof (np_argmax_first_max _ _ Ea) as [Ha _].
  rewrite length_map, Hlen in Ha.
  destruct (setitem1 (history_action s1) (t s1) (INR a)) as [ha|] eqn:Eha;
    [|exact H1].
  destruct (setitem1_inv _ _ _ _ Eha) as (_ & Lha & _).
  assert (Hs2 : agent_inv W0 (set_history_action s1 ha))
    by now apply inv_set_history_action.
  destruct (Hctx a Ha) as (x & Hx & Hlx). unfold getitem. rewrite Hx.
  cbn [history_context set_history_action t].
  destruct (setitem1 (history_context s1) (t s1) x) as [hc|] eqn:Ehc;
    [|exact Hs2].
  assert (Hs3 : agent_inv W0 (set_history_context
                                (set_history_action s1 ha) hc)).
  { apply inv_set_history_context; [exact Hs2|].
    cbn [T d set_history_action].
    destruct H1 as [(_ & _ & _ & _ & _ & _ & [H4a H4b]) _].
    destruct (setitem1_inv _ _ _ _ Ehc) as (_ & Lhc & _).
    split; [congruence|].
    apply (setitem1_Forall (fun row : vector => length row = d s1)
             (history_context s1) hc (t s1) x H4b); [congruence | exact Ehc]. }
  destruct (nth_error (map fst scores) a) as [mu|]; [|exact Hs3].
  cbn [predicted_reward set_history_action set_history_context t].
  destruct (setitem1 (predicted_reward s1) (t s1) mu) as [pr|] eqn:Epr;
    [|exact Hs3].
  destruct (setitem1_inv _ _ _ _ Epr) as (_ & Lpr & _).
  cbn [snd]. now apply inv_set_predicted_reward.
Qed.

(** the first half of [Update] keeps the agent in shape *)
Lemma observe_inv (reward : R) (s : NeuralAgent rt) :
  agent_inv W0 s -> agent_inv W0 (snd (observe rt reward s)).
Proof.
  intros Hs. unfold observe, bindE, modify, gets, lift.
  destruct (setitem1 (history_reward s) (t s) reward) as [hr|] eqn:E1;
    [|exact Hs].
  destruct (setitem1_inv _ _ _ _ E1) as (_ & Lhr & _).
  assert (Hs1 : agent_inv W0 (set_history_reward s hr))
    by now apply inv_set_history_reward.
  cbn [history_context set_history_reward t mynn].
  destruct (getitem (history_context s) (t s)) as [context|]; [|exact Hs1].
  destruct (GetGrad (mynn s) context) as [[g nn']|] eqn:EG; [|exact Hs1].
  destruct (GetGrad_net_ok (mynn s) nn' context g)
    as (Hok' & EW & E0 & Ed & Hx & _); [apply Hs | exact EG |].
  assert (Hs2 : agent_inv W0 (set_mynn (set_history_reward s hr) nn')).
  { apply inv_set_mynn; auto. cbn. now rewrite EW. }
  destruct (dot_vv g g) as [gg|]; [|exact Hs2].
  cbn [snd]. apply inv_set_U; [exact Hs2|].
  cbn [mynn set_mynn U set_history_reward m].
  apply add_scalar_shape. rewrite EW. apply Hs.
Qed.

Lemma train_step_inv (xs : matrix) (ys : vector) (batch_index : nat)
  (s : NeuralAgent rt) :
  agent_inv W0 s -> agent_inv W0 (snd (train_step rt xs ys batch_index s)).
Proof.
  intros Hs. unfold train_step, bindE, lift, gets, modify.
  destruct (floordiv (Z.of_nat (t s)) (batchsize s)) as [q|]; [|exact Hs].
  match goal with
  | |- context [train_batch ?a ?b ?c ?nn ?X ?y] =>
      destruct (train_batch a b c nn X y) as [nn'|] eqn:ET; [|exact Hs]
  end.
  destruct (train_batch_net_ok _ _ _ _ _ _ _ (proj1 (proj1 Hs)) ET)
    as (Hok' & Ed & E0 & Es).
  cbn [snd]. now apply inv_set_mynn.
Qed.

Lemma epoch_inv (jj : nat) (st : NeuralAgent rt * np_state rt) :
  agent_inv W0 (fst st) -> agent_inv W0 (fst (snd (epoch rt jj st))).
Proof.
  destruct st as [s g]. cbn [fst]. intros Hs. unfold epoch.
  destruct (np_shuffle rt (seq 0 (t s + 1)) g) as [history_index g'].
  unfold on_self.
  match goal with
  | |- context [let (r, self') := ?c s in _] =>
      assert (H : agent_inv W0 (snd (c s)));
      [|destruct (c s) as [r s']; exact H]
  end.
  unfold bindE.
  destruct (floordiv (Z.of_nat (t s)) (batchsize s)) as [q|]; [|exact Hs].
  apply (forE_inv (agent_inv W0)); [|exact Hs].
  intros a s0 Hs0. now apply train_step_inv.
Qed.

Lemma reset_inv (s : NeuralAgent rt) :
  agent_inv W0 s ->
  agent_inv W0 (set_mynn s (set_W (mynn s) (nn_W0 (mynn s)))).
Proof.
  intros Hs. destruct (reset_net_ok (mynn s)) as [Hok' Es]; [apply Hs|].
  apply inv_set_mynn; auto.
Qed.

Lemma retrain_inv (st : NeuralAgent rt * np_state rt) :
  agent_inv W0 (fst st) -> agent_inv W0 (fst (snd (retrain rt st))).
Proof.
  intros Hs. rewrite retrain_is_spec. unfold retrain_spec.
  generalize (Nat.min (t (fst st)) 100) as n. intros n.
  assert (H0 : agent_inv W0 (fst (reset_weights st)))
    by (destruct st; now apply reset_inv).
  revert H0. generalize (reset_weights st) as st1. clear Hs st.
  induction n as [|n IH]; intros st1 H1; [exact H1|].
  cbn [iterE]. unfold bindE. pose proof (epoch_inv 0 st1 H1) as H2.
  destruct (epoch rt 0 st1) as [[[]|e] st2]; cbn [fst snd] in *; auto.
Qed.

Lemma train_and_advance_inv (st : NeuralAgent rt * np_state rt) :
  agent_inv W0 (fst st) ->
  agent_inv W0 (fst (snd (train_and_advance rt st))).
Proof.
  destruct st as [s g]. cbn [fst]. intros Hs.
  rewrite train_and_advance_unfold.
  destruct (frequency s =? 0)%Z; [exact Hs|].
  destruct (_ =? 0)%Z; [|exact Hs].
  unfold bindE. pose proof (retrain_inv (s, g) Hs) as H1.
  destruct (retrain rt (s, g)) as [[[]|e] [s2 g2]]; cbn [fst snd] in *;
    exact H1.
Qed.

(** [Update] keeps the agent in shape, whatever its outcome *)
Lemma Update_inv (reward : R) (st : NeuralAgent rt * np_state rt) :
  agent_inv W0 (fst st) -> agent_inv W0 (fst (snd (Update rt reward st))).
Proof.
  destruct st as [s g]. cbn [fst]. intros Hs. rewrite Update_unfold.
  pose proof (observe_inv reward s Hs) as H1.
  destruct (observe rt reward s) as [[[]|e] s1]; cbn [fst snd] in *;
    [|exact H1].
  now apply (train_and_advance_inv (s1, g)).
Qed.

Lemma run_inv (calls : list call) (st : NeuralAgent rt * np_state rt) :
  agent_inv W0 (fst st) -> agent_inv W0 (fst (run rt calls st)).
Proof.
  revert st. induction calls as [|c calls IH]; intros st Hs; [exact Hs|].
  cbn [run fold_left]. apply IH.
  destruct c as [context_list|reward]; cbn [step fst].
  - now apply Action_inv.
  - now apply Update_inv.
Qed.

End AgentInvariantCalls.

(** * [Update] returns *)

Section ShuffleFacts.

Variable rt : Runtime.

Lemma swap_Forall {A : Type} (P : A -> Prop) (i j : nat) (l : list A) :
  Forall P l -> Forall P (swap i j l).
Proof.
  intros H. unfold swap.
  destruct (nth_error l i) as [a|] eqn:Ea; [|exact H].
  destruct (nth_error l j) as [b|] eqn:Eb; [|exact H].
  rewrite Forall_forall in H.
  apply Forall_map, Forall_forall. intros k Hk. apply in_seq in Hk.
  destruct (k =? i)%nat; [eapply H, nth_error_In, Eb|].
  destruct (k =? j)%nat; [eapply H, nth_error_In, Ea|].
  apply H, nth_In. lia.
Qed.

Lemma shuffle_from_Forall {A : Type} (P : A -> Prop) (i : nat) :
  forall (l : list A) (g : np_state rt),
    Forall P l -> Forall P (fst (shuffle_from rt i l g)).
Proof.
  induction i as [|i IH]; intros l g H; [exact H|].
  cbn [shuffle_from]. destruct (np_interval rt g (S i)) as [j g1].
  apply IH. now apply swap_Forall.
Qed.

(** what [np.random.shuffle] returns is made of the items it was given *)
Lemma np_shuffle_Forall {A : Type} (P : A -> Prop) (l : list A)
  (g : np_state rt) :
  Forall P l -> Forall P (fst (np_shuffle rt l g)).
Proof. unfold np_shuffle. apply shuffle_from_Forall. Qed.

End ShuffleFacts.

Section Loops3.

Context {S : Type}.

Lemma forE_returns {A : Type} (J : S -> Prop) (body : A -> Eff S unit)
  (l : list A) :
  (forall a s, J s -> exists s', body a s = (Ok tt, s') /\ J s') ->
  forall s, J s -> exists s', forE l body s = (Ok tt, s') /\ J s'.
Proof.
  intros Hbody. induction l as [|a l IH]; intros s Hs.
  - exists s. split; [reflexivity | exact Hs].
  - destruct (Hbody a s Hs) as (s1 & E1 & H1).
    destruct (IH s1 H1) as (s2 & E2 & H2).
    exists s2. split; [|exact H2].
    cbn [forE]. unfold bindE. now rewrite E1.
Qed.

Lemma iterE_returns (J : S -> Prop) (c : Eff S unit) (n : nat) :
  (forall s, J s -> exists s', c s = (Ok tt, s') /\ J s') ->
  forall s, J s -> exists s', iterE n c s = (Ok tt, s') /\ J s'.
Proof.
  intros Hc. induction n as [|n IH]; intros s Hs.
  - exists s. split; [reflexivity | exact Hs].
  - destruct (Hc s Hs) as (s1 & E1 & H1).
    destruct (IH s1 H1) as (s2 & E2 & H2).
    exists s2. split; [|exact H2].
    cbn [iterE]. unfold bindE. now rewrite E1.
Qed.

End Loops3.

Section UpdateTotal.

Variable rt : Runtime.

Lemma train_batch_returns (lam eta0 : R) (p0 : Z) (nn : NeuralNetwork)
  (X : matrix) (y : vector) :
  width (nn_d nn) X -> exists nn', train_batch lam eta0 p0 nn X y = Ok nn'.
Proof.
  intros HX. unfold train_batch, forward.
  assert (E : forallb (fun row => (length row =? nn_d nn)%nat) X = true).
  { apply forallb_forall. intros row Hin. apply Nat.eqb_eq.
    unfold width in HX. rewrite Forall_forall in HX. now apply HX. }
  rewrite E. cbn [bind]. destruct (backward _ _ _) as [gs dx].
  eexists. reflexivity.
Qed.

(** the first half of [Update] returns while a slot is free *)
Lemma observe_returns (reward : R) (s : NeuralAgent rt) :
  well_formed s -> (t s < T s)%nat ->
  exists s1, observe rt reward s = (Ok tt, s1).
Proof.
  intros (Hok & Hd & HU & H1 & H2 & H3 & [H4a H4b]) Ht.
  destruct (setitem1_Ok (history_reward s) (t s) reward) as (hr & Ehr & _);
    [lia|].
  destruct (nth_error (history_context s) (t s)) as [context|] eqn:Ec.
  2:{ apply nth_error_None in Ec. lia. }
  assert (Hc : length context = nn_d (mynn s)).
  { rewrite Hd. rewrite Forall_forall in H4b.
    eapply H4b, nth_error_In, Ec. }
  destruct (GetGrad_returns (mynn s) context Hok Hc) as (acc & EG & _).
  eexists. unfold observe, bindE, modify, gets, lift. rewrite Ehr.
  cbn [history_context set_history_reward t mynn]. unfold getitem.
  rewrite Ec, EG. unfold dot_vv. rewrite Nat.eqb_refl. reflexivity.
Qed.

Lemma training_facts (W0 : list matrix) (s0 s : NeuralAgent rt) :
  training W0 s0 s ->
  t s = t s0 /\ batchsize s = batchsize s0 /\ d s = d s0
  /\ history_context s = history_context s0
  /\ history_reward s = history_reward s0.
Proof.
  intros [_ H]. unfold untouched_by_training, settings in H.
  injection H. intros. repeat split; congruence.
Qed.

Lemma train_step_returns (W0 : list matrix) (s0 s : NeuralAgent rt)
  (bs : Z) (xs : matrix) (ys : vector) (batch_index : nat) :
  batchsize s0 = Some bs -> bs <> 0%Z -> width (d s0) xs ->
  training W0 s0 s ->
  exists s', train_step rt xs ys batch_index s = (Ok tt, s')
             /\ training W0 s0 s'.
Proof.
  intros Hbs Hnz Hxs Htr.
  destruct (training_facts _ _ _ Htr) as (Et & Eb & Ed & _).
  destruct Htr as [Hs Hu].
  pose proof (train_step_inv rt W0 xs ys batch_index s Hs) as Hinv.
  pose proof (train_step_keeps rt xs ys batch_index s) as Hk.
  assert (E : exists s', train_step rt xs ys batch_index s = (Ok tt, s')).
  { unfold train_step, bindE, lift, gets, modify. rewrite Eb, Hbs.
    unfold floordiv. destruct (Z.eqb_spec bs 0); [contradiction|].
    match goal with
    | |- context [train_batch ?a ?b ?c ?nn ?X ?y] =>
        destruct (train_batch_returns a b c nn X y) as (nn' & ->)
    end; [|eexists; reflexivity].
    assert (Hw : width (nn_d (mynn s)) xs).
    { destruct Hs as [(_ & Hd & _) _]. now rewrite Hd, Ed. }
    destruct (_ <? _)%Z.
    - now apply Forall_firstn_of, Forall_skipn_of.
    - now apply Forall_skipn_of. }
  destruct E as (s' & E). rewrite E in Hinv, Hk. cbn [snd] in *.
  exists s'. split; [exact E|]. split; [exact Hinv | congruence].
Qed.

Lemma epoch_returns (W0 : list matrix) (s0 : NeuralAgent rt) (bs : Z)
  (jj : nat) (st : NeuralAgent rt * np_state rt) :
  batchsize s0 = Some bs -> bs <> 0%Z -> (t s0 < T s0)%nat ->
  training W0 s0 (fst st) ->
  exists st', epoch rt jj st = (Ok tt, st') /\ training W0 s0 (fst st').
Proof.
  destruct st as [s g]. cbn [fst]. intros Hbs Hnz Ht Htr.
  destruct (training_facts _ _ _ Htr) as (Et & Eb & Ed & Ec & _).
  unfold epoch.
  pose proof (np_shuffle_Forall rt (fun i => (i < t s + 1)%nat)
                (seq 0 (t s + 1)) g) as Hsh.
  destruct (np_shuffle rt (seq 0 (t s + 1)) g) as [history_index g'].
  cbn [fst] in Hsh.
  assert (Hidx : Forall (fun i => (i < t s + 1)%nat) history_index).
  { apply Hsh, Forall_forall. intros i Hi. apply in_seq in Hi. lia. }
  clear Hsh.
  assert (Hxs : width (d s0)
                  (map (fun i => nth i (history_context s) []) history_index)).
  { apply Forall_map. eapply Forall_impl; [|exact Hidx].
    intros i Hi. cbn beta in Hi |- *.
    destruct Htr as [[(_ & _ & _ & _ & _ & _ & [H4a H4b]) _] Hu].
    rewrite Forall_forall in H4b. rewrite <- Ed. apply H4b, nth_In.
    assert (T s = T s0).
    { unfold untouched_by_training, settings in Hu. injection Hu.
      congruence. }
    lia. }
  unfold on_self, bindE at 1. rewrite Eb, Hbs. unfold floordiv.
  destruct (Z.eqb_spec bs 0); [contradiction|].
  destruct (forE_returns (training W0 s0)
              (train_step rt
                 (map (fun i => nth i (history_context s) []) history_index)
                 (map (fun i => nth i (history_reward s) 0) history_index))
              (seq 0 (Z.to_nat (Z.of_nat (t s) / bs + 1)))) with (s := s)
    as (s' & E & Htr'); [|exact Htr|].
  - intros a s1 Hs1. now apply (train_step_returns W0 s0 s1 bs).
  - rewrite E. eexists. split; [reflexivity | exact Htr'].
Qed.

(** [Update] returns on a well-formed agent with a free slot, a non-zero
    [frequency] and a non-zero [batchsize] *)
Lemma Update_returns_well_formed (reward : R) (s : NeuralAgent rt)
  (g : np_state rt) (bs : Z) :
  well_formed s -> (t s < T s)%nat -> frequency s <> 0%Z ->
  batchsize s = Some bs -> bs <> 0%Z ->
  exists st', Update rt reward (s, g) = (Ok tt, st')
              /\ t (fst st') = S (t s)
              /\ well_formed (fst st').
Proof.
  intros Hwf Ht Hf Hbs Hnz.
  destruct (observe_returns reward s Hwf Ht) as (s1 & Eobs).
  assert (Hinv1 : agent_inv (nn_W0 (mynn s)) s1).
  { pose proof (observe_inv rt (nn_W0 (mynn s)) reward s) as H.
    rewrite Eobs in H. apply H. now split. }
  destruct (observe_keeps_settings rt _ _ _ _ Eobs) as [Hset Et].
  destruct (settings_frequency rt _ _ Hset) as [Ef Eb].
  assert (ET : T s1 = T s).
  { unfold settings in Hset. injection Hset. congruence. }
  rewrite Update_unfold, Eobs, train_and_advance_unfold, Ef.
  destruct (Z.eqb_spec (frequency s) 0); [contradiction|].
  destruct (_ =? 0)%Z.
  - unfold bindE. rewrite retrain_is_spec. unfold retrain_spec.
    cbn [fst].
    destruct (iterE_returns
                (fun st => training (nn_W0 (mynn s))
                             (fst (reset_weights (s1, g))) (fst st))
                (epoch rt 0) (Nat.min (t s1) 100))
      with (s := reset_weights (s1, g)) as (st2 & E2 & Htr2).
    + intros st Hst. apply (epoch_returns _ _ bs); auto.
      * cbn. congruence.
      * cbn. lia.
    + split; [|reflexivity]. cbn [fst reset_weights]. now apply reset_inv.
    + rewrite E2. destruct st2 as [s2 g2]. cbn [fst] in Htr2.
      destruct (training_facts _ _ _ Htr2) as (Et2 & _).
      cbn [t set_mynn reset_weights fst] in Et2.
      eexists. split; [reflexivity|]. cbn [fst t set_t].
      split; [lia|]. apply Htr2.
  - eexists. split; [reflexivity|]. cbn. split; [lia|]. apply Hinv1.
Qed.

End UpdateTotal.

(** * What holds of every state the agent reaches *)

Section Reachable.

Variable rt : Runtime.

Lemma NeuralNetwork_init_snapshot (d L m : nat) (seed : Z)
  (g g' : np_state rt) (nn : NeuralNetwork) :
  NeuralNetwork_init rt d L m seed g = Ok (nn, g') -> nn_W0 nn = nn_W nn.
Proof.
  unfold NeuralNetwork_init. destruct (_ || _); [discriminate|].
  destruct (m =? 0)%nat; [discriminate|].
  destruct (randn2 rt (d / 2) (m / 2) _) as [r1 g1].
  destruct (randn2 rt (m / 2) (m / 2) g1) as [r2 g2].
  destruct (randn1 rt (m / 2) g2) as [r3 g3].
  destruct (mapM _ _) as [W|e]; cbn [bind]; [|discriminate].
  intros H. inversion H; subst. reflexivity.
Qed.

(** X12: the shapes of the agent are an invariant of its two methods.  After
    any sequence of calls of [Action] and [Update], returning or raising,
    the weights still chain from [d] inputs to one output, the gradients
    and the snapshot have the shapes of the weights, [U] is square of the
    size of the flattened gradient, and the four history arrays have [T]
    slots, the contexts [d] columns. *)
Theorem calls_keep_well_formed :
  forall (calls : list call) (st : NeuralAgent rt * np_state rt),
    well_formed (fst st) -> well_formed (fst (run rt calls st)).
Proof.
  intros calls st H.
  apply (run_inv rt (nn_W0 (mynn (fst st))) calls st). now split.
Qed.

(** X13: the snapshot [W0] is never written after construction: whatever is
    called, a retraining restarts from the weights the constructor drew. *)
Theorem snapshot_is_initial_weights :
  forall (K T d L m : nat) (nu lam eta : R) (freq : Z) (bs : option Z)
         (seed : Z) (g : np_state rt) (st0 : NeuralAgent rt * np_state rt)
         (calls : list call),
    valid_config d L m ->
    NeuralAgent_init rt K T d L m nu lam eta freq bs seed g = Ok st0 ->
    nn_W0 (mynn (fst (run rt calls st0))) = nn_W (mynn (fst st0)).
Proof.
  intros K0 T0 d0 L0 m0 nu0 lam eta0 freq bs seed g st0 calls Hv Hinit.
  pose proof (NeuralAgent_init_well_formed rt _ _ _ _ _ _ _ _ _ _ _ _ _
                Hv Hinit) as Hwf.
  destruct (NeuralAgent_init_Ok rt _ _ _ _ _ _ _ _ _ _ _ _ _ Hinit)
    as (_ & _ & _ & _ & _ & _ & Hnn).
  apply NeuralNetwork_init_snapshot in Hnn. rewrite <- Hnn.
  apply (run_inv rt (nn_W0 (mynn (fst st0))) calls st0). now split.
Qed.

(** X14: on a well-formed agent with a free slot ([t < T]), a non-zero
    [frequency] and a non-zero [batchsize], [Update] returns, in a
    retraining round as in any other: it advances [t] by one and leaves the
    agent well formed. *)
Theorem Update_total :
  forall (reward : R) (s : NeuralAgent rt) (g : np_state rt) (bs : Z),
    well_formed s -> (t s < T s)%nat -> frequency s <> 0%Z ->
    batchsize s = Some bs -> bs <> 0%Z ->
    exists st', Update rt reward (s, g) = (Ok tt, st')
                /\ t (fst st') = S (t s)
                /\ well_formed (fst st').
Proof.
  intros reward s g bs. apply Update_returns_well_formed.
Qed.

Lemma score_arms_returns (context_list U_inverse : matrix) (n : nat)
  (self : NeuralAgent rt) :
  net_ok (mynn self) ->
  size_of (nn_W (mynn self)) = n -> (0 < n)%nat ->
  linalg_inv rt (U self) = Ok U_inverse -> has_shape n n U_inverse ->
  (forall k, (k < K self)%nat ->
     exists x, nth_error context_list k = Some x
               /\ length x = nn_d (mynn self)) ->
  exists scores acc g',
    score_arms rt context_list self
    = (Ok scores,
       set_random_generator (set_mynn self (set_grad (mynn self) acc)) g')
    /\ length scores = K self.
Proof.
  intros Hok Hn Hpos Hinv HU Hctx.
  set (J := fun s : NeuralAgent rt =>
              exists acc g',
                s = set_random_generator
                      (set_mynn self (set_grad (mynn self) acc)) g'
                /\ Forall2 like (nn_W (mynn self)) acc).
  assert (HJ0 : J self).
  { exists (nn_grad (mynn self)), (random_generator self). split.
    - destruct self as [? ? ? ? ? ? ? ? nn]. destruct nn. reflexivity.
    - apply Hok. }
  destruct (mapE_returns J (score_arm rt U_inverse context_list)
              (seq 1 (K self))) with (s := self)
    as (scores & self1 & Eloop & (acc & g' & -> & Hacc) & Hlen); auto.
  { intros arm s Hin (acc & g' & -> & Hacc). apply in_seq in Hin.
    destruct (Hctx (arm - 1)%nat) as (x & Hx & Hlx); [lia|].
    destruct (score_arm_returns rt U_inverse context_list arm n
                (set_random_generator
                   (set_mynn self (set_grad (mynn self) acc)) g') x)
      as (mu & sv & acc' & g'' & E & Hacc'); auto.
    - cbn. now apply set_grad_ok.
    - exists (mu, sv). eexists. split; [exact E|].
      exists acc', g''. split; [reflexivity | exact Hacc']. }
  rewrite length_seq in Hlen.
  exists scores, acc, g'. split; [|exact Hlen].
  unfold score_arms, bindE, gets, lift. rewrite Hinv. exact Eloop.
Qed.

(** X15: once the [T] slots are used up, [Action] still inverts [U], scores
    every arm and draws its samples, and raises [IndexError] only when it
    writes the chosen arm to the history: the history and the weights are
    unchanged. *)
Theorem Action_past_horizon :
  forall (context_list U_inverse : matrix) (self : NeuralAgent rt),
    well_formed self ->
    linalg_inv rt (U self) = Ok U_inverse ->
    has_shape (length (U self)) (length (U self)) U_inverse ->
    (0 < K self)%nat -> (T self <= t self)%nat ->
    (forall k, (k < K self)%nat ->
       exists x, nth_error context_list k = Some x /\ length x = d self) ->
    exists scores self1,
      score_arms rt context_list self = (Ok scores, self1)
      /\ length scores = K self
      /\ Action rt context_list self = (Raise IndexError, self1)
      /\ history_action self1 = history_action self
      /\ history_context self1 = history_context self
      /\ predicted_reward self1 = predicted_reward self
      /\ nn_W (mynn self1) = nn_W (mynn self).
Proof.
  intros context_list U_inverse self
         (Hok & Hd & HU & _ & Hha & Hpr & Hhc) Hinv HUi HK Ht Hctx.
  assert (Hlen : length (U self) = size_of (nn_W (mynn self))) by apply HU.
  rewrite Hlen in HUi.
  destruct (score_arms_returns context_list U_inverse
              (size_of (nn_W (mynn self))) self)
    as (scores & acc & g' & E & Hsc); auto.
  { destruct Hok as (Hch & Hne & _). eapply size_of_pos; eauto. }
  { intros k Hk. destruct (Hctx k Hk) as (x & Hx & Hlx).
    exists x. split; [exact Hx | congruence]. }
  eexists _, _. split; [exact E|]. split; [exact Hsc|].
  split; [|repeat split].
  unfold Action. unfold bindE at 1. rewrite E.
  unfold bindE at 1, lift at 1.
  destruct (np_argmax (map snd scores)) as [a|e] eqn:Ea.
  2:{ destruct scores; [simpl in Hsc; lia | discriminate]. }
  unfold bindE at 1.
  cbn [history_action t set_random_generator set_mynn].
  rewrite setitem1_raises by lia. reflexivity.
Qed.




End Reachable.


Lemma calls_keep_well_formed_witness :
  exists st0,
    NeuralAgent_init unit_runtime 1 5 2 2 2 (1 / 10) 1 (1 / 100) 50
                     (Some 1%Z) 12345 O = Ok st0
    /\ well_formed (fst st0)
    /\ well_formed
         (fst (run unit_runtime [CallAction [[1; 1]]; CallUpdate 1] st0)).
Proof.
  eexists. split; [eval_agent; reflexivity|].
  match goal with
  | |- well_formed (fst ?s) /\ _ =>
      assert (H : well_formed (fst s))
  end.
  { eapply (NeuralAgent_init_well_formed unit_runtime 1 5 2 2 2 (1 / 10) 1
              (1 / 100) 50 (Some 1%Z) 12345 O).
    - unfold valid_config. simpl. repeat split; lia.
    - eval_agent. reflexivity. }
  split; [exact H|].
  apply (calls_keep_well_formed unit_runtime). exact H.
Defined.

Lemma snapshot_is_initial_weights_witness :
  valid_config 2 2 2
  /\ exists st0,
       NeuralAgent_init unit_runtime 1 5 2 2 2 (1 / 10) 1 (1 / 100) 50
                        (Some 1%Z) 12345 O = Ok st0
       /\ nn_W0 (mynn (fst (run unit_runtime
                              [CallAction [[1; 1]]; CallUpdate 1] st0)))
          = nn_W (mynn (fst st0)).
Proof.
  assert (Hv : valid_config 2 2 2)
    by (unfold valid_config; simpl; repeat split; lia).
  split; [exact Hv|].
  eexists. split; [eval_agent; reflexivity|].
  apply (snapshot_is_initial_weights unit_runtime 1 5 2 2 2 (1 / 10) 1
           (1 / 100) 50 (Some 1%Z) 12345 O _ _ Hv).
  eval_agent. reflexivity.
Defined.

Lemma Update_total_witness :
  exists st0,
    NeuralAgent_init unit_runtime 1 5 2 2 2 (1 / 10) 1 (1 / 100) 1
                     (Some 2%Z) 12345 O = Ok st0
    /\ well_formed (fst st0)
    /\ (t (fst st0) < T (fst st0))%nat
    /\ frequency (fst st0) <> 0%Z
    /\ batchsize (fst st0) = Some 2%Z
    /\ exists st', Update unit_runtime 1 (fst st0, O) = (Ok tt, st')
                   /\ t (fst st') = S (t (fst st0))
                   /\ well_formed (fst st').
Proof.
  eexists. split; [eval_agent; reflexivity|].
  match goal with
  | |- well_formed (fst ?s) /\ _ =>
      assert (H : well_formed (fst s))
  end.
  { eapply (NeuralAgent_init_well_formed unit_runtime 1 5 2 2 2 (1 / 10) 1
              (1 / 100) 1 (Some 2%Z) 12345 O).
    - unfold valid_config. simpl. repeat split; lia.
    - eval_agent. reflexivity. }
  split; [exact H|].
  split; [cbn; lia|]. split; [cbn; discriminate|]. split; [reflexivity|].
  apply (Update_total unit_runtime 1 _ O 2).
  - exact H.
  - cbn. lia.
  - cbn. discriminate.
  - reflexivity.
  - discriminate.
Defined.

Lemma Action_past_horizon_witness :
  exists st0,
    NeuralAgent_init unit_runtime 1 5 2 2 2 (1 / 10) 1 (1 / 100) 50
                     (Some 1%Z) 12345 O = Ok st0
    /\ well_formed (set_t (fst st0) 5)
    /\ (T (set_t (fst st0) 5) <= t (set_t (fst st0) 5))%nat
    /\ exists scores self1,
         score_arms unit_runtime [[1; 1]] (set_t (fst st0) 5)
         = (Ok scores, self1)
         /\ length scores = K (set_t (fst st0) 5)
         /\ Action unit_runtime [[1; 1]] (set_t (fst st0) 5)
            = (Raise IndexError, self1)
         /\ history_action self1 = history_action (set_t (fst st0) 5)
         /\ history_context self1 = history_context (set_t (fst st0) 5)
         /\ predicted_reward self1 = predicted_reward (set_t (fst st0) 5)
         /\ nn_W (mynn self1) = nn_W (mynn (set_t (fst st0) 5)).
Proof.
  eexists. split; [eval_agent; reflexivity|].
  match goal with
  | |- well_formed (set_t (fst ?s) 5) /\ _ =>
      assert (H : well_formed (set_t (fst s) 5))
  end.
  { change (well_formed (set_t ?s 5)) with (well_formed s).
    eapply (NeuralAgent_init_well_formed unit_runtime 1 5 2 2 2 (1 / 10) 1
              (1 / 100) 50 (Some 1%Z) 12345 O).
    - unfold valid_config. simpl. repeat split; lia.
    - eval_agent. reflexivity. }
  split; [exact H|]. split; [cbn; lia|].
  eapply (Action_past_horizon unit_runtime).
  - exact H.
  - reflexivity.
  - apply gauss_jordan_shape. split; [reflexivity | repeat constructor].
  - cbn. lia.
  - cbn. lia.
  - intros [|k] Hk; cbn in Hk; try lia. eexists; split; reflexivity.
Defined.


(** * The baseline agents *)

Section Gram.

Lemma dot_comm (u v : vector) : dot u v = dot v u.
Proof.
  revert v. induction u as [|a u IH]; intros [|b v]; cbn; try reflexivity.
  rewrite IH. ring.
Qed.

Lemma dot_vadd_l (u v y : vector) :
  length u = length v -> dot (vadd u v) y = dot u y + dot v y.
Proof.
  revert v y. induction u as [|a u IH]; intros [|b v] y H; simpl in H;
    try discriminate.
  - cbn. lra.
  - destruct y as [|c y]; cbn; [lra|]. rewrite IH by lia. ring.
Qed.

Lemma dot_vscale_l (a : R) (u y : vector) :
  dot (vscale a u) y = a * dot u y.
Proof.
  revert y. induction u as [|b u IH]; intros [|c y]; cbn; try ring.
  fold (vscale a u). rewrite IH. ring.
Qed.

Lemma dot_vecmat (c : nat) (u : vector) (M : matrix) (y : vector) :
  width c M -> dot (vecmat c u M) y = dot u (matvec M y).
Proof.
  intros HM. revert u. induction HM as [|b M Hb HM IH]; intros u.
  - destruct u; cbn; rewrite dot_zeros_l; reflexivity.
  - destruct u as [|a u]; [cbn; now rewrite dot_zeros_l|].
    cbn [vecmat matvec map dot].
    rewrite dot_vadd_l, dot_vscale_l.
    + fold (matvec M y). now rewrite IH.
    + rewrite vscale_length, vecmat_length; auto.
Qed.

Lemma transpose_shape (c : nat) (A : matrix) :
  width c A ->
  has_shape c (length A) (fold_right (zipWith cons) (repeat [] c) A).
Proof.
  intros HA. induction HA as [|a A Ha _ [IH1 IH2]].
  - cbn. split; [apply repeat_length|].
    apply Forall_forall. intros row Hin. apply repeat_spec in Hin.
    now subst.
  - cbn [fold_right length]. split.
    + rewrite zipWith_length. lia.
    + revert IH2 Ha IH1. generalize (fold_right (zipWith cons)
                                       (repeat [] c) A) as M.
      clear. intros M HM. revert a c.
      induction HM as [|row M Hrow _ IH]; intros a c Ha Hlen.
      * destruct a; constructor.
      * destruct a as [|x a]; [constructor|]. cbn [zipWith].
        constructor; [simpl; lia|].
        apply (IH a (length M)); simpl in *; lia.
Qed.

Lemma matvec_zip_cons (y0 : R) (y' a : vector) (M : matrix) :
  matvec (zipWith cons a M) (y0 :: y')
  = vadd (vscale y0 a) (matvec M y').
Proof.
  revert M. induction a as [|x a IH]; intros [|row M]; try reflexivity.
  cbn [zipWith matvec map vscale vadd dot].
  fold (matvec (zipWith cons a M) (y0 :: y')). fold (matvec M y').
  fold (vscale y0 a). fold (vadd (vscale y0 a) (matvec M y')).
  rewrite IH. f_equal. ring.
Qed.

(** [A.T] applied to [y] is [y] times [A] *)
Lemma matvec_transpose (c : nat) (A : matrix) :
  width c A ->
  forall y, length y = length A ->
    matvec (fold_right (zipWith cons) (repeat [] c) A) y = vecmat c y A.
Proof.
  intros HA. induction HA as [|a A Ha HA IH]; intros y Hy.
  - destruct y; [|discriminate]. cbn. unfold matvec.
    rewrite map_repeat. reflexivity.
  - destruct y as [|y0 y']; [discriminate|].
    cbn [fold_right vecmat]. rewrite matvec_zip_cons, IH; [reflexivity|].
    simpl in Hy. lia.
Qed.

Lemma matvec_length (A : matrix) (x : vector) :
  length (matvec A x) = length A.
Proof. apply length_map. Qed.

(** the score of [BestAgent]: [x^T (A^T A) x] is the squared norm of
    [A x] *)
Lemma expected_value (n dd : nat) (A : matrix) (x : vector) :
  has_shape n dd A -> (0 < n)%nat -> (0 < dd)%nat -> length x = dd ->
  (G <- dot_mm (transpose A) A ;; cG <- dot_vm x G ;; dot_vv cG x)
  = Ok (dot (matvec A x) (matvec A x)).
Proof.
  intros HA Hn Hdd Hx.
  assert (Hc : ncols A = dd) by now apply (has_shape_ncols n dd).
  destruct HA as [HlenA HwA].
  pose proof (transpose_shape dd A HwA) as HT.
  unfold transpose, dot_mm. rewrite Hc.
  set (T := fold_right (zipWith cons) (repeat [] dd) A) in *.
  rewrite (has_shape_ncols dd (length A) T HT Hdd), Nat.eqb_refl.
  cbn [bind]. unfold matmul. rewrite Hc.
  set (G := map (fun col => vecmat dd col A) T).
  assert (HG : has_shape dd dd G).
  { split; [unfold G; rewrite length_map; apply HT|].
    apply Forall_map, Forall_forall. intros col _.
    now apply vecmat_length. }
  unfold dot_vm. destruct HG as [HG1 HG2].
  rewrite Hx, HG1, Nat.eqb_refl. cbn [bind].
  rewrite (has_shape_ncols dd dd G (conj HG1 HG2) Hdd).
  unfold dot_vv. rewrite (vecmat_length dd x G HG2), Hx, Nat.eqb_refl.
  f_equal. rewrite (dot_vecmat dd x G x HG2).
  assert (E : matvec G x = vecmat dd (matvec A x) A).
  { unfold G, matvec at 1. rewrite map_map.
    rewrite (map_ext _ (fun col => dot col (matvec A x)))
      by (intros col; now apply dot_vecmat).
    fold (matvec T (matvec A x)). unfold T.
    apply matvec_transpose; [exact HwA | apply matvec_length]. }
  rewrite E, dot_comm. now apply dot_vecmat.
Qed.

End Gram.

Section Columns.

Lemma map_nth_seq {A B : Type} (f : A -> B) (l : list A) (dflt : A) :
  map (fun k => f (nth k l dflt)) (seq 0 (length l)) = map f l.
Proof.
  induction l as [|a l IH]; [reflexivity|].
  cbn [length seq map nth]. f_equal.
  rewrite <- seq_shift, map_map. exact IH.
Qed.

(** the assignment [W[:, j] = v] returns and writes [v] in column [j] *)
Lemma setitem_col_Ok (r c j : nat) (W : matrix) (v : vector) :
  has_shape r c W -> (0 < r)%nat -> (j < c)%nat -> length v = r ->
  exists W', setitem_col W j v = Ok W'
             /\ has_shape r c W' /\ column W' j = v
             /\ forall i, i <> j -> column W' i = column W i.
Proof.
  intros HW Hr Hj Hv. unfold setitem_col.
  rewrite (has_shape_ncols r c W HW Hr).
  destruct (Nat.leb_spec c j) as [?|_]; [lia|].
  destruct HW as [HlenW HwW].
  unfold fits. rewrite HlenW, Hv, Nat.eqb_refl. cbn [orb].
  rewrite (stretch_exact r v Hv). eexists. split; [reflexivity|].
  clear Hr. revert r v HlenW Hv.
  induction HwW as [|row W Hrow _ IH]; intros r v HlenW Hv.
  - simpl in HlenW. subst r. destruct v; [|discriminate].
    repeat split; try reflexivity. constructor.
  - destruct v as [|a v]; [simpl in *; lia|].
    destruct r as [|r]; [discriminate|].
    destruct (IH r v) as ([H1 H2] & H3 & H4); [simpl in *; lia..|].
    cbn [zipWith]. split; [|split].
    + split; [cbn [length]; now rewrite H1|]. constructor; [|exact H2].
      rewrite length_app. cbn [length].
      rewrite length_firstn, length_skipn. lia.
    + unfold column in *. cbn [map]. rewrite H3. f_equal.
      rewrite app_nth2 by (rewrite length_firstn; lia).
      rewrite length_firstn. replace (j - Nat.min j (length row))%nat
        with O by lia. reflexivity.
    + intros i Hi. unfold column in *. cbn [map]. rewrite (H4 i Hi).
      f_equal. destruct (Nat.lt_ge_cases i j) as [Hlt|Hge].
      * rewrite app_nth1 by (rewrite length_firstn; lia).
        rewrite nth_firstn. destruct (Nat.ltb_spec i j); [reflexivity | lia].
      * rewrite app_nth2 by (rewrite length_firstn; lia).
        rewrite length_firstn.
        replace (Nat.min j (length row)) with j by lia.
        destruct (i - j)%nat as [|k] eqn:E; [lia|]. cbn [nth].
        rewrite nth_skipn. f_equal. lia.
Qed.

Lemma setitem_col_raises (r c j : nat) (W : matrix) (v : vector) :
  has_shape r c W -> (0 < r)%nat -> (c <= j)%nat ->
  setitem_col W j v = Raise IndexError.
Proof.
  intros HW Hr Hj. unfold setitem_col.
  rewrite (has_shape_ncols r c W HW Hr).
  destruct (Nat.leb_spec c j) as [_|?]; [reflexivity | lia].
Qed.

End Columns.

Section BestAgentFacts.

(** X17: the expected reward that [BestAgent] computes for a context [x],
    [x^T (A^T A) x], is the squared norm of [A x]; it is never negative. *)
Theorem BestAgent_expected_reward :
  forall (n dd kk : nat) (A context_list : matrix) (x : vector),
    has_shape n dd A -> (0 < n)%nat -> (0 < dd)%nat ->
    nth_error context_list kk = Some x -> length x = dd ->
    Best.expected A context_list kk = Ok (dot (matvec A x) (matvec A x))
    /\ 0 <= dot (matvec A x) (matvec A x).
Proof.
  intros n dd kk A context_list x HA Hn Hdd Hx Hlen.
  split; [|apply dot_self_nonneg].
  unfold Best.expected, getitem. rewrite Hx. cbn [bind].
  now apply (expected_value n dd).
Qed.

Lemma Best_scores (n : nat) (A context_list : matrix) (K d : nat) :
  has_shape n d A -> (0 < n)%nat -> (0 < d)%nat ->
  has_shape K d context_list ->
  mapM (Best.expected A context_list) (seq 0 K)
  = Ok (map (fun x => dot (matvec A x) (matvec A x)) context_list).
Proof.
  intros HA Hn Hd [HK Hw].
  rewrite <- (map_nth_seq (fun x => dot (matvec A x) (matvec A x))
                context_list []), HK.
  apply mapM_ok. intros kk Hin. apply in_seq in Hin.
  assert (Hkk : (kk < length context_list)%nat) by lia.
  unfold Best.expected, getitem.
  rewrite (nth_error_nth' context_list [] Hkk). cbn [bind].
  apply (expected_value n d); auto.
  rewrite Forall_forall in Hw. apply Hw, nth_In, Hkk.
Qed.

(** X18: [BestAgent.Action] returns the lowest arm whose context has the
    largest [|A x|^2], writes that context in column [t] of the history
    and the arm in slot [t] of the actions; [t] and the rewards are as
    before. *)
Theorem BestAgent_Action_first_max :
  forall (n : nat) (context_list : matrix) (self : Best.BestAgent),
    has_shape n (Best.d self) (Best.A self) -> (0 < n)%nat ->
    (0 < Best.d self)%nat -> (0 < Best.K self)%nat ->
    has_shape (Best.K self) (Best.d self) context_list ->
    has_shape (Best.d self) (Best.T self) (Best.history_context self) ->
    length (Best.history_action self) = Best.T self ->
    (Best.t self < Best.T self)%nat ->
    exists ind row self',
      Best.Action context_list self = (Ok ind, self')
      /\ first_max (map (fun x => dot (matvec (Best.A self) x)
                                      (matvec (Best.A self) x))
                        context_list) ind
      /\ nth_error context_list ind = Some row
      /\ column (Best.GetHistoryContext self') (Best.t self) = row
      /\ nth_error (Best.GetHistoryAction self') (Best.t self)
         = Some (INR ind)
      /\ Best.t self' = Best.t self
      /\ Best.GetHistoryReward self' = Best.GetHistoryReward self.
Proof.
  intros n context_list self HA Hn Hd HK Hctx Hhc Hha Ht.
  pose proof (Best_scores n _ _ _ _ HA Hn Hd Hctx) as Esc.
  set (er := map (fun x => dot (matvec (Best.A self) x)
                               (matvec (Best.A self) x)) context_list) in *.
  destruct (np_argmax er) as [ind|e] eqn:Ea.
  2:{ destruct Hctx as [HlenK _]. unfold er in Ea.
      destruct context_list; [simpl in HlenK; lia | discriminate]. }
  pose proof (np_argmax_first_max _ _ Ea) as Hfm.
  assert (Hind : (ind < length context_list)%nat).
  { destruct Hfm as [H _]. unfold er in H. now rewrite length_map in H. }
  destruct (nth_error context_list ind) as [row|] eqn:Erow.
  2:{ apply nth_error_None in Erow. lia. }
  assert (Hrow : length row = Best.d self).
  { destruct Hctx as [_ Hw]. rewrite Forall_forall in Hw.
    eapply Hw, nth_error_In, Erow. }
  destruct (setitem_col_Ok _ _ (Best.t self) _ row Hhc Hd Ht Hrow)
    as (hc & Ehc & _ & Hcol & _).
  destruct (setitem1_Ok (Best.history_action self) (Best.t self) (INR ind))
    as (ha & Eha & _ & Hnth & _); [lia|].
  exists ind, row. eexists. split.
  - unfold Best.Action, bindE, lift, modify, ret. rewrite Esc, Ea.
    unfold getitem. rewrite Erow, Ehc.
    cbn [Best.history_action Best.t Best.set_history_context].
    rewrite Eha. reflexivity.
  - split; [exact Hfm|]. split; [exact Erow|]. split; [exact Hcol|].
    split; [exact Hnth|]. split; reflexivity.
Qed.

(** X19: once [t] has reached [T], both methods of [BestAgent] raise
    [IndexError] and leave the agent as it was: [Update] at once, [Action]
    after it has scored the arms. *)
Theorem BestAgent_past_horizon :
  forall (n : nat) (context_list : matrix) (reward : R)
         (self : Best.BestAgent),
    has_shape n (Best.d self) (Best.A self) -> (0 < n)%nat ->
    (0 < Best.d self)%nat -> (0 < Best.K self)%nat ->
    has_shape (Best.K self) (Best.d self) context_list ->
    has_shape (Best.d self) (Best.T self) (Best.history_context self) ->
    length (Best.history_reward self) = Best.T self ->
    (Best.T self <= Best.t self)%nat ->
    Best.Action context_list self = (Raise IndexError, self)
    /\ Best.Update reward self = (Raise IndexError, self).
Proof.
  intros n context_list reward self HA Hn Hd HK Hctx Hhc Hhr Ht. split.
  - pose proof (Best_scores n _ _ _ _ HA Hn Hd Hctx) as Esc.
    set (er := map (fun x => dot (matvec (Best.A self) x)
                                 (matvec (Best.A self) x)) context_list)
      in *.
    destruct (np_argmax er) as [ind|e] eqn:Ea.
    2:{ destruct Hctx as [HlenK _]. unfold er in Ea.
        destruct context_list; [simpl in HlenK; lia | discriminate]. }
    pose proof (np_argmax_first_max _ _ Ea) as [Hind _].
    unfold er in Hind. rewrite length_map in Hind.
    destruct (nth_error context_list ind) as [row|] eqn:Erow.
    2:{ apply nth_error_None in Erow. lia. }
    unfold Best.Action, bindE, lift, modify, ret. rewrite Esc, Ea.
    unfold getitem. rewrite Erow.
    now rewrite (setitem_col_raises _ _ _ _ row Hhc Hd Ht).
  - unfold Best.Update, bindE, lift.
    rewrite setitem1_raises by lia. reflexivity.
Qed.

End BestAgentFacts.

Lemma BestAgent_expected_reward_witness :
  has_shape 2 2 [[1; 0]; [0; 2]]
  /\ Best.expected [[1; 0]; [0; 2]] [[1; 1]; [3; 1]] 1
     = Ok (dot (matvec [[1; 0]; [0; 2]] [3; 1])
               (matvec [[1; 0]; [0; 2]] [3; 1]))
  /\ 0 <= dot (matvec [[1; 0]; [0; 2]] [3; 1])
              (matvec [[1; 0]; [0; 2]] [3; 1]).
Proof.
  assert (H : has_shape 2 2 [[1; 0]; [0; 2]])
    by (split; [reflexivity | repeat constructor]).
  split; [exact H|].
  apply (BestAgent_expected_reward 2 2 1 _ [[1; 1]; [3; 1]] [3; 1] H);
    try lia; reflexivity.
Defined.

Lemma BestAgent_Action_first_max_witness :
  exists ind row self',
    Best.Action [[1; 1]; [3; 1]] (Best.init 2 3 2 [[1; 0]; [0; 2]])
    = (Ok ind, self')
    /\ first_max (map (fun x => dot (matvec [[1; 0]; [0; 2]] x)
                                    (matvec [[1; 0]; [0; 2]] x))
                      [[1; 1]; [3; 1]]) ind
    /\ nth_error [[1; 1]; [3; 1]] ind = Some row
    /\ column (Best.GetHistoryContext self') 0 = row
    /\ nth_error (Best.GetHistoryAction self') 0 = Some (INR ind)
    /\ Best.t self' = O
    /\ Best.GetHistoryReward self' = repeat 0 3.
Proof.
  apply (BestAgent_Action_first_max 2 [[1; 1]; [3; 1]]
           (Best.init 2 3 2 [[1; 0]; [0; 2]])); cbn; try lia;
    try reflexivity; split; try reflexivity; repeat constructor.
Defined.

Lemma BestAgent_past_horizon_witness :
  Best.Action [[1; 1]; [3; 1]]
    (Best.set_t (Best.init 2 3 2 [[1; 0]; [0; 2]]) 3)
  = (Raise IndexError, Best.set_t (Best.init 2 3 2 [[1; 0]; [0; 2]]) 3)
  /\ Best.Update 1 (Best.set_t (Best.init 2 3 2 [[1; 0]; [0; 2]]) 3)
     = (Raise IndexError, Best.set_t (Best.init 2 3 2 [[1; 0]; [0; 2]]) 3).
Proof.
  apply (BestAgent_past_horizon 2 [[1; 1]; [3; 1]] 1
           (Best.set_t (Best.init 2 3 2 [[1; 0]; [0; 2]]) 3)); cbn; try lia;
    try reflexivity; split; try reflexivity; repeat constructor.
Defined.

Section UniformAgentFacts.

Variable rt : Runtime.
Variable np_randint : np_state rt -> nat -> nat * np_state rt.

Lemma Uniform_step_keeps_actions (c : call)
  (st : Uniform.UniformAgent * np_state rt) :
  Uniform.history_action (fst (Uniform.step rt np_randint c st))
  = Uniform.history_action (fst st).
Proof.
  destruct st as [self g]. destruct c as [context_list|reward];
    cbn [Uniform.step fst].
  - unfold Uniform.Action.
    destruct (Uniform.randint rt np_randint (Uniform.K self) g)
      as [[ind g']|e]; [|reflexivity].
    destruct (bind _ _); reflexivity.
  - unfold Uniform.Update.
    destruct (setitem1 _ _ _); reflexivity.
Qed.

(** X20: [UniformAgent.Action] never writes [history_action]: whatever is
    called on the agent, and whatever the draws are, [GetHistoryAction]
    returns the zeros the constructor put there. *)
Theorem UniformAgent_never_records_action :
  forall (K T d : nat) (g : np_state rt) (calls : list call),
    Uniform.GetHistoryAction
      (fst (Uniform.run rt np_randint calls (Uniform.init K T d, g)))
    = repeat 0 T.
Proof.
  intros K T d g calls. unfold Uniform.GetHistoryAction.
  change (repeat 0 T)
    with (Uniform.history_action (fst (Uniform.init K T d, g))).
  generalize (Uniform.init K T d, g) as st.
  induction calls as [|c calls IH]; intros st; [reflexivity|].
  cbn [Uniform.run fold_left].
  change (fold_left _ calls ?s) with (Uniform.run rt np_randint calls s).
  now rewrite IH, Uniform_step_keeps_actions.
Qed.

(** X21: [UniformAgent.Action] returns the arm that [np.random.randint]
    drew and writes its context in column [t] of the history; the other
    columns, the rewards, the actions and [t] are as before. *)
Theorem UniformAgent_Action_records_context :
  forall (context_list : matrix) (self : Uniform.UniformAgent)
         (g : np_state rt) (row : vector),
    (0 < Uniform.K self)%nat -> (Z.of_nat (Uniform.K self) <= 2 ^ 63)%Z ->
    (0 < Uniform.d self)%nat ->
    has_shape (Uniform.d self) (Uniform.T self)
              (Uniform.history_context self) ->
    (Uniform.t self < Uniform.T self)%nat ->
    nth_error context_list (fst (np_randint g (Uniform.K self)))
    = Some row ->
    length row = Uniform.d self ->
    exists hc,
      Uniform.Action rt np_randint context_list (self, g)
      = (Ok (fst (np_randint g (Uniform.K self))),
         (Uniform.set_history_context self hc,
          snd (np_randint g (Uniform.K self))))
      /\ column hc (Uniform.t self) = row
      /\ forall j, j <> Uniform.t self ->
           column hc j = column (Uniform.history_context self) j.
Proof.
  intros context_list self g row HK HK63 Hd Hhc Ht Hrow Hlen.
  destruct (setitem_col_Ok _ _ (Uniform.t self) _ row Hhc Hd Ht Hlen)
    as (hc & Ehc & _ & Hcol & Hother).
  exists hc. split; [|split; assumption].
  unfold Uniform.Action, Uniform.randint.
  destruct (Nat.eqb_spec (Uniform.K self) 0) as [?|_]; [lia|].
  destruct (Z.ltb_spec (2 ^ 63) (Z.of_nat (Uniform.K self))) as [?|_];
    [lia|].
  cbn [orb]. destruct (np_randint g (Uniform.K self)) as [ind g'].
  cbn [fst snd] in *. unfold getitem. rewrite Hrow. cbn [bind].
  now rewrite Ehc.
Qed.

End UniformAgentFacts.

Lemma UniformAgent_Action_records_context_witness :
  exists hc,
    Uniform.Action unit_runtime (fun g _ => (1%nat, S g)) [[1; 1]; [3; 1]]
                   (Uniform.init 2 3 2, O)
    = (Ok 1%nat, (Uniform.set_history_context (Uniform.init 2 3 2) hc, 1%nat))
    /\ column hc 0 = [3; 1]
    /\ forall j, j <> O ->
         column hc j = column (Uniform.history_context (Uniform.init 2 3 2)) j.
Proof.
  apply (UniformAgent_Action_records_context unit_runtime
           (fun g _ => (1%nat, S g)) [[1; 1]; [3; 1]]
           (Uniform.init 2 3 2) O [3; 1]); cbn; try lia; try reflexivity.
  split; [reflexivity | repeat constructor].
Defined.

(** * The minibatches of an epoch *)

Section Batches.

(** [train_step] trains on the slices [batch] of the shuffled contexts and
    rewards *)
Lemma train_step_batch (rt : Runtime) (xs : matrix) (ys : vector)
  (batch_index : nat) (self : NeuralAgent rt) :
  train_step rt xs ys batch_index self
  = match floordiv (Z.of_nat (t self)) (batchsize self) with
    | Ok q =>
        let bs := match batchsize self with Some b => b | None => 0%Z end in
        match train_batch (lambda_ self) (eta self) (p self) (mynn self)
                (batch bs q batch_index xs) (batch bs q batch_index ys) with
        | Ok nn' => (Ok tt, set_mynn self nn')
        | Raise e => (Raise e, self)
        end
    | Raise e => (Raise e, self)
    end.
Proof.
  unfold train_step, bindE, lift, gets, modify, batch.
  destruct (floordiv _ _) as [q|e]; [|reflexivity]. cbn zeta.
  destruct (_ <? _)%Z; destruct (train_batch _ _ _ _ _ _); reflexivity.
Qed.

Lemma firstn_add {X : Type} (n k : nat) (l : list X) :
  firstn (n + k) l = firstn n l ++ firstn k (skipn n l).
Proof.
  revert l. induction n as [|n IH]; intros l; [reflexivity|].
  destruct l as [|a l]; cbn [Nat.add firstn skipn app].
  - now rewrite firstn_nil.
  - now rewrite IH.
Qed.

Lemma full_batches {X : Type} (b : nat) (l : list X) (q : nat) :
  concat (map (fun i => firstn b (skipn (i * b) l)) (seq 0 q))
  = firstn (q * b) l.
Proof.
  induction q as [|q IH]; [reflexivity|].
  rewrite seq_S, map_app, concat_app, IH. cbn [map concat Nat.add].
  rewrite app_nil_r. replace (S q * b)%nat with (q * b + b)%nat by lia.
  now rewrite firstn_add.
Qed.

Lemma batch_full {X : Type} (bs q : Z) (i : nat) (l : list X) :
  (0 < bs)%Z -> (Z.of_nat i < q)%Z ->
  batch bs q i l = firstn (Z.to_nat bs) (skipn (i * Z.to_nat bs) l).
Proof.
  intros Hbs Hi. unfold batch.
  destruct (Z.ltb_spec (Z.of_nat i) q) as [_|?]; [|lia].
  f_equal; [|f_equal]; nia.
Qed.

Lemma batch_last {X : Type} (bs q : Z) (i : nat) (l : list X) :
  (0 < bs)%Z -> (q <= Z.of_nat i)%Z ->
  batch bs q i l = skipn (i * Z.to_nat bs) l.
Proof.
  intros Hbs Hi. unfold batch.
  destruct (Z.ltb_spec (Z.of_nat i) q) as [?|_]; [lia|].
  f_equal. nia.
Qed.

(** X22: for a positive [batchsize] the minibatches of an epoch split the
    [t + 1] shuffled records: taken in order they give back the shuffled
    history, so every record is used exactly once per epoch; every batch
    but the last has [batchsize] rows and the last has between 1 and
    [batchsize]. *)
Theorem batches_partition :
  forall (X : Type) (l : list X) (bs : Z) (t : nat),
    (0 < bs)%Z -> length l = (t + 1)%nat ->
    concat (map (fun i => batch bs (Z.of_nat t / bs) i l)
                (seq 0 (Z.to_nat (Z.of_nat t / bs + 1)))) = l
    /\ Forall (fun i =>
                 (1 <= length (batch bs (Z.of_nat t / bs) i l)
                  <= Z.to_nat bs)%nat
                 /\ ((Z.of_nat i < Z.of_nat t / bs)%Z ->
                     length (batch bs (Z.of_nat t / bs) i l) = Z.to_nat bs))
              (seq 0 (Z.to_nat (Z.of_nat t / bs + 1))).
Proof.
  intros X l bs t Hbs Hlen.
  set (q := (Z.of_nat t / bs)%Z).
  assert (Hq0 : (0 <= q)%Z) by (apply Z.div_pos; lia).
  assert (Hq1 : (q * bs <= Z.of_nat t)%Z).
  { rewrite Z.mul_comm. apply Z.mul_div_le. lia. }
  assert (Hq2 : (Z.of_nat t < (q + 1) * bs)%Z).
  { pose proof (Z.mul_succ_div_gt (Z.of_nat t) bs Hbs). unfold q. lia. }
  set (b := Z.to_nat bs). set (qn := Z.to_nat q).
  assert (Eb : Z.of_nat b = bs) by (unfold b; lia).
  assert (Eq : Z.of_nat qn = q) by (unfold qn; lia).
  replace (Z.to_nat (q + 1)) with (S qn) by lia.
  split.
  - rewrite seq_S, map_app, concat_app. cbn [map concat Nat.add].
    rewrite app_nil_r.
    rewrite (map_ext_in _ (fun i => firstn b (skipn (i * b) l))).
    + rewrite full_batches, batch_last by lia.
      apply firstn_skipn.
    + intros i Hi. apply in_seq in Hi. apply batch_full; lia.
  - apply Forall_forall. intros i Hi. apply in_seq in Hi.
    destruct (Z.lt_ge_cases (Z.of_nat i) q) as [Hlt|Hge].
    + rewrite batch_full by lia. fold b.
      rewrite length_firstn, length_skipn. split; [|nia]. nia.
    + rewrite batch_last by lia. fold b. rewrite length_skipn.
      assert (i = qn) by lia. subst i. split; [nia | lia].
Qed.

End Batches.

Lemma batches_partition_witness :
  (0 < 2)%Z /\ length [10; 11; 12; 13; 14]%nat = (4 + 1)%nat
  /\ concat (map (fun i => batch 2 (Z.of_nat 4 / 2) i [10; 11; 12; 13; 14]%nat)
                 (seq 0 (Z.to_nat (Z.of_nat 4 / 2 + 1))))
     = [10; 11; 12; 13; 14]%nat
  /\ Forall (fun i =>
               (1 <= length (batch 2 (Z.of_nat 4 / 2) i
                               [10; 11; 12; 13; 14]%nat)
                <= Z.to_nat 2)%nat
               /\ ((Z.of_nat i < Z.of_nat 4 / 2)%Z ->
                   length (batch 2 (Z.of_nat 4 / 2) i
                             [10; 11; 12; 13; 14]%nat) = Z.to_nat 2))
            (seq 0 (Z.to_nat (Z.of_nat 4 / 2 + 1))).
Proof.
  assert (H1 : (0 < 2)%Z) by lia.
  assert (H2 : length [10; 11; 12; 13; 14]%nat = (4 + 1)%nat)
    by reflexivity.
  split; [exact H1|]. split; [exact H2|].
  exact (batches_partition nat [10; 11; 12; 13; 14]%nat 2 4 H1 H2).
Defined.

(** * The history as a log of the experiment *)

Section HistoryLog.

Variable rt : Runtime.

Lemma setitem1_other {A : Type} (l l' : list A) (i j : nat) (a : A) :
  setitem1 l i a = Ok l' -> j <> i -> nth_error l' j = nth_error l j.
Proof. intros H Hj. now apply (setitem1_inv l l' i a H). Qed.

(** [Action] writes slot [t] only, whatever its outcome *)
Lemma Action_log (context_list : matrix) (s : NeuralAgent rt) (j : nat) :
  j <> t s -> log_at (snd (Action rt context_list s)) j = log_at s j.
Proof.
  intros Hj. destruct (Action rt context_list s) as [r s'] eqn:E.
  cbn [snd]. unfold Action in E. unfold bindE at 1 in E.
  pose proof (score_arms_keeps_history rt context_list s) as Hk.
  pose proof (score_arms_keeps_settings rt context_list s) as Hk2.
  assert (K0 : log_at (snd (score_arms rt context_list s)) j = log_at s j).
  { unfold untouched_by_Action in Hk2. unfold log_at.
    assert (history_reward (snd (score_arms rt context_list s))
            = history_reward s) as -> by congruence.
    assert (history_action (snd (score_arms rt context_list s))
            = history_action s) as -> by congruence.
    assert (history_context (snd (score_arms rt context_list s))
            = history_context s) as -> by congruence.
    assert (predicted_reward (snd (score_arms rt context_list s))
            = predicted_reward s) as -> by congruence.
    reflexivity. }
  destruct (score_arms rt context_list s) as [[scores|e] s1];
    cbn [snd] in Hk, Hk2, K0.
  2:{ inversion E; subst. exact K0. }
  assert (Kt : t s1 = t s) by congruence.
  assert (Ka : history_action s1 = history_action s) by congruence.
  assert (Kc : history_context s1 = history_context s) by congruence.
  assert (Kp : predicted_reward s1 = predicted_reward s) by congruence.
  assert (Kr : history_reward s1 = history_reward s)
    by (unfold untouched_by_Action in Hk2; congruence).
  clear Hk Hk2.
  assert (H0 : log_at s1 j = log_at s j) by exact K0.
  unfold bindE, lift, modify, ret in E.
  destruct (np_argmax (map snd scores)) as [a|];
    [|inversion E; subst; exact H0].
  destruct (setitem1 (history_action s1) (t s1) (INR a)) as [ha|] eqn:Eha;
    [|inversion E; subst; exact H0].
  pose proof (setitem1_other _ _ _ j _ Eha ltac:(lia)) as Ha.
  cbn [fst snd] in E. unfold getitem in E.
  destruct (nth_error context_list a) as [row|];
    [|inversion E; subst; unfold log_at in *; cbn; congruence].
  cbn [history_context set_history_action t] in E.
  destruct (setitem1 (history_context s1) (t s1) row) as [hc|] eqn:Ehc;
    [|inversion E; subst; unfold log_at in *; cbn; congruence].
  pose proof (setitem1_other _ _ _ j _ Ehc ltac:(lia)) as Hc.
  destruct (nth_error (map fst scores) a) as [mu|];
    [|inversion E; subst; unfold log_at in *; cbn; congruence].
  cbn [predicted_reward set_history_action set_history_context t] in E.
  destruct (setitem1 (predicted_reward s1) (t s1) mu) as [pr|] eqn:Epr;
    [|inversion E; subst; unfold log_at in *; cbn; congruence].
  pose proof (setitem1_other _ _ _ j _ Epr ltac:(lia)) as Hp.
  inversion E; subst. unfold log_at in *. cbn. congruence.
Qed.

Lemma observe_keeps_actions (reward : R) :
  keeps (fun s : NeuralAgent rt =>
           (history_action s, history_context s, predicted_reward s))
        (observe rt reward).
Proof. unfold observe. frame. Qed.

Lemma train_and_advance_keeps_actions :
  keeps (fun st : NeuralAgent rt * np_state rt =>
           (history_action (fst st), history_context (fst st),
            predicted_reward (fst st)))
        (train_and_advance rt).
Proof.
  unfold train_and_advance. apply keeps_bind.
  - apply (keeps_on_self (fun s => (history_action s, history_context s,
                                    predicted_reward s))). frame.
  - intros r. apply keeps_bind.
    + destruct (r =? 0)%Z; [|apply keeps_ret].
      intros st. pose proof (retrain_keeps rt st) as H.
      unfold untouched_by_training in H. congruence.
    + intros _. unfold advance.
      apply (keeps_on_self (fun s => (history_action s, history_context s,
                                      predicted_reward s))). frame.
Qed.

(** the first half of [Update] writes slot [t] of the rewards only *)
Lemma observe_reward (reward : R) (s : NeuralAgent rt) :
  (forall j, j <> t s ->
     nth_error (history_reward (snd (observe rt reward s))) j
     = nth_error (history_reward s) j)
  /\ (fst (observe rt reward s) = Ok tt ->
      nth_error (history_reward (snd (observe rt reward s))) (t s)
      = Some reward).
Proof.
  destruct (observe rt reward s) as [r s'] eqn:E. cbn [fst snd].
  unfold observe, bindE, modify, gets, lift in E.
  destruct (setitem1 (history_reward s) (t s) reward) as [hr|] eqn:E1.
  2:{ inversion E; subst. split; [reflexivity | discriminate]. }
  destruct (setitem1_inv _ _ _ _ E1) as (_ & _ & Hthis & Hother).
  assert (Hs' : history_reward s' = hr).
  { cbn [history_context set_history_reward t mynn] in E.
    destruct (getitem (history_context s) (t s)) as [context|];
      [|inversion E; subst; reflexivity].
    destruct (GetGrad (mynn s) context) as [[g nn']|];
      [|inversion E; subst; reflexivity].
    destruct (dot_vv g g) as [gg|]; inversion E; subst; reflexivity. }
  rewrite Hs'. split; [exact Hother | intros _; exact Hthis].
Qed.

(** [Update] writes slot [t] of the rewards only, whatever its outcome,
    and the reward it was given when it returns *)
Lemma Update_log (reward : R) (st : NeuralAgent rt * np_state rt) :
  (forall j, j <> t (fst st) ->
     log_at (fst (snd (Update rt reward st))) j = log_at (fst st) j)
  /\ (fst (Update rt reward st) = Ok tt ->
      log_at (fst (snd (Update rt reward st))) (t (fst st))
      = (Some reward, nth_error (history_action (fst st)) (t (fst st)),
         nth_error (history_context (fst st)) (t (fst st)),
         nth_error (predicted_reward (fst st)) (t (fst st)))).
Proof.
  destruct st as [s g]. cbn [fst]. rewrite Update_unfold.
  destruct (observe_reward reward s) as [Ho1 Ho2].
  pose proof (observe_keeps_actions reward s) as Hk1.
  destruct (observe rt reward s) as [[[]|e] s1]; cbn [fst snd] in *.
  - pose proof (train_and_advance_keeps rt (s1, g)) as Hk2.
    pose proof (train_and_advance_keeps_actions (s1, g)) as Hk3.
    destruct (train_and_advance rt (s1, g)) as [r [s2 g2]].
    cbn [fst snd] in *.
    assert (E1 : history_reward s2 = history_reward s1) by congruence.
    assert (E2 : history_action s2 = history_action s) by congruence.
    assert (E3 : history_context s2 = history_context s) by congruence.
    assert (E4 : predicted_reward s2 = predicted_reward s) by congruence.
    unfold log_at. rewrite E1, E2, E3, E4. split.
    + intros j Hj. now rewrite Ho1.
    + intros _. now rewrite Ho2.
  - unfold log_at. split; [|discriminate].
    intros j Hj. rewrite Ho1 by exact Hj.
    assert (history_action s1 = history_action s) as -> by congruence.
    assert (history_context s1 = history_context s) as -> by congruence.
    assert (predicted_reward s1 = predicted_reward s) as -> by congruence.
    reflexivity.
Qed.

Lemma Update_t (reward : R) (st : NeuralAgent rt * np_state rt) :
  t (fst (snd (Update rt reward st)))
  = match fst (Update rt reward st) with
    | Ok _ => S (t (fst st))
    | Raise _ => t (fst st)
    end.
Proof. exact (step_t rt (CallUpdate reward) st). Qed.

Lemma Action_t (context_list : matrix) (s : NeuralAgent rt) :
  t (snd (Action rt context_list s)) = t s.
Proof. exact (step_t rt (CallAction context_list) (s, np_seed rt 0)). Qed.

(** rounds never rewrite the slots below [t], and [t] moves by at most one
    per round *)
Lemma play_log (rounds : list (matrix * R)) :
  forall (st : NeuralAgent rt * np_state rt),
    (t (fst st) <= t (fst (snd (play rt rounds st)))
     <= t (fst st) + length rounds)%nat
    /\ forall j, (j < t (fst st))%nat ->
         log_at (fst (snd (play rt rounds st))) j = log_at (fst st) j.
Proof.
  induction rounds as [|[context_list reward] rounds IH]; intros [s g].
  - cbn. split; [lia | reflexivity].
  - cbn [play fst snd length].
    pose proof (Action_t context_list s) as HtA.
    pose proof (Action_log context_list s) as HlA.
    destruct (Action rt context_list s) as [[ind|e] s1]; cbn [fst snd] in *.
    2:{ split; [lia|]. intros j Hj. apply HlA. lia. }
    pose proof (Update_t reward (s1, g)) as HtU.
    destruct (Update_log reward (s1, g)) as [HlU _].
    destruct (Update rt reward (s1, g)) as [[[]|e] st2]; cbn [fst snd] in *.
    2:{ split; [lia|]. intros j Hj.
        rewrite HlU by lia. apply HlA. lia. }
    destruct (IH st2) as [Hb Hl].
    destruct (play rt rounds st2) as [acts st3]. cbn [fst snd] in *.
    split; [lia|]. intros j Hj.
    rewrite Hl by lia. rewrite HlU by lia. apply HlA. lia.
Qed.

(** X23: the history arrays are a log of the experiment.  When every round of
    a run returned (the round counter advanced by the number of rounds),
    slot [t0 + i] holds what round [i] produced: the reward that was fed
    back, the arm that [Action] returned and the context of that arm. *)
Theorem play_records_history :
  forall (rounds : list (matrix * R))
         (st st' : NeuralAgent rt * np_state rt) (acts : list nat),
    play rt rounds st = (acts, st') ->
    t (fst st') = (t (fst st) + length rounds)%nat ->
    length acts = length rounds
    /\ forall i context_list reward,
         nth_error rounds i = Some (context_list, reward) ->
         exists ind,
           nth_error acts i = Some ind
           /\ nth_error (history_reward (fst st')) (t (fst st) + i)
              = Some reward
           /\ nth_error (history_action (fst st')) (t (fst st) + i)
              = Some (INR ind)
           /\ nth_error (history_context (fst st')) (t (fst st) + i)
              = nth_error context_list ind
           /\ (ind < length context_list)%nat.
Proof.
  induction rounds as [|[context_list reward] rounds IH];
    intros [s g] st' acts Hplay Ht.
  - cbn in Hplay. inversion Hplay; subst. split; [reflexivity|].
    intros [|i] ? ? Hi; discriminate.
  - cbn [play fst snd length] in *.
    pose proof (Action_t context_list s) as HtA.
    destruct (Action rt context_list s) as [[ind|e] s1] eqn:EA;
      cbn [fst snd] in *.
    2:{ inversion Hplay; subst. cbn [fst] in Ht. lia. }
    pose proof (Update_t reward (s1, g)) as HtU.
    destruct (Update_log reward (s1, g)) as [_ HlU].
    destruct (Update rt reward (s1, g)) as [[[]|e] st2] eqn:EU;
      cbn [fst snd] in *.
    2:{ inversion Hplay; subst. lia. }
    destruct (play_log rounds st2) as [Hb Hl].
    destruct (play rt rounds st2) as [acts' st3] eqn:EP.
    cbn [fst snd] in *. inversion Hplay; subst acts st'. clear Hplay.
    destruct (IH st2 st3 acts' EP) as [Hlen Hrec]; [lia|].
    split; [simpl; now rewrite Hlen|].
    intros [|i] c r Hi.
    + cbn in Hi. inversion Hi; subst c r. exists ind.
      split; [reflexivity|]. rewrite Nat.add_0_r.
      destruct (Action_slot rt _ _ _ _ EA)
        as (scores & s0 & row & mu & _ & Hrow & _ & _ & Ha & Hc & _).
      specialize (HlU eq_refl). rewrite HtA in HlU.
      specialize (Hl (t s) ltac:(lia)). rewrite HlU in Hl.
      unfold log_at in Hl.
      injection Hl. intros _ E3 E2 E1.
      rewrite E1, E2, E3, Ha, Hc, Hrow.
      repeat split. apply nth_error_Some. congruence.
    + cbn in Hi. destruct (Hrec i c r Hi) as (ind' & H1 & H2 & H3 & H4 & H5).
      exists ind'. cbn [nth_error].
      replace (t s + S i)%nat with (t (fst st2) + i)%nat by lia.
      auto.
Qed.

End HistoryLog.

Lemma play_records_history_witness :
  exists st0 acts st',
    NeuralAgent_init unit_runtime 1 5 2 2 2 (1 / 10) 1 (1 / 100) 50
                     (Some 1%Z) 12345 O = Ok st0
    /\ play unit_runtime [([[1; 1]], 1)] st0 = (acts, st')
    /\ t (fst st') = (t (fst st0) + length [([[1; 1]], 1)])%nat
    /\ length acts = length [([[1; 1]], 1)]
    /\ forall i context_list reward,
         nth_error [([[1; 1]], 1)] i = Some (context_list, reward) ->
         exists ind,
           nth_error acts i = Some ind
           /\ nth_error (history_reward (fst st')) (t (fst st0) + i)
              = Some reward
           /\ nth_error (history_action (fst st')) (t (fst st0) + i)
              = Some (INR ind)
           /\ nth_error (history_context (fst st')) (t (fst st0) + i)
              = nth_error context_list ind
           /\ (ind < length context_list)%nat.
Proof.
  eexists _, _, _.
  split; [eval_agent; reflexivity|].
  split; [eval_agent; reflexivity|].
  split; [reflexivity|].
  apply (play_records_history unit_runtime [([[1; 1]], 1)]).
  - eval_agent. reflexivity.
  - reflexivity.
Defined.

(** * The size of the gradient *)

Section GradientSize.

Variable rt : Runtime.

Lemma step_keeps_settings_U (c : call) (st : NeuralAgent rt * np_state rt) :
  (0 < m (fst st))%nat ->
  settings (fst (step rt c st)) = settings (fst st)
  /\ length (U (fst (step rt c st))) = length (U (fst st)).
Proof.
  intros Hm. destruct c as [context_list|reward]; cbn [step fst].
  - pose proof (Action_keeps rt context_list (fst st)) as H.
    unfold untouched_by_Action in H.
    pose proof (f_equal (fun x => fst (fst (fst x))) H) as H1.
    pose proof (f_equal (fun x => snd (fst (fst x))) H) as H2.
    cbn [fst snd] in H1, H2. split; [exact H1 | now rewrite H2].
  - destruct (Update_U rt reward st Hm) as (Hs & s & _ & [->| ->]).
    + auto.
    + split; [exact Hs|]. unfold add_scalar. apply length_map.
Qed.

Lemma run_keeps_settings_U (calls : list call)
  (st : NeuralAgent rt * np_state rt) :
  (0 < m (fst st))%nat ->
  settings (fst (run rt calls st)) = settings (fst st)
  /\ length (U (fst (run rt calls st))) = length (U (fst st)).
Proof.
  revert st. induction calls as [|c calls IH]; intros st Hm; [auto|].
  cbn [run fold_left].
  destruct (step_keeps_settings_U c st Hm) as [H1 H2].
  destruct (IH (step rt c st)) as [H3 H4].
  - now rewrite (settings_m rt _ _ H1).
  - split; [etransitivity; [exact H3 | exact H1]
           | etransitivity; [exact H4 | exact H2]].
Qed.

(** X24: [p = m + m*d + m*m*(L-2)] is the number of parameters of the
    network.  For a valid configuration, in every state the agent reaches,
    [GetGrad] on a context of length [d] returns [p] numbers and [U] is a
    [p] by [p] array, so that [grad.dot(U_inverse).dot(grad)] is well
    shaped. *)
Theorem p_counts_parameters :
  forall (K T d L m : nat) (nu lam eta : R) (freq : Z) (bs : option Z)
         (seed : Z) (g : np_state rt) (st0 : NeuralAgent rt * np_state rt)
         (calls : list call) (x : vector),
    valid_config d L m ->
    NeuralAgent_init rt K T d L m nu lam eta freq bs seed g = Ok st0 ->
    length x = d ->
    p (fst st0)
    = (Z.of_nat m + Z.of_nat m * Z.of_nat d
       + Z.of_nat m * Z.of_nat m * (Z.of_nat L - 2))%Z
    /\ exists grad nn',
         GetGrad (mynn (fst (run rt calls st0))) x = Ok (grad, nn')
         /\ Z.of_nat (length grad) = p (fst st0)
         /\ has_shape (length grad) (length grad)
                      (U (fst (run rt calls st0))).
Proof.
  intros K0 T0 d0 L0 m0 nu0 lam eta0 freq bs seed g st0 calls x
         Hv Hinit Hx.
  pose proof (NeuralAgent_init_well_formed rt _ _ _ _ _ _ _ _ _ _ _ _ _
                Hv Hinit) as Hwf0.
  destruct (NeuralAgent_init_Ok rt _ _ _ _ _ _ _ _ _ _ _ _ _ Hinit)
    as (Hm & Hset & HU & _).
  assert (Ep : p (fst st0)
               = (Z.of_nat m0 + Z.of_nat m0 * Z.of_nat d0
                  + Z.of_nat m0 * Z.of_nat m0 * (Z.of_nat L0 - 2))%Z
               /\ d (fst st0) = d0 /\ m (fst st0) = m0).
  { unfold settings in Hset. injection Hset. auto. }
  destruct Ep as (Ep & Ed & Em).
  split; [exact Ep|].
  destruct (run_inv rt (nn_W0 (mynn (fst st0))) calls st0
              (conj Hwf0 eq_refl)) as [Hwf _].
  destruct (run_keeps_settings_U calls st0) as [Hs HlenU]; [lia|].
  destruct Hwf as (Hok & Hd & HUs & _).
  assert (Ed' : d (fst (run rt calls st0)) = d0).
  { unfold settings in Hs. injection Hs. congruence. }
  destruct (GetGrad_returns (mynn (fst (run rt calls st0))) x Hok)
    as (acc & EG & _ & Hlen); [congruence|].
  exists (flatten acc), (set_grad (mynn (fst (run rt calls st0))) acc).
  split; [exact EG|]. rewrite Hlen.
  split; [|exact HUs].
  destruct HUs as [HUlen _]. rewrite <- HUlen, HlenU, HU.
  unfold mscale. rewrite length_map.
  destruct (np_eye_shape (Z.to_nat (p (fst st0)))) as [-> _].
  destruct Hv as (_ & _ & _ & _ & HL). rewrite Z2Nat.id; [reflexivity|].
  rewrite Ep. nia.
Qed.

(** X25: the scalar that [Update] adds to every entry of [U] is built from
    the accumulated [.grad], not from the gradient at the chosen context
    alone: it is [|a + f|^2 / m], where [a] is what the accumulators hold
    when [Update] is called (after [Action], the gradients of all the arms
    it scored) and [f] the gradient at the context of slot [t]. *)
Theorem Update_uses_accumulated_gradient :
  forall (reward : R) (self : NeuralAgent rt) (g : np_state rt)
         (st' : NeuralAgent rt * np_state rt),
    net_ok (mynn self) ->
    Update rt reward (self, g) = (Ok tt, st') ->
    exists context fresh,
      nth_error (history_context self) (t self) = Some context
      /\ fresh = flatten (fst (backward (nn_W (mynn self)) [context]
                                 (mscale (sqrt (INR (nn_m (mynn self))))
                                    [[1]])))
      /\ U (fst st')
         = add_scalar
             (dot (vadd (flatten (nn_grad (mynn self))) fresh)
                  (vadd (flatten (nn_grad (mynn self))) fresh)
              / INR (m self))
             (U self).
Proof.
  intros reward self g st' Hok HU.
  destruct (Update_adds_inner_product rt reward self g st' HU)
    as (context & gp & nn' & Hc & HG & HUeq).
  assert (Hx : length context = nn_d (mynn self)).
  { unfold GetGrad in HG.
    destruct (forward (mynn self) (Rank2 [context])) as [out|] eqn:E;
      [|discriminate].
    eapply forward_Ok_length, E. }
  destruct (GetGrad_value (mynn self) context Hok Hx) as [_ EG].
  rewrite EG in HG. inversion HG; subst gp nn'. clear HG.
  exists context. eexists. split; [|split; [reflexivity | exact HUeq]].
  unfold getitem in Hc.
  destruct (nth_error (history_context self) (t self)); [|discriminate].
  now inversion Hc.
Qed.

End GradientSize.

Lemma p_counts_parameters_witness :
  valid_config 2 2 2
  /\ exists st0,
       NeuralAgent_init unit_runtime 1 5 2 2 2 (1 / 10) 1 (1 / 100) 50
                        (Some 1%Z) 12345 O = Ok st0
       /\ p (fst st0)
          = (Z.of_nat 2 + Z.of_nat 2 * Z.of_nat 2
             + Z.of_nat 2 * Z.of_nat 2 * (Z.of_nat 2 - 2))%Z
       /\ exists grad nn',
            GetGrad (mynn (fst (run unit_runtime
                                  [CallAction [[1; 1]]; CallUpdate 1] st0)))
                    [1; 0] = Ok (grad, nn')
            /\ Z.of_nat (length grad) = p (fst st0)
            /\ has_shape (length grad) (length grad)
                 (U (fst (run unit_runtime
                            [CallAction [[1; 1]]; CallUpdate 1] st0))).
Proof.
  assert (Hv : valid_config 2 2 2)
    by (unfold valid_config; simpl; repeat split; lia).
  split; [exact Hv|].
  eexists. split; [eval_agent; reflexivity|].
  apply (p_counts_parameters unit_runtime 1 5 2 2 2 (1 / 10) 1 (1 / 100) 50
           (Some 1%Z) 12345 O _ _ [1; 0] Hv).
  - eval_agent. reflexivity.
  - reflexivity.
Defined.

Lemma Update_uses_accumulated_gradient_witness :
  exists st0 ind self1 st2,
    NeuralAgent_init unit_runtime 1 5 2 2 2 (1 / 10) 1 (1 / 100) 50
                     (Some 1%Z) 12345 O = Ok st0
    /\ Action unit_runtime [[1; 0]] (fst st0) = (Ok ind, self1)
    /\ net_ok (mynn self1)
    /\ Update unit_runtime 1 (self1, snd st0) = (Ok tt, st2)
    /\ exists context fresh,
         nth_error (history_context self1) (t self1) = Some context
         /\ fresh = flatten (fst (backward (nn_W (mynn self1)) [context]
                                    (mscale (sqrt (INR (nn_m (mynn self1))))
                                       [[1]])))
         /\ U (fst st2)
            = add_scalar
                (dot (vadd (flatten (nn_grad (mynn self1))) fresh)
                     (vadd (flatten (nn_grad (mynn self1))) fresh)
                 / INR (m self1))
                (U self1).
Proof.
  eexists _, _, _, _.
  split; [eval_agent; reflexivity|].
  split; [eval_agent; reflexivity|].
  match goal with
  | |- net_ok ?nn /\ _ => assert (Hok : net_ok nn)
  end.
  { unfold net_ok. cbn [mynn nn_d nn_W nn_W0 nn_grad]. split.
    - cbn. split; [lia|]. exists 2%nat. split.
      + split; [reflexivity | repeat constructor].
      + split; [lia|]. exists 1%nat. split; [|reflexivity].
        split; [reflexivity | repeat constructor].
    - split; [discriminate|]. split; repeat constructor. }
  split; [exact Hok|].
  split; [eval_agent; reflexivity|].
  eapply (Update_uses_accumulated_gradient unit_runtime 1).
  - exact Hok.
  - eval_agent. reflexivity.
Defined.

